(** * Planning graph (my_planning_graph.py): a shallow embedding and its properties

    The Python module builds a planning graph out of mutable node objects
    ([PgNode_s], [PgNode_a]) that refer to each other through the sets
    [parents], [children] and [mutex].  The embedding keeps the objects in an
    explicit heap: a reference is an address tagged with the class of the object
    it denotes, and every method is a function on the heap (or on the graph
    object, which owns the heap reachable from it).

    A Python [set] of nodes is a list of references in which no two elements are
    equal for [__eq__]; the list order is the insertion order, one of the
    iteration orders a [set] may show. *)

From Stdlib Require Import List ZArith Ascii String Bool Arith Lia Permutation.
Import ListNotations.
Open Scope string_scope.
Open Scope Z_scope.
Open Scope list_scope.

(* ================================================================== *)
(** ** External collaborators *)

(** Modelled from the spec: the expression type of aimacode.utils ([expr]);
    a ground fluent is identified by its printed form. *)
Definition Expr := string.

Definition Expr_eqb (a b : Expr) : bool := String.eqb a b.

(** Modelled from the spec: aimacode.planning.Action, a name/argument identity
    pair and four literal collections (spec, section 6). *)
Record Action := mkAction {
  name : string;
  args : list Expr;
  precond_pos : list Expr;
  precond_neg : list Expr;
  effect_add : list Expr;
  effect_rem : list Expr
}.

(** Modelled from the spec: the pair of literal lists of a decoded state. *)
Record FluentState := mkFluentState {
  pos : list Expr;
  neg : list Expr
}.

(** Modelled from the spec: the planning problem, as far as the graph reads
    it: the state map, the ground actions and the goal. *)
Record Problem := mkProblem {
  state_map : list Expr;
  actions_list : list Action;
  goal : list Expr
}.

(** Exceptions the module can raise. *)
Inductive exn := TypeError | IndexError | AttributeError | Exception_.

(** Outcome of a statement: normal completion, an exception, or the loop
    budget of the model used up.  Each carries the state reached, since a
    Python exception does not undo mutations. *)
Inductive result (S : Type) :=
| Ok (s : S)
| Raise (e : exn) (s : S)
| OutOfFuel (s : S).
Arguments Ok {S} s.
Arguments Raise {S} e s.
Arguments OutOfFuel {S} s.

Definition bind {S T : Type} (r : result S) (lift : S -> T) (k : S -> result T)
  : result T :=
  match r with
  | Ok s => k s
  | Raise e s => Raise e (lift s)
  | OutOfFuel s => OutOfFuel (lift s)
  end.

Definition state_of {S : Type} (r : result S) : S :=
  match r with Ok s | Raise _ s | OutOfFuel s => s end.

(** Python indexing [l[i]]: negative indices count from the end. *)
Definition py_getitem {A : Type} (l : list A) (i : Z) : option A :=
  let n := Z.of_nat (List.length l) in
  if 0 <=? i then nth_error l (Z.to_nat i)
  else if - n <=? i then nth_error l (Z.to_nat (n + i))
  else None.

(** Modelled from the spec: lp_utils.decode_state, one character per fluent
    position; the character T puts the fluent of that position in [pos], any
    other one in [neg].  A position beyond the state map is an IndexError. *)
Fixpoint decode_state_from (state : string) (fluent_map : list Expr)
    (idx : nat) (fs : FluentState) : FluentState + exn :=
  match state with
  | EmptyString => inl fs
  | String c rest =>
      match nth_error fluent_map idx with
      | None => inr IndexError
      | Some f =>
          let fs' :=
            if Ascii.eqb c "T"%char
            then mkFluentState (pos fs ++ [f]) (neg fs)
            else mkFluentState (pos fs) (neg fs ++ [f]) in
          decode_state_from rest fluent_map (S idx) fs'
      end
  end.

Definition decode_state (state : string) (fluent_map : list Expr)
  : FluentState + exn :=
  decode_state_from state fluent_map 0%nat (mkFluentState [] []).

(* ================================================================== *)
(** ** Node objects and the heap *)

(** A reference to a node object; the tag is the class of the object. *)
Inductive ref :=
| RefS (a : nat)   (* a PgNode_s instance *)
| RefA (a : nat).  (* a PgNode_a instance *)

(** The class of the object a reference denotes: [type(node)]. *)
Inductive node_type := PgNode_s_t | PgNode_a_t.

Definition type_of (r : ref) : node_type :=
  match r with RefS _ => PgNode_s_t | RefA _ => PgNode_a_t end.

Definition node_type_eqb (t1 t2 : node_type) : bool :=
  match t1, t2 with
  | PgNode_s_t, PgNode_s_t | PgNode_a_t, PgNode_a_t => true
  | _, _ => false
  end.

(** A Python set of nodes. *)
Definition pyset := list ref.

(** class PgNode: the three instance sets. *)
Record PgNode := mkPgNode {
  parents : pyset;
  children : pyset;
  mutex : pyset
}.

(** PgNode.__init__ *)
Definition PgNode_init : PgNode := mkPgNode [] [] [].

(** class PgNode_s(PgNode) *)
Record PgNode_s := mkPgNode_s {
  s_base : PgNode;
  symbol : Expr;
  is_pos : bool
}.

(** class PgNode_a(PgNode) *)
Record PgNode_a := mkPgNode_a {
  a_base : PgNode;
  action : Action;
  prenodes : pyset;
  effnodes : pyset;
  is_persistent : bool
}.

(** The heap: one store per class, each with its next free address. *)
Record Heap := mkHeap {
  s_store : nat -> PgNode_s;
  s_next : nat;
  a_store : nat -> PgNode_a;
  a_next : nat
}.

Definition empty_action : Action := mkAction "" [] [] [] [] [].

Definition empty_heap : Heap :=
  mkHeap (fun _ => mkPgNode_s PgNode_init "" false) 0%nat
         (fun _ => mkPgNode_a PgNode_init empty_action [] [] false) 0%nat.

(** The PgNode part of the object behind a reference. *)
Definition base (h : Heap) (r : ref) : PgNode :=
  match r with
  | RefS a => s_base (s_store h a)
  | RefA a => a_base (a_store h a)
  end.

Definition upd {A : Type} (f : nat -> A) (a : nat) (v : A) : nat -> A :=
  fun x => if Nat.eqb x a then v else f x.

(** Assignment to the PgNode part of an object. *)
Definition set_base (h : Heap) (r : ref) (b : PgNode) : Heap :=
  match r with
  | RefS a =>
      let n := s_store h a in
      mkHeap (upd (s_store h) a (mkPgNode_s b (symbol n) (is_pos n)))
             (s_next h) (a_store h) (a_next h)
  | RefA a =>
      let n := a_store h a in
      mkHeap (s_store h) (s_next h)
             (upd (a_store h) a
                  (mkPgNode_a b (action n) (prenodes n) (effnodes n)
                              (is_persistent n)))
             (a_next h)
  end.

Definition list_eqb {A : Type} (eqb : A -> A -> bool) : list A -> list A -> bool :=
  fix go l1 l2 :=
    match l1, l2 with
    | [], [] => true
    | x :: l1', y :: l2' => eqb x y && go l1' l2'
    | _, _ => false
    end.

(** PgNode_s.__eq__ and PgNode_a.__eq__ ([isinstance] fails across classes). *)
Definition node_eqb (h : Heap) (r1 r2 : ref) : bool :=
  match r1, r2 with
  | RefS a, RefS b =>
      Bool.eqb (is_pos (s_store h a)) (is_pos (s_store h b))
      && Expr_eqb (symbol (s_store h a)) (symbol (s_store h b))
  | RefA a, RefA b =>
      Bool.eqb (is_persistent (a_store h a)) (is_persistent (a_store h b))
      && String.eqb (name (action (a_store h a))) (name (action (a_store h b)))
      && list_eqb Expr_eqb (args (action (a_store h a)))
                           (args (action (a_store h b)))
  | _, _ => false
  end.

(** [x in s] for a set of nodes. *)
Definition pyset_mem (h : Heap) (x : ref) (s : pyset) : bool :=
  existsb (fun y => node_eqb h y x) s.

(** [s.add(x)]: an element equal to [x] already in the set stays. *)
Definition pyset_add (h : Heap) (s : pyset) (x : ref) : pyset :=
  if pyset_mem h x s then s else s ++ [x].

(** [set(l)] *)
Definition pyset_of_list (h : Heap) (l : list ref) : pyset :=
  fold_left (pyset_add h) l [].

(** [s1.issubset(s2)] *)
Definition issubset (h : Heap) (s1 s2 : pyset) : bool :=
  forallb (fun x => pyset_mem h x s2) s1.

(** [s1 == s2] on sets: equal sizes and inclusion. *)
Definition pyset_eqb (h : Heap) (s1 s2 : pyset) : bool :=
  Nat.eqb (List.length s1) (List.length s2) && issubset h s1 s2.

(** PgNode.is_mutex *)
Definition is_mutex (h : Heap) (self other : ref) : bool :=
  if pyset_mem h other (mutex (base h self)) then true else false.

(** [node.parents.add(x)], [node.children.add(x)], [node.mutex.add(x)] *)
Definition parents_add (h : Heap) (node x : ref) : Heap :=
  let b := base h node in
  set_base h node (mkPgNode (pyset_add h (parents b) x) (children b) (mutex b)).

Definition children_add (h : Heap) (node x : ref) : Heap :=
  let b := base h node in
  set_base h node (mkPgNode (parents b) (pyset_add h (children b) x) (mutex b)).

Definition mutex_add (h : Heap) (node x : ref) : Heap :=
  let b := base h node in
  set_base h node (mkPgNode (parents b) (children b) (pyset_add h (mutex b) x)).

(** PgNode_s.__init__: a fresh literal node. *)
Definition new_PgNode_s (symbol : Expr) (is_pos : bool) (h : Heap) : ref * Heap :=
  (RefS (s_next h),
   mkHeap (upd (s_store h) (s_next h) (mkPgNode_s PgNode_init symbol is_pos))
          (S (s_next h)) (a_store h) (a_next h)).

(** The loop [for p in syms: nodes.add(PgNode_s(p, flag))]. *)
Fixpoint add_s_nodes (syms : list Expr) (flag : bool) (nodes : pyset) (h : Heap)
  : pyset * Heap :=
  match syms with
  | [] => (nodes, h)
  | p :: rest =>
      let '(n, h1) := new_PgNode_s p flag h in
      add_s_nodes rest flag (pyset_add h1 nodes n) h1
  end.

(** PgNode_a.precond_s_nodes *)
Definition precond_s_nodes (act : Action) (h : Heap) : pyset * Heap :=
  let '(nodes, h1) := add_s_nodes (precond_pos act) true [] h in
  add_s_nodes (precond_neg act) false nodes h1.

(** PgNode_a.effect_s_nodes *)
Definition effect_s_nodes (act : Action) (h : Heap) : pyset * Heap :=
  let '(nodes, h1) := add_s_nodes (effect_add act) true [] h in
  add_s_nodes (effect_rem act) false nodes h1.

(** PgNode_a.__init__; the result is the address of the new object. *)
Definition new_PgNode_a (act : Action) (h : Heap) : nat * Heap :=
  let '(pre, h1) := precond_s_nodes act h in
  let '(eff, h2) := effect_s_nodes act h1 in
  let persistent := pyset_eqb h2 pre eff in
  (a_next h2,
   mkHeap (s_store h2) (s_next h2)
          (upd (a_store h2) (a_next h2)
               (mkPgNode_a PgNode_init act pre eff persistent))
          (S (a_next h2))).

(** mutexify *)
Definition mutexify (node1 node2 : ref) (h : Heap) : result Heap :=
  if negb (node_type_eqb (type_of node1) (type_of node2)) then
    Raise TypeError h
  else
    let h1 := mutex_add h node1 node2 in
    Ok (mutex_add h1 node2 node1).

(* ================================================================== *)
(** ** class PlanningGraph *)

Record PlanningGraph := mkPlanningGraph {
  problem : Problem;
  fs : FluentState;
  serial : bool;
  all_actions : list Action;
  s_levels : list pyset;
  a_levels : list (list ref);
  heap : Heap
}.

Definition with_heap (self : PlanningGraph) (h : Heap) : PlanningGraph :=
  mkPlanningGraph (problem self) (fs self) (serial self) (all_actions self)
                  (s_levels self) (a_levels self) h.

Definition with_s_levels (self : PlanningGraph) (l : list pyset) : PlanningGraph :=
  mkPlanningGraph (problem self) (fs self) (serial self) (all_actions self)
                  l (a_levels self) (heap self).

Definition with_a_levels (self : PlanningGraph) (l : list (list ref))
  : PlanningGraph :=
  mkPlanningGraph (problem self) (fs self) (serial self) (all_actions self)
                  (s_levels self) l (heap self).

Notation "'do' x <- r ; k" := (bind r (fun s => s) (fun x => k))
  (at level 10, x name, r at level 100, k at level 200).

(** Attribute access that exists on one class only. *)
Definition as_PgNode_a (h : Heap) (r : ref) : option PgNode_a :=
  match r with RefA a => Some (a_store h a) | RefS _ => None end.

Definition as_PgNode_s (h : Heap) (r : ref) : option PgNode_s :=
  match r with RefS a => Some (s_store h a) | RefA _ => None end.

(** PlanningGraph.noop_actions *)
Fixpoint noop_actions (literal_list : list Expr) : list Action :=
  match literal_list with
  | [] => []
  | fluent :: rest =>
      let act1 := mkAction "Noop_pos" [fluent] [fluent] [] [fluent] [] in
      let act2 := mkAction "Noop_neg" [fluent] [] [fluent] [] [fluent] in
      act1 :: act2 :: noop_actions rest
  end.

(** The loop [for literal in literals] of add_action_level. *)
Definition connect_literals (action_node : ref) (literals : pyset) (h : Heap)
  : Heap :=
  fold_left
    (fun h literal =>
       let h1 := parents_add h action_node literal in
       children_add h1 literal action_node)
    literals h.

(** The loop [for action in self.all_actions] of add_action_level. *)
Fixpoint add_action_level_loop (self : PlanningGraph) (level : Z)
    (actions : list Action) (action_level : list ref)
  : result (list ref * PlanningGraph) :=
  match actions with
  | [] => Ok (action_level, self)
  | act :: rest =>
      match py_getitem (s_levels self) level with
      | None => Raise IndexError (action_level, self)
      | Some literals =>
          let '(a, h1) := new_PgNode_a act (heap self) in
          let action_node := RefA a in
          let precond_for_node := prenodes (a_store h1 a) in
          if issubset h1 precond_for_node literals then
            let h2 := connect_literals action_node literals h1 in
            add_action_level_loop (with_heap self h2) level rest
                                  (action_level ++ [action_node])
          else
            add_action_level_loop (with_heap self h1) level rest action_level
      end
  end.

(** PlanningGraph.add_action_level *)
Definition add_action_level (self : PlanningGraph) (level : Z)
  : result PlanningGraph :=
  bind (add_action_level_loop self level (all_actions self) []) snd
       (fun '(action_level, self1) =>
          Ok (with_a_levels self1 (a_levels self1 ++ [action_level]))).

(** The loop [for state in current_action_effect] of add_literal_level. *)
Definition connect_effects (act : ref) (current_action_effect : pyset)
    (literal_level : list ref) (h : Heap) : list ref * Heap :=
  fold_left
    (fun '(literal_level, h) state =>
       let h1 := parents_add h state act in
       (literal_level ++ [state], children_add h1 act state))
    current_action_effect (literal_level, h).

(** The loop [for action in self.a_levels[level - 1]] of add_literal_level. *)
Fixpoint add_literal_level_loop (actions : list ref) (literal_level : list ref)
    (h : Heap) : result (list ref * Heap) :=
  match actions with
  | [] => Ok (literal_level, h)
  | act :: rest =>
      match as_PgNode_a h act with
      | None => Raise AttributeError (literal_level, h)
      | Some obj =>
          let '(literal_level1, h1) :=
            connect_effects act (effnodes obj) literal_level h in
          add_literal_level_loop rest literal_level1 h1
      end
  end.

(** PlanningGraph.add_literal_level *)
Definition add_literal_level (self : PlanningGraph) (level : Z)
  : result PlanningGraph :=
  match py_getitem (a_levels self) (level - 1) with
  | None => Raise IndexError self
  | Some actions =>
      bind (add_literal_level_loop actions [] (heap self))
           (fun '(_, h) => with_heap self h)
           (fun '(literal_level, h) =>
              Ok (with_s_levels (with_heap self h)
                    (s_levels self ++ [pyset_of_list h literal_level])))
  end.

(** [x in l] for a list of expressions. *)
Definition Expr_in (x : Expr) (l : list Expr) : bool :=
  existsb (fun y => Expr_eqb y x) l.

(** PlanningGraph.serialize_actions *)
Definition serialize_actions (self : PlanningGraph) (node_a1 node_a2 : PgNode_a)
  : bool :=
  if negb (serial self) then false
  else if is_persistent node_a1 || is_persistent node_a2 then false
  else true.

(** PlanningGraph.inconsistent_effects_mutex *)
Definition inconsistent_effects_mutex (node_a1 node_a2 : PgNode_a) : bool :=
  let action_a1 := action node_a1 in
  let action_a2 := action node_a2 in
  let add_a1 := effect_add action_a1 in
  let rem_a1 := effect_rem action_a1 in
  let add_a2 := effect_add action_a2 in
  let rem_a2 := effect_rem action_a2 in
  if existsb (fun add_ => Expr_in add_ rem_a2) add_a1 then true
  else if existsb (fun add_ => Expr_in add_ rem_a1) add_a2 then true
  else false.

(** PlanningGraph.interference_mutex *)
Definition interference_mutex (node_a1 node_a2 : PgNode_a) : bool :=
  let action_a1 := action node_a1 in
  let action_a2 := action node_a2 in
  let rem_a1 := effect_rem action_a1 in
  let rem_a2 := effect_rem action_a2 in
  let pre_a1 := precond_pos action_a1 in
  let pre_a2 := precond_pos action_a2 in
  if existsb (fun rem_ => Expr_in rem_ pre_a2) rem_a1 then true
  else if existsb (fun rem_ => Expr_in rem_ pre_a1) rem_a2 then true
  else false.

(** PlanningGraph.competing_needs_mutex: the nested loops return True at the
    first mutex pair of parents. *)
Definition competing_needs_mutex (self : PlanningGraph)
    (node_a1 node_a2 : PgNode_a) : bool :=
  let parents_a1 := parents (a_base node_a1) in
  let parents_a2 := parents (a_base node_a2) in
  existsb
    (fun parent_a1 =>
       existsb (fun parent_a2 => is_mutex (heap self) parent_a1 parent_a2)
               parents_a2)
    parents_a1.

(** PlanningGraph.negation_mutex *)
Definition negation_mutex (node_s1 node_s2 : PgNode_s) : bool :=
  negb (Bool.eqb (is_pos node_s1) (is_pos node_s2))
  && Expr_eqb (symbol node_s1) (symbol node_s2).

(** PlanningGraph.inconsistent_support_mutex: the counter run through the two
    nested loops, then compared with [len(parents_a1)]. *)
Definition inconsistent_support_mutex (self : PlanningGraph)
    (node_s1 node_s2 : PgNode_s) : bool :=
  let parents_a1 := parents (s_base node_s1) in
  let parents_a2 := parents (s_base node_s2) in
  let counter_of_mutex :=
    fold_left
      (fun counter parent_a1 =>
         fold_left
           (fun counter parent_a2 =>
              if is_mutex (heap self) parent_a1 parent_a2
              then counter + 1 else counter)
           parents_a2 counter)
      parents_a1 0 in
  if counter_of_mutex =? Z.of_nat (List.length parents_a1) then true else false.

(** One pair of update_a_mutex: the four tests, then mutexify. *)
Definition a_mutex_pair (self : PlanningGraph) (n1 n2 : ref)
  : result PlanningGraph :=
  match as_PgNode_a (heap self) n1, as_PgNode_a (heap self) n2 with
  | Some node_a1, Some node_a2 =>
      if serialize_actions self node_a1 node_a2
         || inconsistent_effects_mutex node_a1 node_a2
         || interference_mutex node_a1 node_a2
         || competing_needs_mutex self node_a1 node_a2
      then bind (mutexify n1 n2 (heap self)) (with_heap self)
                (fun h => Ok (with_heap self h))
      else Ok self
  | _, _ => Raise AttributeError self
  end.

(** One pair of update_s_mutex. *)
Definition s_mutex_pair (self : PlanningGraph) (n1 n2 : ref)
  : result PlanningGraph :=
  match as_PgNode_s (heap self) n1, as_PgNode_s (heap self) n2 with
  | Some node_s1, Some node_s2 =>
      if negation_mutex node_s1 node_s2
         || inconsistent_support_mutex self node_s1 node_s2
      then bind (mutexify n1 n2 (heap self)) (with_heap self)
                (fun h => Ok (with_heap self h))
      else Ok self
  | _, _ => Raise AttributeError self
  end.

(** The inner loop [for n2 in nodelist[i + 1:]]. *)
Fixpoint mutex_inner (pair : PlanningGraph -> ref -> ref -> result PlanningGraph)
    (n1 : ref) (tail : list ref) (self : PlanningGraph) : result PlanningGraph :=
  match tail with
  | [] => Ok self
  | n2 :: rest =>
      do self1 <- pair self n1 n2;
      mutex_inner pair n1 rest self1
  end.

(** The outer loop [for i, n1 in enumerate(nodelist[:-1])]. *)
Fixpoint mutex_outer (pair : PlanningGraph -> ref -> ref -> result PlanningGraph)
    (nodelist : list ref) (i : nat) (firsts : list ref) (self : PlanningGraph)
  : result PlanningGraph :=
  match firsts with
  | [] => Ok self
  | n1 :: rest =>
      do self1 <- mutex_inner pair n1 (skipn (S i) nodelist) self;
      mutex_outer pair nodelist (S i) rest self1
  end.

(** PlanningGraph.update_a_mutex *)
Definition update_a_mutex (self : PlanningGraph) (nodeset : list ref)
  : result PlanningGraph :=
  let nodelist := nodeset in
  mutex_outer a_mutex_pair nodelist 0 (removelast nodelist) self.

(** PlanningGraph.update_s_mutex *)
Definition update_s_mutex (self : PlanningGraph) (nodeset : pyset)
  : result PlanningGraph :=
  let nodelist := nodeset in
  mutex_outer s_mutex_pair nodelist 0 (removelast nodelist) self.

(** [self.s_levels[level].add(PgNode_s(literal, flag))] *)
Definition s_level_add (self : PlanningGraph) (level : nat) (literal : Expr)
    (flag : bool) : result PlanningGraph :=
  match nth_error (s_levels self) level with
  | None => Raise IndexError self
  | Some s =>
      let '(n, h1) := new_PgNode_s literal flag (heap self) in
      Ok (with_s_levels (with_heap self h1)
            (firstn level (s_levels self) ++ pyset_add h1 s n
               :: skipn (S level) (s_levels self)))
  end.

(** The loops [for literal in self.fs.pos] and [for literal in self.fs.neg]. *)
Fixpoint s_level_add_all (self : PlanningGraph) (level : nat)
    (literals : list Expr) (flag : bool) : result PlanningGraph :=
  match literals with
  | [] => Ok self
  | literal :: rest =>
      do self1 <- s_level_add self level literal flag;
      s_level_add_all self1 level rest flag
  end.

(** The loop [while not leveled] of create_graph; [fuel] bounds the number of
    iterations the model runs. *)
Fixpoint create_graph_loop (fuel : nat) (level : Z) (self : PlanningGraph)
  : result PlanningGraph :=
  match fuel with
  | O => OutOfFuel self
  | S fuel' =>
      do self1 <- add_action_level self level;
      match py_getitem (a_levels self1) level with
      | None => Raise IndexError self1
      | Some a_level =>
          do self2 <- update_a_mutex self1 a_level;
          let level := level + 1 in
          do self3 <- add_literal_level self2 level;
          match py_getitem (s_levels self3) level with
          | None => Raise IndexError self3
          | Some s_level =>
              do self4 <- update_s_mutex self3 s_level;
              match py_getitem (s_levels self4) level,
                    py_getitem (s_levels self4) (level - 1) with
              | Some s_new, Some s_old =>
                  if pyset_eqb (heap self4) s_new s_old then Ok self4
                  else create_graph_loop fuel' level self4
              | _, _ => Raise IndexError self4
              end
          end
      end
  end.

(** PlanningGraph.create_graph *)
Definition create_graph (fuel : nat) (self : PlanningGraph)
  : result PlanningGraph :=
  if negb (Nat.eqb (List.length (s_levels self)) 0)
     || negb (Nat.eqb (List.length (a_levels self)) 0)
  then Raise Exception_ self
  else
    let level := 0%nat in
    let self0 := with_s_levels self (s_levels self ++ [[]]) in
    do self1 <- s_level_add_all self0 level (pos (fs self0)) true;
    do self2 <- s_level_add_all self1 level (neg (fs self1)) false;
    create_graph_loop fuel (Z.of_nat level) self2.

(** PlanningGraph.__init__, on a heap without nodes. *)
Definition PlanningGraph_init (fuel : nat) (problem : Problem) (state : string)
    (serial_planning : bool) : result PlanningGraph :=
  match decode_state state (state_map problem) with
  | inr e =>
      Raise e (mkPlanningGraph problem (mkFluentState [] []) serial_planning
                               [] [] [] empty_heap)
  | inl fs =>
      let all_actions :=
        actions_list problem ++ noop_actions (state_map problem) in
      create_graph fuel
        (mkPlanningGraph problem fs serial_planning all_actions [] []
                         empty_heap)
  end.

(** Local variables of h_levelsum that the loops update. *)
Record levelsum_vars := mkVars {
  level_sum : Z;
  goal_checked : list Expr;
  goal_check : bool
}.

(** The loop [for goal in goals] of h_levelsum; it ends at the first goal that
    the node matches and that is not yet in [goal_checked]. *)
Fixpoint h_levelsum_goals (h : Heap) (node : ref) (layer_index : Z)
    (goals : list Expr) (v : levelsum_vars) : levelsum_vars + exn :=
  match goals with
  | [] => inl v
  | goal :: rest =>
      match as_PgNode_s h node with
      | None => inr AttributeError
      | Some obj =>
          if Expr_eqb (symbol obj) goal then
            if negb (Expr_in goal (goal_checked v)) then
              inl (mkVars (level_sum v + layer_index)
                          (goal_checked v ++ [goal]) true)
            else h_levelsum_goals h node layer_index rest v
          else h_levelsum_goals h node layer_index rest v
      end
  end.

(** The loop [for node in current_level_states]; it ends once [goal_check]
    is set. *)
Fixpoint h_levelsum_nodes (h : Heap) (layer_index : Z) (goals : list Expr)
    (current_level_states : list ref) (v : levelsum_vars) : levelsum_vars + exn :=
  match current_level_states with
  | [] => inl v
  | node :: rest =>
      match h_levelsum_goals h node layer_index goals v with
      | inr e => inr e
      | inl v1 =>
          if goal_check v1 then inl v1
          else h_levelsum_nodes h layer_index goals rest v1
      end
  end.

(** The loop [for layer_index in range(num_of_layers)], run over the levels
    [self.s_levels[layer_index:]]. *)
Fixpoint h_levelsum_layers (h : Heap) (goals : list Expr) (layer_index : Z)
    (levels : list pyset) (v : levelsum_vars) : levelsum_vars + exn :=
  match levels with
  | [] => inl v
  | current_level_states :: rest =>
      let v0 := mkVars (level_sum v) (goal_checked v) false in
      match h_levelsum_nodes h layer_index goals current_level_states v0 with
      | inr e => inr e
      | inl v1 => h_levelsum_layers h goals (layer_index + 1) rest v1
      end
  end.

(** PlanningGraph.h_levelsum *)
Definition h_levelsum (self : PlanningGraph) : Z + exn :=
  let goals := goal (problem self) in
  match h_levelsum_layers (heap self) goals 0 (s_levels self)
                          (mkVars 0 [] false) with
  | inr e => inr e
  | inl v => inl (level_sum v)
  end.

(* ================================================================== *)
(** ** Sample problems *)

Module Samples.

(** Two fluents, both true, no domain action; both fluents are goals. *)
Definition two_goals : Problem := mkProblem ["P"; "Q"] [] ["P"; "Q"].

Definition two_goals_graph : PlanningGraph :=
  state_of (PlanningGraph_init 5 two_goals "TT" true).

(** The same graph when create_graph enters its loop: the first literal
    level only. *)
Definition two_goals_start : PlanningGraph :=
  state_of (PlanningGraph_init 0 two_goals "TT" true).

(** Two different actions with one name and one argument list, and a third
    action; P is true and Q is false. *)
Definition go1 : Action := mkAction "Go" ["A"] [] [] [] ["P"].
Definition go2 : Action := mkAction "Go" ["A"] [] [] ["Q"] [].
Definition stay : Action := mkAction "Stay" ["A"] [] [] ["P"] [].

Definition same_name : Problem := mkProblem ["P"; "Q"] [go1; go2; stay] [].

Definition same_name_graph : PlanningGraph :=
  state_of (PlanningGraph_init 3 same_name "TF" true).

(** One fluent, true, and an action that deletes it; the graph after one
    iteration of the loop has the literals P and not-P at level 1. *)
Definition del : Action := mkAction "Del" ["P"] ["P"] [] [] ["P"].

Definition toggle : Problem := mkProblem ["P"] [del] ["P"].

Definition toggle_level1 : PlanningGraph :=
  state_of (PlanningGraph_init 1 toggle "T" true).

End Samples.

(* ================================================================== *)
(** ** Reference semantics of the claims *)

(** The number of pairs of the cross-product of two parent sets whose first
    component is mutex with the second. *)
Definition mutex_pair_count (h : Heap) (ps1 ps2 : pyset) : nat :=
  List.length
    (filter (fun p => is_mutex h (fst p) (snd p)) (list_prod ps1 ps2)).

(** A literal level contains a literal node with the given symbol. *)
Definition level_has_symbol (h : Heap) (level : pyset) (g : Expr) : bool :=
  existsb
    (fun node =>
       match as_PgNode_s h node with
       | Some obj => Expr_eqb (symbol obj) g
       | None => false
       end)
    level.

(** Index of the first level, counted from [i], that has the symbol. *)
Fixpoint first_level_from (h : Heap) (levels : list pyset) (i : Z) (g : Expr)
  : option Z :=
  match levels with
  | [] => None
  | level :: rest =>
      if level_has_symbol h level g then Some i
      else first_level_from h rest (i + 1) g
  end.

(** The level sum as the documentation of h_levelsum words it: the sum of the
    level costs of the individual (distinct) goals. *)
Definition level_cost_sum (self : PlanningGraph) : Z :=
  fold_right
    (fun g acc =>
       match first_level_from (heap self) (s_levels self) 0 g with
       | Some i => i + acc
       | None => acc
       end)
    0 (nodup string_dec (goal (problem self))).

(* ================================================================== *)
(** ** Vocabulary of the proofs *)

(** What [__eq__] and [__hash__] look at: the identity of a node as a value. *)
Inductive node_key :=
| KeyS (symbol : Expr) (is_pos : bool)
| KeyA (is_persistent : bool) (name : string) (args : list Expr).

Definition key (h : Heap) (r : ref) : node_key :=
  match r with
  | RefS a => KeyS (symbol (s_store h a)) (is_pos (s_store h a))
  | RefA a =>
      KeyA (is_persistent (a_store h a)) (name (action (a_store h a)))
           (args (action (a_store h a)))
  end.

Definition keys (h : Heap) (s : list ref) : list node_key := map (key h) s.

(** The reference points to an allocated object. *)
Definition valid (h : Heap) (r : ref) : Prop :=
  match r with
  | RefS a => (a < s_next h)%nat
  | RefA a => (a < a_next h)%nat
  end.

(** The list is a set for [__eq__]: no two of its nodes are equal. *)
Definition is_pyset (h : Heap) (s : list ref) : Prop := NoDup (keys h s).

(** The attributes of an object that its constructor fixes. *)
Inductive node_static :=
| StaticS (symbol : Expr) (is_pos : bool)
| StaticA (action : Action) (prenodes effnodes : pyset) (is_persistent : bool).

Definition static (h : Heap) (r : ref) : node_static :=
  match r with
  | RefS a => StaticS (symbol (s_store h a)) (is_pos (s_store h a))
  | RefA a =>
      StaticA (action (a_store h a)) (prenodes (a_store h a))
              (effnodes (a_store h a)) (is_persistent (a_store h a))
  end.

(** [h'] is [h] after allocations and additions to instance sets: allocated
    objects stay allocated, keep the attributes fixed by their constructor,
    and their three sets only grow. *)
Record heap_le (h h' : Heap) : Prop := mkHeapLe {
  le_valid : forall r, valid h r -> valid h' r;
  le_static : forall r, valid h r -> static h' r = static h r;
  le_parents : forall r, valid h r ->
      incl (parents (base h r)) (parents (base h' r));
  le_children : forall r, valid h r ->
      incl (children (base h r)) (children (base h' r));
  le_mutex : forall r, valid h r ->
      incl (mutex (base h r)) (mutex (base h' r))
}.

(** The heap has no dangling reference, and no object beyond the allocated
    ones has been written. *)
Record wf_heap (h : Heap) : Prop := mkWfHeap {
  wf_parents : forall r, valid h r -> Forall (valid h) (parents (base h r));
  wf_children : forall r, valid h r -> Forall (valid h) (children (base h r));
  wf_mutex : forall r, valid h r -> Forall (valid h) (mutex (base h r));
  wf_prenodes : forall a, (a < a_next h)%nat ->
      Forall (valid h) (prenodes (a_store h a));
  wf_effnodes : forall a, (a < a_next h)%nat ->
      Forall (valid h) (effnodes (a_store h a));
  wf_fresh : forall r, ~ valid h r -> base h r = PgNode_init
}.

(** The literals of an action as node keys. *)
Definition literal_keys (positive negative : list Expr) : list node_key :=
  map (fun p => KeyS p true) positive ++ map (fun p => KeyS p false) negative.

Definition pre_keys (act : Action) : list node_key :=
  literal_keys (precond_pos act) (precond_neg act).

Definition eff_keys (act : Action) : list node_key :=
  literal_keys (effect_add act) (effect_rem act).

Definition key_eq_dec (k1 k2 : node_key) : {k1 = k2} + {k1 <> k2}.
Proof.
  decide equality; try apply bool_dec; try apply string_dec;
    apply (list_eq_dec string_dec).
Defined.

Definition key_in (k : node_key) (l : list node_key) : bool :=
  if in_dec key_eq_dec k l then true else false.

(** The action can be taken where the literals [K] hold: each of its
    preconditions is one of them. *)
Definition applicable (K : list node_key) (act : Action) : bool :=
  forallb (fun k => key_in k K) (pre_keys act).

(** The literals of the level that follows the literals [K]. *)
Definition next_keys (actions : list Action) (K : list node_key)
  : list node_key :=
  flat_map eff_keys (filter (applicable K) actions).

(** What PgNode_a.__init__ leaves in the heap [h'] for the action [act],
    when called in [h]: a new object at address [a] whose precondition and
    effect nodes stand for the literals of the action. *)
Record action_node_of (h h' : Heap) (act : Action) (a : nat) : Prop :=
  mkActionNodeOf {
  an_fresh : ~ valid h (RefA a);
  an_valid : valid h' (RefA a);
  an_action : action (a_store h' a) = act;
  an_pre_keys : forall k,
      In k (keys h' (prenodes (a_store h' a))) <-> In k (pre_keys act);
  an_eff_keys : forall k,
      In k (keys h' (effnodes (a_store h' a))) <-> In k (eff_keys act);
  an_eff_set : is_pyset h' (effnodes (a_store h' a));
  an_eff_fresh :
    Forall (fun e => type_of e = PgNode_s_t /\ ~ valid h e /\ valid h' e)
           (effnodes (a_store h' a))
}.

(** What add_action_level leaves in the heap [h'] for an action it admits
    at the literal level [literals]: its node, with the whole level as
    parents and itself among the children of each literal of the level. *)
Record admitted_node (h h' : Heap) (literals : pyset) (act : Action) (a : nat)
  : Prop := mkAdmittedNode {
  ad_node : action_node_of h h' act a;
  ad_parents : parents (base h' (RefA a)) = pyset_of_list h literals;
  ad_children : forall l, In l literals ->
      pyset_mem h' (RefA a) (children (base h' l)) = true
}.

(** The test of add_action_level on a candidate action whose node is built
    in the heap [h]: the precondition nodes are a subset of the level. *)
Definition candidate_admitted (h : Heap) (literals : pyset) (act : Action)
  : bool :=
  let '(a, h1) := new_PgNode_a act h in
  issubset h1 (prenodes (a_store h1 a)) literals.

(** The loops of update_a_mutex and update_s_mutex, by recursion on the node
    list: every node with every later one. *)
Fixpoint mutex_pairs (pair : PlanningGraph -> ref -> ref -> result PlanningGraph)
    (nodelist : list ref) (self : PlanningGraph) : result PlanningGraph :=
  match nodelist with
  | [] => Ok self
  | n1 :: rest =>
      do self1 <- mutex_inner pair n1 rest self;
      mutex_pairs pair rest self1
  end.

(** The heap after the two additions of mutexify. *)
Definition mutexified (h : Heap) (node1 node2 : ref) : Heap :=
  mutex_add (mutex_add h node1 node2) node2 node1.

(** Each node is marked mutex with the other. *)
Definition marked_mutex (h : Heap) (n1 n2 : ref) : Prop :=
  is_mutex h n1 n2 = true /\ is_mutex h n2 n1 = true.

(** Some pair of nodes of the level is marked mutex. *)
Definition any_mutex (h : Heap) (level : pyset) : bool :=
  existsb (fun p1 => existsb (fun p2 => is_mutex h p1 p2) level) level.

(** [h'] is [h] after additions to parents and children sets only. *)
Record links_only (h h' : Heap) : Prop := mkLinksOnly {
  lo_static : forall r, static h' r = static h r;
  lo_valid : forall r, valid h' r <-> valid h r;
  lo_mutex : forall r, mutex (base h' r) = mutex (base h r);
  lo_le : heap_le h h'
}.

(** The effect nodes of the action nodes of a level, in the order in which
    add_literal_level collects them. *)
Definition level_effnodes (h : Heap) (actions : list ref) : list ref :=
  flat_map
    (fun act =>
       match as_PgNode_a h act with
       | Some obj => effnodes obj
       | None => []
       end)
    actions.

(** The mutex set of [r] is mirrored: [r] is in the mutex set of each of its
    elements. *)
Definition sym_at (h : Heap) (r : ref) : Prop :=
  forall x, In x (mutex (base h r)) -> In r (mutex (base h x)).

(** No two actions have the same name and arguments. *)
Definition distinct_actions (actions : list Action) : Prop :=
  NoDup (map (fun act => (name act, args act)) actions).

(** A level of the graph: allocated nodes of one class whose mutex sets stay
    inside the level. *)
Record level_ok (h : Heap) (T : node_type) (L : list ref) : Prop := mkLevelOk {
  lv_valid : Forall (valid h) L;
  lv_type : Forall (fun r => type_of r = T) L;
  lv_local : forall r, In r L -> incl (mutex (base h r)) L
}.

(** The invariant of the loop of create_graph, for the graph at the head of
    an iteration; [U] bounds the literals that can ever appear. *)
Record graph_inv (U : list node_key) (self : PlanningGraph) : Prop :=
  mkGraphInv {
  gi_wf : wf_heap (heap self);
  gi_len : List.length (s_levels self) = S (List.length (a_levels self));
  gi_s_ok : Forall (level_ok (heap self) PgNode_s_t) (s_levels self);
  gi_s_set : Forall (is_pyset (heap self)) (s_levels self);
  gi_a_ok : Forall (level_ok (heap self) PgNode_a_t) (a_levels self);
  gi_a_set : distinct_actions (all_actions self) ->
      Forall (is_pyset (heap self)) (a_levels self);
  gi_sym_s : forall r, type_of r = PgNode_s_t -> sym_at (heap self) r;
  gi_sym_a : distinct_actions (all_actions self) ->
      forall r, type_of r = PgNode_a_t -> sym_at (heap self) r;
  gi_chain : forall i L1 L2,
      nth_error (s_levels self) i = Some L1 ->
      nth_error (s_levels self) (S i) = Some L2 ->
      incl (keys (heap self) L1) (keys (heap self) L2);
  gi_last : forall L,
      nth_error (s_levels self) (List.length (a_levels self)) = Some L ->
      incl (keys (heap self) L)
           (next_keys (all_actions self) (keys (heap self) L))
      /\ incl (keys (heap self) L) U;
  gi_bound : incl (flat_map eff_keys (all_actions self)) U
}.

(** The invariant of the loops of update_a_mutex and update_s_mutex on the
    level [L], started in the heap [h0]: only the mutex sets of the nodes of
    the level change, they stay inside the level, and, when the level is a
    set, they stay mirrored. *)
Record mutex_level_inv (h0 : Heap) (L : list ref) (h : Heap) : Prop :=
  mkMutexLevelInv {
  mi_static : forall r, static h r = static h0 r;
  mi_valid : forall r, valid h r <-> valid h0 r;
  mi_parents : forall r, parents (base h r) = parents (base h0 r);
  mi_children : forall r, children (base h r) = children (base h0 r);
  mi_grow : forall r, incl (mutex (base h0 r)) (mutex (base h r));
  mi_frame : forall r, ~ In r L -> mutex (base h r) = mutex (base h0 r);
  mi_local : forall r, In r L -> incl (mutex (base h r)) L;
  mi_wf : wf_heap h;
  mi_sym : is_pyset h0 L -> forall r, In r L -> sym_at h r
}.

(** One iteration of the loop of create_graph takes [self], whose last
    literal level is [s_old], to [self'], whose last literal level is
    [s_new]. *)
Record loop_step (U : list node_key) (self self' : PlanningGraph)
    (s_old s_new : pyset) : Prop := mkLoopStep {
  ls_inv : graph_inv U self';
  ls_old : nth_error (s_levels self) (List.length (a_levels self)) = Some s_old;
  ls_s_levels : s_levels self' = s_levels self ++ [s_new];
  ls_a_len : List.length (a_levels self') = S (List.length (a_levels self));
  ls_actions : all_actions self' = all_actions self;
  ls_problem : problem self' = problem self;
  ls_le : heap_le (heap self) (heap self');
  ls_keys : forall k,
      In k (keys (heap self') s_new)
      <-> In k (next_keys (all_actions self) (keys (heap self) s_old));
  ls_run : forall fuel,
      create_graph_loop (S fuel) (Z.of_nat (List.length (a_levels self))) self
      = if pyset_eqb (heap self') s_new s_old then Ok self'
        else create_graph_loop fuel (Z.of_nat (List.length (a_levels self')))
                               self'
}.

(** The graph has leveled off: its last two literal levels are equal sets. *)
Definition leveled (self : PlanningGraph) : Prop :=
  exists s_old s_new,
    a_levels self <> []
    /\ nth_error (s_levels self) (List.length (a_levels self)) = Some s_new
    /\ nth_error (s_levels self) (List.length (a_levels self) - 1) = Some s_old
    /\ pyset_eqb (heap self) s_new s_old = true.

(** The literals that can appear in a graph built for the state [fs]. *)
Definition universe (fs : FluentState) (actions : list Action)
  : list node_key :=
  literal_keys (pos fs) (neg fs) ++ flat_map eff_keys actions.

(** The combined action list of the constructor. *)
Definition combined_actions (problem : Problem) : list Action :=
  actions_list problem ++ noop_actions (state_map problem).


(** The same for literal nodes only. *)
Definition literal_mutex_symmetric (self : PlanningGraph) : Prop :=
  (forall r1 r2, type_of r1 = PgNode_s_t -> type_of r2 = PgNode_s_t ->
      (In r1 (mutex (base (heap self) r2))
       <-> In r2 (mutex (base (heap self) r1))))
  /\ (forall L a b, In L (s_levels self) -> In a L -> In b L ->
        is_mutex (heap self) a b = is_mutex (heap self) b a).

(** The condition of update_a_mutex on a pair of nodes: some of the four
    tests succeeds. *)
Definition a_mutex_test (self : PlanningGraph) (n1 n2 : ref) : bool :=
  match as_PgNode_a (heap self) n1, as_PgNode_a (heap self) n2 with
  | Some node_a1, Some node_a2 =>
      serialize_actions self node_a1 node_a2
      || inconsistent_effects_mutex node_a1 node_a2
      || interference_mutex node_a1 node_a2
      || competing_needs_mutex self node_a1 node_a2
  | _, _ => false
  end.

(** The condition of update_s_mutex on a pair of nodes. *)
Definition s_mutex_test (self : PlanningGraph) (n1 n2 : ref) : bool :=
  match as_PgNode_s (heap self) n1, as_PgNode_s (heap self) n2 with
  | Some node_s1, Some node_s2 =>
      negation_mutex node_s1 node_s2
      || inconsistent_support_mutex self node_s1 node_s2
  | _, _ => false
  end.

(** What the pair loops leave alone, from the heap [h0] in which they start
    on the node list [L] to the heap [h]: the attributes the constructors
    fix, the parents and children sets, and the mutex sets of the nodes that
    are not in the list; the other mutex sets only grow. *)
Record mutex_frame (h0 : Heap) (L : list ref) (h : Heap) : Prop :=
  mkMutexFrame {
  mf_static : forall r, static h r = static h0 r;
  mf_parents : forall r, parents (base h r) = parents (base h0 r);
  mf_children : forall r, children (base h r) = children (base h0 r);
  mf_grow : forall r, incl (mutex (base h0 r)) (mutex (base h r));
  mf_frame : forall r, ~ In r L -> mutex (base h r) = mutex (base h0 r)
}.

(** Each element of a mutex set of [h] was there in [h0], or is due to a
    pair of nodes of [L] on which [test] succeeds in one of the two orders. *)
Definition marks_tested (test : ref -> ref -> bool) (h0 : Heap) (L : list ref)
    (h : Heap) : Prop :=
  forall x y, In y (mutex (base h x)) ->
    In y (mutex (base h0 x))
    \/ (In x L /\ In y L /\ (test x y = true \/ test y x = true)).

(** The part of the two conditions that reads only what the constructors of
    the nodes fix: for actions serialization, inconsistent effects and
    interference, for literals negation. *)
Definition a_static_test (self : PlanningGraph) (n1 n2 : ref) : bool :=
  match as_PgNode_a (heap self) n1, as_PgNode_a (heap self) n2 with
  | Some node_a1, Some node_a2 =>
      serialize_actions self node_a1 node_a2
      || inconsistent_effects_mutex node_a1 node_a2
      || interference_mutex node_a1 node_a2
  | _, _ => false
  end.

Definition s_static_test (self : PlanningGraph) (n1 n2 : ref) : bool :=
  match as_PgNode_s (heap self) n1, as_PgNode_s (heap self) n2 with
  | Some node_s1, Some node_s2 => negation_mutex node_s1 node_s2
  | _, _ => false
  end.

Module MoreSamples.


End MoreSamples.

Module BuiltSamples.

(** The graph the constructor returns for [Samples.toggle]: the literal
    levels [P], [not-P, P], [not-P, P]. *)
Definition toggle_graph : PlanningGraph :=
  state_of (PlanningGraph_init 2 Samples.toggle "T" true).

End BuiltSamples.

(** No effect node belongs to two of the action nodes at the addresses
    [addrs]. *)
Definition effnodes_apart (h : Heap) (addrs : list nat) : Prop :=
  forall i j a1 a2 e, (i < j)%nat ->
    nth_error addrs i = Some a1 -> nth_error addrs j = Some a2 ->
    In e (effnodes (a_store h a1)) -> ~ In e (effnodes (a_store h a2)).

(** The graph after add_action_level has appended the nodes at the addresses
    [addrs], and after add_literal_level has appended the level [s_new]. *)
Definition after_actions (self : PlanningGraph) (h1 : Heap) (addrs : list nat)
  : PlanningGraph :=
  with_a_levels (with_heap self h1) (a_levels self ++ [map RefA addrs]).

Definition after_literals (self1 : PlanningGraph) (h3 : Heap) (s_new : pyset)
  : PlanningGraph :=
  with_s_levels (with_heap self1 h3) (s_levels self1 ++ [s_new]).

(** The four calls of one iteration of the loop of create_graph, from the
    graph [self] to the graph [self4]: [h1] is the heap after
    add_action_level, [h2] after update_a_mutex, [h3] after
    add_literal_level. *)
Record loop_stages (self self4 : PlanningGraph) (s_old s_new : pyset)
    (addrs : list nat) (h1 h2 h3 : Heap) : Prop := mkLoopStages {
  st_admitted :
    Forall2 (admitted_node (heap self) h1 s_old)
            (filter (applicable (keys (heap self) s_old)) (all_actions self))
            addrs;
  st_a_mutex :
    update_a_mutex (after_actions self h1 addrs) (map RefA addrs)
    = Ok (with_heap (after_actions self h1 addrs) h2);
  st_links : links_only h2 h3;
  st_s_new : s_new = pyset_of_list h3 (level_effnodes h2 (map RefA addrs));
  st_s_mutex :
    update_s_mutex (after_literals (after_actions self h1 addrs) h3 s_new)
                   s_new
    = Ok self4;
  st_self4 :
    self4 = with_heap (after_literals (after_actions self h1 addrs) h3 s_new)
                      (heap self4);
  st_wf1 : wf_heap h1;
  st_wf2 : wf_heap h2;
  st_wf3 : wf_heap h3;
  st_le1 : heap_le (heap self) h1;
  st_le2 : heap_le h1 h2;
  st_le4 : heap_le h3 (heap self4);
  st_apart : effnodes_apart h1 addrs;
  st_parents1 : forall r, valid (heap self) r \/ type_of r = PgNode_s_t ->
      parents (base h1 r) = parents (base (heap self) r);
  st_parents2 : forall r, parents (base h2 r) = parents (base h1 r);
  st_static2 : forall r, static h2 r = static h1 r;
  st_parents3 : forall r,
      ~ In r (level_effnodes h2 (map RefA addrs)) ->
      parents (base h3 r) = parents (base h2 r);
  st_owner3 : forall a e,
      In a addrs -> In e (effnodes (a_store h2 a)) ->
      parents (base h2 e) = [] -> parents (base h3 e) = [RefA a];
  st_parents4 : forall r, parents (base (heap self4) r) = parents (base h3 r)
}.

(** Consecutive literal levels grow strictly, as far as the position [b]. *)
Definition growing_upto (b : nat) (self : PlanningGraph) : Prop :=
  forall i L1 L2, (S i < b)%nat ->
    nth_error (s_levels self) i = Some L1 ->
    nth_error (s_levels self) (S i) = Some L2 ->
    (List.length L1 < List.length L2)%nat.

(** What the levels of a graph under construction hold, when the first
    literal level was made of the literals [K0]. *)
Record built_levels (K0 : list node_key) (self : PlanningGraph) : Prop :=
  mkBuiltLevels {
  bl_first : exists s0,
      nth_error (s_levels self) 0 = Some s0
      /\ forall k, In k (keys (heap self) s0) <-> In k K0;
  bl_next : forall i L1 L2,
      nth_error (s_levels self) i = Some L1 ->
      nth_error (s_levels self) (S i) = Some L2 ->
      forall k, In k (keys (heap self) L2)
                <-> In k (next_keys (all_actions self) (keys (heap self) L1));
  bl_actions : forall i A L,
      nth_error (a_levels self) i = Some A ->
      nth_error (s_levels self) i = Some L ->
      exists addrs,
        A = map RefA addrs
        /\ map (fun a => action (a_store (heap self) a)) addrs
           = filter (applicable (keys (heap self) L)) (all_actions self);
  bl_negation : forall i L x y,
      nth_error (s_levels self) (S i) = Some L ->
      In x L -> In y L -> s_static_test self x y = true ->
      marked_mutex (heap self) x y;
  bl_a_static : forall i A x y,
      nth_error (a_levels self) i = Some A ->
      In x A -> In y A -> x <> y -> a_static_test self x y = true ->
      marked_mutex (heap self) x y;
  bl_parents_a : forall i A L a,
      nth_error (a_levels self) i = Some A ->
      nth_error (s_levels self) i = Some L ->
      In (RefA a) A -> parents (base (heap self) (RefA a)) = L;
  bl_parents_s : forall i A L e,
      nth_error (a_levels self) i = Some A ->
      nth_error (s_levels self) (S i) = Some L ->
      In e L ->
      exists a, In (RefA a) A
                /\ In e (effnodes (a_store (heap self) a))
                /\ parents (base (heap self) e) = [RefA a]
}.

(* ================================================================== *)
(** * Properties *)

(** ** Expressions, keys and sets *)

Lemma Expr_eqb_eq (a b : Expr) : Expr_eqb a b = true <-> a = b.
Proof. apply String.eqb_eq. Qed.

Lemma Expr_eqb_refl (a : Expr) : Expr_eqb a a = true.
Proof. apply String.eqb_refl. Qed.

Lemma list_eqb_Expr_eq (l1 l2 : list Expr) :
  list_eqb Expr_eqb l1 l2 = true <-> l1 = l2.
Proof.
  revert l2; induction l1 as [|x l1 IH]; intros [|y l2]; simpl;
    try (split; [discriminate | discriminate]); try tauto.
  rewrite andb_true_iff, Expr_eqb_eq, IH.
  split; [intros [-> ->]; reflexivity | intros E; inversion E; auto].
Qed.

Lemma node_eqb_key (h : Heap) (r1 r2 : ref) :
  node_eqb h r1 r2 = true <-> key h r1 = key h r2.
Proof.
  destruct r1 as [a|a], r2 as [b|b]; simpl;
    try (split; [discriminate | discriminate]).
  - rewrite andb_true_iff, Bool.eqb_true_iff, Expr_eqb_eq.
    split; [intros [-> ->]; reflexivity | intros E; inversion E; auto].
  - rewrite !andb_true_iff, Bool.eqb_true_iff, String.eqb_eq, list_eqb_Expr_eq.
    split; [intros [[-> ->] ->]; reflexivity | intros E; inversion E; auto].
Qed.

Lemma pyset_mem_key (h : Heap) (x : ref) (s : pyset) :
  pyset_mem h x s = true <-> In (key h x) (keys h s).
Proof.
  unfold pyset_mem, keys. rewrite existsb_exists, in_map_iff.
  split; intros [y [H1 H2]]; exists y.
  - apply node_eqb_key in H2. auto.
  - split; [tauto|]. apply node_eqb_key. tauto.
Qed.

Lemma pyset_mem_In (h : Heap) (x : ref) (s : pyset) :
  In x s -> pyset_mem h x s = true.
Proof. intros H. apply pyset_mem_key. apply in_map. exact H. Qed.

Lemma issubset_keys (h : Heap) (s1 s2 : pyset) :
  issubset h s1 s2 = true <-> incl (keys h s1) (keys h s2).
Proof.
  unfold issubset. rewrite forallb_forall. split.
  - intros H k Hk. apply in_map_iff in Hk as [x [<- Hx]].
    apply pyset_mem_key. auto.
  - intros H x Hx. apply pyset_mem_key. apply H. apply in_map. exact Hx.
Qed.

Lemma keys_pyset_add (h : Heap) (s : pyset) (x : ref) :
  forall k, In k (keys h (pyset_add h s x)) <-> In k (keys h s) \/ k = key h x.
Proof.
  intros k. unfold pyset_add. destruct (pyset_mem h x s) eqn:E.
  - apply pyset_mem_key in E. split; [auto|]. intros [H| ->]; auto.
  - unfold keys. rewrite map_app, in_app_iff. simpl. intuition.
Qed.

Lemma is_pyset_add (h : Heap) (s : pyset) (x : ref) :
  is_pyset h s -> is_pyset h (pyset_add h s x).
Proof.
  unfold is_pyset, pyset_add. intros H. destruct (pyset_mem h x s) eqn:E; auto.
  unfold keys. rewrite map_app. simpl.
  apply NoDup_app; [exact H | repeat constructor; auto | ].
  intros k Hk [<-|[]].
  apply pyset_mem_key in Hk. congruence.
Qed.

(** ** Updates of the instance sets *)

Lemma upd_same {A : Type} (f : nat -> A) (a : nat) (v : A) : upd f a v a = v.
Proof. unfold upd. rewrite Nat.eqb_refl. reflexivity. Qed.

Lemma upd_other {A : Type} (f : nat -> A) (a b : nat) (v : A) :
  b <> a -> upd f a v b = f b.
Proof. unfold upd. intros H. apply Nat.eqb_neq in H. rewrite H. reflexivity. Qed.

Lemma ref_eq_dec (r1 r2 : ref) : {r1 = r2} + {r1 <> r2}.
Proof. decide equality; apply Nat.eq_dec. Defined.

Lemma key_set_base (h : Heap) (r : ref) (b : PgNode) (x : ref) :
  key (set_base h r b) x = key h x.
Proof.
  destruct r as [a|a], x as [c|c]; simpl; try reflexivity;
    unfold upd; destruct (Nat.eqb c a) eqn:E; try reflexivity;
    apply Nat.eqb_eq in E; subst; reflexivity.
Qed.

Lemma base_set_base_same (h : Heap) (r : ref) (b : PgNode) :
  base (set_base h r b) r = b.
Proof. destruct r; simpl; rewrite upd_same; reflexivity. Qed.

Lemma base_set_base_other (h : Heap) (r x : ref) (b : PgNode) :
  x <> r -> base (set_base h r b) x = base h x.
Proof.
  intros H. destruct r as [a|a], x as [c|c]; simpl; try reflexivity;
    rewrite upd_other; try reflexivity; congruence.
Qed.

Lemma key_static (h h' : Heap) (r : ref) :
  static h' r = static h r -> key h' r = key h r.
Proof.
  destruct r; simpl; intros E; inversion E; congruence.
Qed.

Lemma static_set_base (h : Heap) (r : ref) (b : PgNode) (x : ref) :
  static (set_base h r b) x = static h x.
Proof.
  destruct r as [a|a], x as [c|c]; simpl; try reflexivity;
    unfold upd; destruct (Nat.eqb c a) eqn:E; try reflexivity;
    apply Nat.eqb_eq in E; subst; reflexivity.
Qed.

Lemma valid_set_base (h : Heap) (r : ref) (b : PgNode) (x : ref) :
  valid (set_base h r b) x <-> valid h x.
Proof. destruct r, x; simpl; tauto. Qed.

Lemma heap_le_refl (h : Heap) : heap_le h h.
Proof. constructor; auto using incl_refl. Qed.

Lemma heap_le_trans (h1 h2 h3 : Heap) :
  heap_le h1 h2 -> heap_le h2 h3 -> heap_le h1 h3.
Proof.
  intros L1 L2. destruct L1, L2. constructor; intros r V.
  - auto.
  - rewrite le_static1, le_static0; auto.
  - eapply incl_tran; eauto.
  - eapply incl_tran; eauto.
  - eapply incl_tran; eauto.
Qed.

Lemma heap_le_key (h h' : Heap) (r : ref) :
  heap_le h h' -> valid h r -> key h' r = key h r.
Proof. intros L V. apply key_static. apply L. exact V. Qed.

Lemma heap_le_keys (h h' : Heap) (s : list ref) :
  heap_le h h' -> Forall (valid h) s -> keys h' s = keys h s.
Proof.
  intros L H. unfold keys. apply map_ext_in. intros r Hr.
  apply heap_le_key; auto. rewrite Forall_forall in H. auto.
Qed.

Lemma heap_le_Forall_valid (h h' : Heap) (s : list ref) :
  heap_le h h' -> Forall (valid h) s -> Forall (valid h') s.
Proof.
  intros L H. eapply Forall_impl; [|exact H]. intros r. apply L.
Qed.

Lemma key_parents_add (h : Heap) (n x r : ref) :
  key (parents_add h n x) r = key h r.
Proof. apply key_set_base. Qed.

Lemma key_children_add (h : Heap) (n x r : ref) :
  key (children_add h n x) r = key h r.
Proof. apply key_set_base. Qed.

Lemma key_mutex_add (h : Heap) (n x r : ref) :
  key (mutex_add h n x) r = key h r.
Proof. apply key_set_base. Qed.

(** Membership and the other set operations read keys only. *)
Lemma pyset_mem_ext (h h' : Heap) (x : ref) (s : pyset) :
  (forall r, key h' r = key h r) -> pyset_mem h' x s = pyset_mem h x s.
Proof.
  intros K. apply eq_true_iff_eq. rewrite !pyset_mem_key.
  unfold keys. rewrite K. erewrite map_ext; [reflexivity|]. auto.
Qed.

Lemma pyset_add_ext (h h' : Heap) (s : pyset) (x : ref) :
  (forall r, key h' r = key h r) -> pyset_add h' s x = pyset_add h s x.
Proof. intros K. unfold pyset_add. rewrite (pyset_mem_ext h h'); auto. Qed.

Lemma parents_parents_add (h : Heap) (n x r : ref) :
  parents (base (parents_add h n x) r) =
  if ref_eq_dec r n then pyset_add h (parents (base h n)) x
  else parents (base h r).
Proof.
  unfold parents_add. destruct (ref_eq_dec r n) as [->|N].
  - rewrite base_set_base_same. reflexivity.
  - rewrite base_set_base_other; auto.
Qed.

Lemma children_parents_add (h : Heap) (n x r : ref) :
  children (base (parents_add h n x) r) = children (base h r).
Proof.
  unfold parents_add. destruct (ref_eq_dec r n) as [->|N].
  - rewrite base_set_base_same. reflexivity.
  - rewrite base_set_base_other; auto.
Qed.

Lemma mutex_parents_add (h : Heap) (n x r : ref) :
  mutex (base (parents_add h n x) r) = mutex (base h r).
Proof.
  unfold parents_add. destruct (ref_eq_dec r n) as [->|N].
  - rewrite base_set_base_same. reflexivity.
  - rewrite base_set_base_other; auto.
Qed.

Lemma parents_children_add (h : Heap) (n x r : ref) :
  parents (base (children_add h n x) r) = parents (base h r).
Proof.
  unfold children_add. destruct (ref_eq_dec r n) as [->|N].
  - rewrite base_set_base_same. reflexivity.
  - rewrite base_set_base_other; auto.
Qed.

Lemma children_children_add (h : Heap) (n x r : ref) :
  children (base (children_add h n x) r) =
  if ref_eq_dec r n then pyset_add h (children (base h n)) x
  else children (base h r).
Proof.
  unfold children_add. destruct (ref_eq_dec r n) as [->|N].
  - rewrite base_set_base_same. reflexivity.
  - rewrite base_set_base_other; auto.
Qed.

Lemma mutex_children_add (h : Heap) (n x r : ref) :
  mutex (base (children_add h n x) r) = mutex (base h r).
Proof.
  unfold children_add. destruct (ref_eq_dec r n) as [->|N].
  - rewrite base_set_base_same. reflexivity.
  - rewrite base_set_base_other; auto.
Qed.

Lemma parents_mutex_add (h : Heap) (n x r : ref) :
  parents (base (mutex_add h n x) r) = parents (base h r).
Proof.
  unfold mutex_add. destruct (ref_eq_dec r n) as [->|N].
  - rewrite base_set_base_same. reflexivity.
  - rewrite base_set_base_other; auto.
Qed.

Lemma children_mutex_add (h : Heap) (n x r : ref) :
  children (base (mutex_add h n x) r) = children (base h r).
Proof.
  unfold mutex_add. destruct (ref_eq_dec r n) as [->|N].
  - rewrite base_set_base_same. reflexivity.
  - rewrite base_set_base_other; auto.
Qed.

Lemma mutex_mutex_add (h : Heap) (n x r : ref) :
  mutex (base (mutex_add h n x) r) =
  if ref_eq_dec r n then pyset_add h (mutex (base h n)) x
  else mutex (base h r).
Proof.
  unfold mutex_add. destruct (ref_eq_dec r n) as [->|N].
  - rewrite base_set_base_same. reflexivity.
  - rewrite base_set_base_other; auto.
Qed.

(** ** mutexify *)

(** C8. mutexify on two nodes of different classes raises TypeError, and the
    heap it leaves is the heap it found: no mutex set has changed. *)
Theorem mutexify_type_error (h : Heap) (node1 node2 : ref) :
  type_of node1 <> type_of node2 ->
  mutexify node1 node2 h = Raise TypeError h
  /\ mutex (base (state_of (mutexify node1 node2 h)) node1) = mutex (base h node1)
  /\ mutex (base (state_of (mutexify node1 node2 h)) node2) = mutex (base h node2).
Proof.
  intros T. unfold mutexify.
  destruct node1, node2; simpl in *; try congruence; auto.
Qed.

Lemma mutexify_type_error_witness :
  mutexify (RefS 0) (RefA 0) empty_heap = Raise TypeError empty_heap
  /\ mutex (base (state_of (mutexify (RefS 0) (RefA 0) empty_heap)) (RefS 0))
     = mutex (base empty_heap (RefS 0))
  /\ mutex (base (state_of (mutexify (RefS 0) (RefA 0) empty_heap)) (RefA 0))
     = mutex (base empty_heap (RefA 0)).
Proof. apply mutexify_type_error. simpl. discriminate. Defined.

(** ** create_graph on a graph that has levels *)

(** C9. create_graph on a graph whose list of literal levels or of action
    levels is not empty raises at once: whatever the loop budget, the result
    is the exception and the graph is the one it was called on. *)
Theorem create_graph_rebuild_raises (fuel : nat) (self : PlanningGraph) :
  s_levels self <> [] \/ a_levels self <> [] ->
  create_graph fuel self = Raise Exception_ self.
Proof.
  intros H. unfold create_graph.
  destruct (s_levels self) as [|s ss]; simpl.
  - destruct (a_levels self) as [|a aa]; simpl; [|reflexivity].
    destruct H; congruence.
  - reflexivity.
Qed.

Lemma create_graph_rebuild_raises_witness :
  create_graph 3 Samples.two_goals_graph = Raise Exception_ Samples.two_goals_graph.
Proof.
  apply create_graph_rebuild_raises. left. vm_compute. discriminate.
Defined.

(** ** inconsistent_support_mutex *)

Lemma count_inner_loop (h : Heap) (p1 : ref) (ps2 : pyset) (c : Z) :
  fold_left
    (fun counter p2 => if is_mutex h p1 p2 then counter + 1 else counter)
    ps2 c
  = c + Z.of_nat (List.length (filter (fun p2 => is_mutex h p1 p2) ps2)).
Proof.
  revert c; induction ps2 as [|p2 ps2 IH]; intros c; simpl; [lia|].
  rewrite IH. destruct (is_mutex h p1 p2); simpl List.length; lia.
Qed.

Lemma filter_map_pair_length (h : Heap) (p1 : ref) (ps2 : pyset) :
  List.length (filter (fun p => is_mutex h (fst p) (snd p))
                      (map (fun y => (p1, y)) ps2))
  = List.length (filter (fun p2 => is_mutex h p1 p2) ps2).
Proof.
  induction ps2 as [|p2 ps2 IH]; simpl; [reflexivity|].
  destruct (is_mutex h p1 p2); simpl; rewrite IH; reflexivity.
Qed.

Lemma count_outer_loop (h : Heap) (ps1 ps2 : pyset) (c : Z) :
  fold_left
    (fun counter p1 =>
       fold_left
         (fun counter p2 => if is_mutex h p1 p2 then counter + 1 else counter)
         ps2 counter)
    ps1 c
  = c + Z.of_nat (mutex_pair_count h ps1 ps2).
Proof.
  unfold mutex_pair_count.
  revert c; induction ps1 as [|p1 ps1 IH]; intros c; simpl; [lia|].
  rewrite IH, count_inner_loop, filter_app, length_app, filter_map_pair_length.
  lia.
Qed.

(** C2. inconsistent_support_mutex returns True exactly when the number of
    pairs (p1, p2) of the cross-product of the parents of the first node with
    the parents of the second for which p1 is mutex with p2 equals the number
    of parents of the first node.  This holds for all literal nodes, those with
    nonempty parent sets among them. *)
Theorem inconsistent_support_mutex_counts (self : PlanningGraph)
    (node_s1 node_s2 : PgNode_s) :
  inconsistent_support_mutex self node_s1 node_s2 = true
  <-> mutex_pair_count (heap self) (parents (s_base node_s1))
                       (parents (s_base node_s2))
      = List.length (parents (s_base node_s1)).
Proof.
  unfold inconsistent_support_mutex. rewrite count_outer_loop.
  destruct (Z.eqb_spec
              (0 + Z.of_nat (mutex_pair_count (heap self)
                               (parents (s_base node_s1))
                               (parents (s_base node_s2))))
              (Z.of_nat (List.length (parents (s_base node_s1))))) as [E|E].
  - split; [intros _; lia | reflexivity].
  - split; [discriminate | intros E'; exfalso; apply E; lia].
Qed.

(** ** h_levelsum *)

Lemma h_levelsum_goals_nonneg (h : Heap) (node : ref) (i : Z)
    (goals : list Expr) (v v' : levelsum_vars) :
  0 <= i -> 0 <= level_sum v ->
  h_levelsum_goals h node i goals v = inl v' -> 0 <= level_sum v'.
Proof.
  intros Hi. induction goals as [|g goals IH]; simpl; intros Hv E.
  - inversion E; subst; auto.
  - destruct (as_PgNode_s h node); [|discriminate].
    destruct (Expr_eqb (symbol p) g); auto.
    destruct (negb (Expr_in g (goal_checked v))); auto.
    inversion E; subst; simpl; lia.
Qed.

Lemma h_levelsum_nodes_nonneg (h : Heap) (i : Z) (goals : list Expr)
    (nodes : list ref) (v v' : levelsum_vars) :
  0 <= i -> 0 <= level_sum v ->
  h_levelsum_nodes h i goals nodes v = inl v' -> 0 <= level_sum v'.
Proof.
  intros Hi. revert v. induction nodes as [|n nodes IH]; simpl; intros v Hv E.
  - inversion E; subst; auto.
  - destruct (h_levelsum_goals h n i goals v) as [v1|e] eqn:G; [|discriminate].
    apply h_levelsum_goals_nonneg in G; auto.
    destruct (goal_check v1); [inversion E; subst; auto | eauto].
Qed.

Lemma h_levelsum_layers_nonneg (h : Heap) (goals : list Expr)
    (levels : list pyset) (i : Z) (v v' : levelsum_vars) :
  0 <= i -> 0 <= level_sum v ->
  h_levelsum_layers h goals i levels v = inl v' -> 0 <= level_sum v'.
Proof.
  revert i v. induction levels as [|l levels IH]; simpl; intros i v Hi Hv E.
  - inversion E; subst; auto.
  - destruct (h_levelsum_nodes h i goals l _) as [v1|e] eqn:N; [|discriminate].
    apply h_levelsum_nodes_nonneg in N; auto.
    apply IH in E; auto. lia.
Qed.

(** The value h_levelsum returns is never negative. *)
Lemma h_levelsum_nonneg (self : PlanningGraph) (n : Z) :
  h_levelsum self = inl n -> 0 <= n.
Proof.
  unfold h_levelsum.
  destruct (h_levelsum_layers _ _ _ _ _) as [v|e] eqn:E; [|discriminate].
  intros H; inversion H; subst.
  apply h_levelsum_layers_nonneg in E; simpl; auto; lia.
Qed.

(** C1. On the graph of two fluents that are both true and both goals,
    h_levelsum returns 1, in whichever order the nodes of a level are visited,
    while both goals are at level 0 and the sum of their level costs is 0: the
    scan of a level stops at the first goal it counts. *)
Theorem h_levelsum_counts_one_goal_per_level :
  Samples.two_goals_graph
  = state_of (PlanningGraph_init 2 Samples.two_goals "TT" true)
  /\ PlanningGraph_init 2 Samples.two_goals "TT" true
     = Ok Samples.two_goals_graph
  /\ h_levelsum Samples.two_goals_graph = inl 1
  /\ level_cost_sum Samples.two_goals_graph = 0
  /\ s_levels Samples.two_goals_graph = [[RefS 0; RefS 1]; [RefS 3; RefS 7]]
  /\ forall l0 l1,
       In l0 [[RefS 0; RefS 1]; [RefS 1; RefS 0]] ->
       In l1 [[RefS 3; RefS 7]; [RefS 7; RefS 3]] ->
       h_levelsum (with_s_levels Samples.two_goals_graph [l0; l1]) = inl 1.
Proof.
  split; [vm_compute; reflexivity|].
  split; [vm_compute; reflexivity|].
  split; [vm_compute; reflexivity|].
  split; [vm_compute; reflexivity|].
  split; [vm_compute; reflexivity|].
  intros l0 l1 H0 H1.
  destruct H0 as [<-|[<-|[]]]; destruct H1 as [<-|[<-|[]]];
    vm_compute; reflexivity.
Qed.


(** ** Additions to instance sets keep the heap well formed *)

Lemma incl_pyset_add (h : Heap) (s : pyset) (x : ref) : incl s (pyset_add h s x).
Proof.
  unfold pyset_add. destruct (pyset_mem h x s); [apply incl_refl|].
  apply incl_appl, incl_refl.
Qed.

Lemma In_pyset_add (h : Heap) (s : pyset) (x y : ref) :
  In y (pyset_add h s x) -> In y s \/ y = x.
Proof.
  unfold pyset_add. destruct (pyset_mem h x s); [auto|].
  rewrite in_app_iff. simpl. intuition.
Qed.

Lemma pyset_mem_pyset_add (h : Heap) (s : pyset) (x : ref) :
  pyset_mem h x (pyset_add h s x) = true.
Proof. apply pyset_mem_key. apply keys_pyset_add. auto. Qed.

Lemma Forall_pyset_add (P : ref -> Prop) (h : Heap) (s : pyset) (x : ref) :
  Forall P s -> P x -> Forall P (pyset_add h s x).
Proof.
  intros Hs Hx. apply Forall_forall. intros y Hy.
  apply In_pyset_add in Hy as [Hy| ->]; auto.
  rewrite Forall_forall in Hs. auto.
Qed.

Lemma heap_le_set_base (h : Heap) (r : ref) (b : PgNode) :
  incl (parents (base h r)) (parents b) ->
  incl (children (base h r)) (children b) ->
  incl (mutex (base h r)) (mutex b) ->
  heap_le h (set_base h r b).
Proof.
  intros Hp Hc Hm. constructor; intros x V.
  - apply valid_set_base. exact V.
  - apply static_set_base.
  - destruct (ref_eq_dec x r) as [->|N].
    + rewrite base_set_base_same. exact Hp.
    + rewrite base_set_base_other; auto using incl_refl.
  - destruct (ref_eq_dec x r) as [->|N].
    + rewrite base_set_base_same. exact Hc.
    + rewrite base_set_base_other; auto using incl_refl.
  - destruct (ref_eq_dec x r) as [->|N].
    + rewrite base_set_base_same. exact Hm.
    + rewrite base_set_base_other; auto using incl_refl.
Qed.

Lemma Forall_valid_set_base (h : Heap) (r : ref) (b : PgNode) (s : list ref) :
  Forall (valid h) s -> Forall (valid (set_base h r b)) s.
Proof.
  intros H. eapply Forall_impl; [|exact H]. intros x. apply valid_set_base.
Qed.

Lemma prenodes_set_base (h : Heap) (r : ref) (b : PgNode) (a : nat) :
  prenodes (a_store (set_base h r b) a) = prenodes (a_store h a).
Proof.
  pose proof (static_set_base h r b (RefA a)) as E. simpl in E.
  inversion E. reflexivity.
Qed.

Lemma effnodes_set_base (h : Heap) (r : ref) (b : PgNode) (a : nat) :
  effnodes (a_store (set_base h r b) a) = effnodes (a_store h a).
Proof.
  pose proof (static_set_base h r b (RefA a)) as E. simpl in E.
  inversion E. reflexivity.
Qed.

Lemma a_next_set_base (h : Heap) (r : ref) (b : PgNode) :
  a_next (set_base h r b) = a_next h.
Proof. destruct r; reflexivity. Qed.

Lemma s_next_set_base (h : Heap) (r : ref) (b : PgNode) :
  s_next (set_base h r b) = s_next h.
Proof. destruct r; reflexivity. Qed.

Lemma wf_heap_set_base (h : Heap) (r : ref) (b : PgNode) :
  wf_heap h -> valid h r ->
  Forall (valid h) (parents b) -> Forall (valid h) (children b) ->
  Forall (valid h) (mutex b) ->
  wf_heap (set_base h r b).
Proof.
  intros W V Hp Hc Hm. destruct W. constructor.
  - intros x Vx. apply valid_set_base in Vx. apply Forall_valid_set_base.
    destruct (ref_eq_dec x r) as [->|N].
    + rewrite base_set_base_same. exact Hp.
    + rewrite base_set_base_other; auto.
  - intros x Vx. apply valid_set_base in Vx. apply Forall_valid_set_base.
    destruct (ref_eq_dec x r) as [->|N].
    + rewrite base_set_base_same. exact Hc.
    + rewrite base_set_base_other; auto.
  - intros x Vx. apply valid_set_base in Vx. apply Forall_valid_set_base.
    destruct (ref_eq_dec x r) as [->|N].
    + rewrite base_set_base_same. exact Hm.
    + rewrite base_set_base_other; auto.
  - intros a Ha. rewrite a_next_set_base in Ha. rewrite prenodes_set_base.
    apply Forall_valid_set_base. auto.
  - intros a Ha. rewrite a_next_set_base in Ha. rewrite effnodes_set_base.
    apply Forall_valid_set_base. auto.
  - intros x Vx. rewrite valid_set_base in Vx.
    rewrite base_set_base_other; auto. intros ->. auto.
Qed.

Lemma wf_heap_parents_add (h : Heap) (n x : ref) :
  wf_heap h -> valid h n -> valid h x -> wf_heap (parents_add h n x).
Proof.
  intros W Vn Vx. unfold parents_add. apply wf_heap_set_base; simpl; auto.
  - apply Forall_pyset_add; auto. apply W; auto.
  - apply W; auto.
  - apply W; auto.
Qed.

Lemma wf_heap_children_add (h : Heap) (n x : ref) :
  wf_heap h -> valid h n -> valid h x -> wf_heap (children_add h n x).
Proof.
  intros W Vn Vx. unfold children_add. apply wf_heap_set_base; simpl; auto.
  - apply W; auto.
  - apply Forall_pyset_add; auto. apply W; auto.
  - apply W; auto.
Qed.

Lemma wf_heap_mutex_add (h : Heap) (n x : ref) :
  wf_heap h -> valid h n -> valid h x -> wf_heap (mutex_add h n x).
Proof.
  intros W Vn Vx. unfold mutex_add. apply wf_heap_set_base; simpl; auto.
  - apply W; auto.
  - apply W; auto.
  - apply Forall_pyset_add; auto. apply W; auto.
Qed.

Lemma heap_le_parents_add (h : Heap) (n x : ref) : heap_le h (parents_add h n x).
Proof.
  apply heap_le_set_base; simpl; auto using incl_refl, incl_pyset_add.
Qed.

Lemma heap_le_children_add (h : Heap) (n x : ref) :
  heap_le h (children_add h n x).
Proof.
  apply heap_le_set_base; simpl; auto using incl_refl, incl_pyset_add.
Qed.

Lemma heap_le_mutex_add (h : Heap) (n x : ref) : heap_le h (mutex_add h n x).
Proof.
  apply heap_le_set_base; simpl; auto using incl_refl, incl_pyset_add.
Qed.

Lemma static_parents_add (h : Heap) (n x r : ref) :
  static (parents_add h n x) r = static h r.
Proof. apply static_set_base. Qed.

Lemma static_children_add (h : Heap) (n x r : ref) :
  static (children_add h n x) r = static h r.
Proof. apply static_set_base. Qed.

Lemma static_mutex_add (h : Heap) (n x r : ref) :
  static (mutex_add h n x) r = static h r.
Proof. apply static_set_base. Qed.

Lemma valid_parents_add (h : Heap) (n x r : ref) :
  valid (parents_add h n x) r <-> valid h r.
Proof. apply valid_set_base. Qed.

Lemma valid_children_add (h : Heap) (n x r : ref) :
  valid (children_add h n x) r <-> valid h r.
Proof. apply valid_set_base. Qed.

Lemma valid_mutex_add (h : Heap) (n x r : ref) :
  valid (mutex_add h n x) r <-> valid h r.
Proof. apply valid_set_base. Qed.

(** ** Constructors *)

Lemma heap_le_s_next (h h' : Heap) : heap_le h h' -> (s_next h <= s_next h')%nat.
Proof.
  intros L. destruct (s_next h) as [|n] eqn:E; [lia|].
  pose proof (le_valid _ _ L (RefS n)) as V. simpl in V. lia.
Qed.

Lemma heap_le_a_next (h h' : Heap) : heap_le h h' -> (a_next h <= a_next h')%nat.
Proof.
  intros L. destruct (a_next h) as [|n] eqn:E; [lia|].
  pose proof (le_valid _ _ L (RefA n)) as V. simpl in V. lia.
Qed.

Lemma heap_le_not_valid (h h' : Heap) (r : ref) :
  heap_le h h' -> ~ valid h' r -> ~ valid h r.
Proof. intros L N V. apply N. apply L. exact V. Qed.

Lemma key_StaticS (h : Heap) (r : ref) (sym : Expr) (flag : bool) :
  static h r = StaticS sym flag -> key h r = KeyS sym flag.
Proof. destruct r; simpl; intros E; inversion E; reflexivity. Qed.

Lemma new_PgNode_s_spec (sym : Expr) (flag : bool) (h : Heap) :
  let n := fst (new_PgNode_s sym flag h) in
  let h' := snd (new_PgNode_s sym flag h) in
  n = RefS (s_next h) /\ ~ valid h n /\ valid h' n
  /\ static h' n = StaticS sym flag
  /\ heap_le h h'
  /\ (wf_heap h -> wf_heap h' /\ forall r, base h' r = base h r).
Proof.
  simpl. split; [reflexivity|]. split; [simpl; lia|]. split; [simpl; lia|].
  split; [simpl; rewrite upd_same; reflexivity|].
  assert (B : forall r, valid h r ->
            base (mkHeap (upd (s_store h) (s_next h)
                              (mkPgNode_s PgNode_init sym flag))
                         (S (s_next h)) (a_store h) (a_next h)) r = base h r).
  { intros [a|a] V; simpl in *; [|reflexivity].
    rewrite upd_other; [reflexivity | lia]. }
  split.
  - constructor; intros r V; try (rewrite B; auto using incl_refl).
    + destruct r; simpl in *; lia.
    + destruct r as [a|a]; simpl in *; [|reflexivity].
      rewrite upd_other; [reflexivity | lia].
  - intros W.
    assert (B' : forall r,
              base (mkHeap (upd (s_store h) (s_next h)
                                (mkPgNode_s PgNode_init sym flag))
                           (S (s_next h)) (a_store h) (a_next h)) r = base h r).
    { intros [a|a]; simpl; [|reflexivity].
      destruct (Nat.eq_dec a (s_next h)) as [->|N].
      - rewrite upd_same. simpl.
        symmetry. apply (wf_fresh _ W (RefS (s_next h))). simpl. lia.
      - rewrite upd_other; auto. }
    split; [|exact B'].
    assert (M : forall s, Forall (valid h) s ->
              Forall (valid (mkHeap (upd (s_store h) (s_next h)
                                (mkPgNode_s PgNode_init sym flag))
                           (S (s_next h)) (a_store h) (a_next h))) s).
    { intros s Hs. eapply Forall_impl; [|exact Hs].
      intros [a|a]; simpl; lia. }
    destruct W. constructor.
    + intros r V. rewrite B'. destruct r as [a|a]; simpl in V.
      * destruct (Nat.eq_dec a (s_next h)) as [->|N].
        -- rewrite (wf_fresh0 (RefS (s_next h))); [constructor | simpl; lia].
        -- apply M. apply wf_parents0. simpl. lia.
      * apply M. apply wf_parents0. exact V.
    + intros r V. rewrite B'. destruct r as [a|a]; simpl in V.
      * destruct (Nat.eq_dec a (s_next h)) as [->|N].
        -- rewrite (wf_fresh0 (RefS (s_next h))); [constructor | simpl; lia].
        -- apply M. apply wf_children0. simpl. lia.
      * apply M. apply wf_children0. exact V.
    + intros r V. rewrite B'. destruct r as [a|a]; simpl in V.
      * destruct (Nat.eq_dec a (s_next h)) as [->|N].
        -- rewrite (wf_fresh0 (RefS (s_next h))); [constructor | simpl; lia].
        -- apply M. apply wf_mutex0. simpl. lia.
      * apply M. apply wf_mutex0. exact V.
    + intros a Ha. simpl in *. apply M. auto.
    + intros a Ha. simpl in *. apply M. auto.
    + intros r V. rewrite B'. apply wf_fresh0. intros V'. apply V.
      destruct r; simpl in *; lia.
Qed.

Lemma add_s_nodes_cons (p : Expr) (syms : list Expr) (flag : bool)
    (nodes : pyset) (h : Heap) :
  add_s_nodes (p :: syms) flag nodes h
  = add_s_nodes syms flag
      (pyset_add (snd (new_PgNode_s p flag h)) nodes
                 (fst (new_PgNode_s p flag h)))
      (snd (new_PgNode_s p flag h)).
Proof. reflexivity. Qed.

Lemma add_s_nodes_spec (syms : list Expr) (flag : bool) :
  forall (nodes : pyset) (h : Heap),
    wf_heap h -> Forall (valid h) nodes ->
    let nodes' := fst (add_s_nodes syms flag nodes h) in
    let h' := snd (add_s_nodes syms flag nodes h) in
    wf_heap h' /\ heap_le h h' /\ (forall r, base h' r = base h r)
    /\ Forall (valid h') nodes'
    /\ (forall r, In r nodes' ->
          In r nodes \/ (type_of r = PgNode_s_t /\ ~ valid h r))
    /\ (forall k, In k (keys h' nodes') <->
          In k (keys h nodes) \/ In k (map (fun p => KeyS p flag) syms))
    /\ (is_pyset h nodes -> is_pyset h' nodes').
Proof.
  induction syms as [|p syms IH]; intros nodes h W V; cbv zeta.
  - simpl. split; [exact W|]. split; [apply heap_le_refl|].
    split; [reflexivity|]. split; [exact V|]. split; [auto|].
    split; [|auto]. intros k. tauto.
  - destruct (new_PgNode_s_spec p flag h) as (En & Fn & Vn & Sn & Ln & Wn).
    destruct (Wn W) as [W1 B1]. clear Wn.
    rewrite add_s_nodes_cons.
    set (n := fst (new_PgNode_s p flag h)) in *.
    set (h1 := snd (new_PgNode_s p flag h)) in *.
    assert (V1 : Forall (valid h1) (pyset_add h1 nodes n)).
    { apply Forall_pyset_add; auto. eapply heap_le_Forall_valid; eauto. }
    assert (K1 : keys h1 nodes = keys h nodes) by (apply heap_le_keys; auto).
    destruct (IH (pyset_add h1 nodes n) h1 W1 V1)
      as (W' & L' & B' & V' & I' & K' & S').
    split; [exact W'|]. split; [eapply heap_le_trans; eauto|].
    split; [intros r; rewrite B'; apply B1|].
    split; [exact V'|]. split; [|split].
    + intros r Hr. apply I' in Hr as [Hr|[T N]].
      * apply In_pyset_add in Hr as [Hr| ->]; auto.
      * right. split; auto. eapply heap_le_not_valid; eauto.
    + intros k. rewrite K'. rewrite keys_pyset_add. rewrite K1.
      assert (Ek : key h1 n = KeyS p flag) by (apply key_StaticS; exact Sn).
      rewrite Ek. simpl. intuition.
    + intros P. apply S'. apply is_pyset_add. unfold is_pyset.
      rewrite K1. exact P.
Qed.

Lemma literal_nodes_spec (positive negative : list Expr) (h : Heap) :
  wf_heap h ->
  let r := (let '(nodes, h1) := add_s_nodes positive true [] h in
            add_s_nodes negative false nodes h1) in
  wf_heap (snd r) /\ heap_le h (snd r)
  /\ (forall x, base (snd r) x = base h x)
  /\ Forall (fun e => type_of e = PgNode_s_t /\ ~ valid h e /\ valid (snd r) e)
            (fst r)
  /\ (forall k, In k (keys (snd r) (fst r)) <->
        In k (literal_keys positive negative))
  /\ is_pyset (snd r) (fst r).
Proof.
  intros W.
  pose proof (add_s_nodes_spec positive true [] h W (Forall_nil _)) as H1.
  destruct (add_s_nodes positive true [] h) as [nodes h1]. simpl in H1.
  destruct H1 as (W1 & L1 & B1 & V1 & I1 & K1 & S1).
  pose proof (add_s_nodes_spec negative false nodes h1 W1 V1) as H2.
  cbv zeta. destruct (add_s_nodes negative false nodes h1) as [nodes' h2].
  simpl in *. destruct H2 as (W2 & L2 & B2 & V2 & I2 & K2 & S2).
  split; [exact W2|]. split; [eapply heap_le_trans; eauto|].
  split; [intros x; rewrite B2; apply B1|]. split; [|split].
  - apply Forall_forall. intros e He.
    assert (Ve : valid h2 e) by (rewrite Forall_forall in V2; auto).
    apply I2 in He as [He|[T N]].
    + apply I1 in He as [[]|[T N]]. auto.
    + split; auto. split; auto. eapply heap_le_not_valid; eauto.
  - intros k. rewrite K2, K1. unfold literal_keys. rewrite in_app_iff.
    simpl. tauto.
  - apply S2, S1. constructor.
Qed.

Lemma alloc_a_spec (h : Heap) (node : PgNode_a) :
  wf_heap h -> a_base node = PgNode_init ->
  Forall (valid h) (prenodes node) -> Forall (valid h) (effnodes node) ->
  let h' := mkHeap (s_store h) (s_next h)
                   (upd (a_store h) (a_next h) node) (S (a_next h)) in
  wf_heap h' /\ heap_le h h' /\ (forall r, base h' r = base h r)
  /\ a_store h' (a_next h) = node.
Proof.
  intros W Bn Vp Ve h'.
  assert (B : forall r, base h' r = base h r).
  { intros [a|a]; simpl; [reflexivity|].
    destruct (Nat.eq_dec a (a_next h)) as [->|N].
    - rewrite upd_same. rewrite Bn. symmetry.
      apply (wf_fresh _ W (RefA (a_next h))). simpl. lia.
    - rewrite upd_other; auto. }
  assert (M : forall r, valid h r -> valid h' r).
  { intros [a|a]; simpl; lia. }
  assert (MF : forall s, Forall (valid h) s -> Forall (valid h') s).
  { intros s Hs. eapply Forall_impl; [|exact Hs]. exact M. }
  assert (BF : forall r, valid h' r -> ~ valid h r -> base h r = PgNode_init).
  { intros r _ N. apply (wf_fresh _ W). exact N. }
  split; [|split; [|split]].
  - destruct W. constructor.
    + intros r V. rewrite B. destruct r as [a|a]; simpl in V.
      * apply MF. apply wf_parents0. exact V.
      * destruct (Nat.eq_dec a (a_next h)) as [->|N].
        -- rewrite (wf_fresh0 (RefA (a_next h))); [constructor | simpl; lia].
        -- apply MF. apply wf_parents0. simpl. lia.
    + intros r V. rewrite B. destruct r as [a|a]; simpl in V.
      * apply MF. apply wf_children0. exact V.
      * destruct (Nat.eq_dec a (a_next h)) as [->|N].
        -- rewrite (wf_fresh0 (RefA (a_next h))); [constructor | simpl; lia].
        -- apply MF. apply wf_children0. simpl. lia.
    + intros r V. rewrite B. destruct r as [a|a]; simpl in V.
      * apply MF. apply wf_mutex0. exact V.
      * destruct (Nat.eq_dec a (a_next h)) as [->|N].
        -- rewrite (wf_fresh0 (RefA (a_next h))); [constructor | simpl; lia].
        -- apply MF. apply wf_mutex0. simpl. lia.
    + intros a Ha. simpl in *.
      destruct (Nat.eq_dec a (a_next h)) as [->|N].
      * rewrite upd_same. apply MF. exact Vp.
      * rewrite upd_other; auto. apply MF. apply wf_prenodes0. lia.
    + intros a Ha. simpl in *.
      destruct (Nat.eq_dec a (a_next h)) as [->|N].
      * rewrite upd_same. apply MF. exact Ve.
      * rewrite upd_other; auto. apply MF. apply wf_effnodes0. lia.
    + intros r V. rewrite B. apply wf_fresh0. intros V'. apply V. auto.
  - constructor; intros r V; try (rewrite B; auto using incl_refl); auto.
    destruct r as [a|a]; simpl in *; [reflexivity|].
    rewrite upd_other; [reflexivity | lia].
  - exact B.
  - simpl. apply upd_same.
Qed.

Lemma new_PgNode_a_spec (act : Action) (h : Heap) :
  wf_heap h ->
  let a := fst (new_PgNode_a act h) in
  let h' := snd (new_PgNode_a act h) in
  wf_heap h' /\ heap_le h h' /\ (forall r, base h' r = base h r)
  /\ action_node_of h h' act a.
Proof.
  intros W. unfold new_PgNode_a, precond_s_nodes, effect_s_nodes.
  pose proof (literal_nodes_spec (precond_pos act) (precond_neg act) h W) as H1.
  cbv zeta in H1.
  destruct (let '(nodes, h1) := add_s_nodes (precond_pos act) true [] h in
            add_s_nodes (precond_neg act) false nodes h1) as [pre h1].
  simpl in H1. destruct H1 as (W1 & L1 & B1 & F1 & K1 & S1).
  pose proof (literal_nodes_spec (effect_add act) (effect_rem act) h1 W1) as H2.
  cbv zeta in H2.
  destruct (let '(nodes, h2) := add_s_nodes (effect_add act) true [] h1 in
            add_s_nodes (effect_rem act) false nodes h2) as [eff h2].
  simpl in H2. destruct H2 as (W2 & L2 & B2 & F2 & K2 & S2).
  assert (Vpre : Forall (valid h2) pre).
  { eapply heap_le_Forall_valid; eauto.
    eapply Forall_impl; [|exact F1]. simpl. tauto. }
  assert (Veff : Forall (valid h2) eff).
  { eapply Forall_impl; [|exact F2]. simpl. tauto. }
  destruct (alloc_a_spec h2
              (mkPgNode_a PgNode_init act pre eff (pyset_eqb h2 pre eff))
              W2 eq_refl Vpre Veff) as (W3 & L3 & B3 & E3).
  cbv zeta. simpl fst. simpl snd.
  set (h3 := mkHeap (s_store h2) (s_next h2)
               (upd (a_store h2) (a_next h2)
                  (mkPgNode_a PgNode_init act pre eff (pyset_eqb h2 pre eff)))
               (S (a_next h2))) in *.
  split; [exact W3|].
  split; [eapply heap_le_trans; [|exact L3]; eapply heap_le_trans; eauto|].
  split; [intros r; rewrite B3, B2; apply B1|].
  assert (L02 : heap_le h h2) by (eapply heap_le_trans; eauto).
  constructor.
  - simpl. pose proof (heap_le_a_next _ _ L02). lia.
  - simpl. lia.
  - rewrite E3. reflexivity.
  - rewrite E3. simpl. intros k. rewrite <- K1.
    rewrite (heap_le_keys h2 h3), (heap_le_keys h1 h2); auto; try tauto.
    eapply Forall_impl; [|exact F1]. simpl. tauto.
  - rewrite E3. simpl. intros k. rewrite <- K2.
    rewrite (heap_le_keys h2 h3); auto. tauto.
  - rewrite E3. simpl. unfold is_pyset.
    rewrite (heap_le_keys h2 h3); auto.
  - rewrite E3. simpl. eapply Forall_impl; [|exact F2].
    simpl. intros e (T & N & V). split; auto. split.
    + apply (heap_le_not_valid h h1); auto.
    + apply L3. exact V.
Qed.

Lemma action_node_of_le (h h1 h2 : Heap) (act : Action) (a : nat) :
  wf_heap h1 -> action_node_of h h1 act a -> heap_le h1 h2 ->
  action_node_of h h2 act a.
Proof.
  intros W [Fr Va Ac Pk Ek Es Ef] L.
  pose proof (le_static _ _ L (RefA a) Va) as St. simpl in St.
  inversion St as [[E1 E2 E3 E4]].
  assert (Vp : Forall (valid h1) (prenodes (a_store h1 a)))
    by (apply W; exact Va).
  assert (Ve : Forall (valid h1) (effnodes (a_store h1 a)))
    by (apply W; exact Va).
  constructor.
  - exact Fr.
  - apply L. exact Va.
  - congruence.
  - intros k. rewrite E2. rewrite (heap_le_keys h1 h2); auto.
  - intros k. rewrite E3. rewrite (heap_le_keys h1 h2); auto.
  - rewrite E3. unfold is_pyset. rewrite (heap_le_keys h1 h2); auto.
  - rewrite E3. eapply Forall_impl; [|exact Ef]. simpl.
    intros e (T & N & V). split; auto. split; auto. apply L. exact V.
Qed.

Lemma action_node_of_base (h0 h h' : Heap) (act : Action) (a : nat) :
  heap_le h0 h -> action_node_of h h' act a -> action_node_of h0 h' act a.
Proof.
  intros L [Fr Va Ac Pk Ek Es Ef]. constructor; auto.
  - eapply heap_le_not_valid; eauto.
  - eapply Forall_impl; [|exact Ef]. simpl.
    intros e (T & N & V). split; auto. split; auto.
    eapply heap_le_not_valid; eauto.
Qed.

(** ** add_action_level *)

Lemma fold_left_ext {A B : Type} (f g : A -> B -> A) (l : list B) (a : A) :
  (forall x y, f x y = g x y) -> fold_left f l a = fold_left g l a.
Proof.
  intros E. revert a. induction l as [|y l IH]; intros a; simpl; auto.
  rewrite E. apply IH.
Qed.

Lemma pyset_mem_mono (h h' : Heap) (x : ref) (s s' : pyset) :
  incl s s' -> (forall r, In r s -> key h' r = key h r) ->
  key h' x = key h x ->
  pyset_mem h x s = true -> pyset_mem h' x s' = true.
Proof.
  intros I K Kx. rewrite !pyset_mem_key. unfold keys. rewrite !in_map_iff.
  intros [y [E Hy]]. exists y. split; auto. rewrite Kx, K; auto.
Qed.

Lemma connect_literals_spec (n : ref) (literals : pyset) :
  forall h : Heap,
    let h' := connect_literals n literals h in
    (forall r, static h' r = static h r)
    /\ (forall r, valid h' r <-> valid h r)
    /\ (forall r, mutex (base h' r) = mutex (base h r))
    /\ (forall r, r <> n -> parents (base h' r) = parents (base h r))
    /\ parents (base h' n)
       = fold_left (pyset_add h) literals (parents (base h n))
    /\ (forall r, incl (children (base h r)) (children (base h' r)))
    /\ (forall l, In l literals ->
          pyset_mem h' n (children (base h' l)) = true)
    /\ heap_le h h'
    /\ (wf_heap h -> valid h n -> Forall (valid h) literals -> wf_heap h').
Proof.
  unfold connect_literals.
  induction literals as [|l literals IH]; intros h; simpl.
  - repeat (split; [solve [intros; auto using incl_refl; tauto]|]).
    split; [apply heap_le_refl | auto].
  - set (h1 := children_add (parents_add h n l) l n).
    destruct (IH h1) as (St & Va & Mu & Pa & Pn & Ch & Cm & Le & Wf).
    assert (St1 : forall r, static h1 r = static h r).
    { intros r. unfold h1. rewrite static_children_add, static_parents_add.
      reflexivity. }
    assert (K1 : forall r, key h1 r = key h r).
    { intros r. apply key_static, St1. }
    assert (Le1 : heap_le h h1).
    { eapply heap_le_trans; [apply heap_le_parents_add|].
      apply heap_le_children_add. }
    split; [intros r; rewrite St; apply St1|].
    split; [intros r; rewrite Va; unfold h1;
            rewrite valid_children_add, valid_parents_add; tauto|].
    split; [intros r; rewrite Mu; unfold h1;
            rewrite mutex_children_add, mutex_parents_add; reflexivity|].
    split; [intros r N; rewrite Pa; auto; unfold h1;
            rewrite parents_children_add, parents_parents_add;
            destruct (ref_eq_dec r n); [contradiction|reflexivity]|].
    split.
    { rewrite Pn. unfold h1 at 2.
      rewrite parents_children_add, parents_parents_add.
      destruct (ref_eq_dec n n) as [_|N]; [|contradiction].
      apply fold_left_ext. intros s x. apply pyset_add_ext. exact K1. }
    split.
    { intros r. eapply incl_tran; [|apply Ch]. unfold h1.
      rewrite children_children_add, !children_parents_add.
      destruct (ref_eq_dec r l) as [->|N];
        [apply incl_pyset_add | apply incl_refl]. }
    split; [|split].
    + intros l' [<-|Hl]; [|apply Cm; exact Hl].
      assert (M1 : pyset_mem h1 n (children (base h1 l)) = true).
      { unfold h1. rewrite children_children_add.
        destruct (ref_eq_dec l l) as [_|N]; [|contradiction].
        rewrite (pyset_mem_ext (parents_add h n l)).
        - apply pyset_mem_pyset_add.
        - intros r. apply key_children_add. }
      eapply pyset_mem_mono; [apply Ch | | | exact M1].
      * intros r _. apply key_static, St.
      * apply key_static, St.
    + eapply heap_le_trans; eauto.
    + intros W Vn Vl. inversion Vl as [|? ? Vl1 Vl2]; subst.
      apply Wf.
      * unfold h1. apply wf_heap_children_add.
        -- apply wf_heap_parents_add; auto.
        -- apply valid_parents_add. exact Vl1.
        -- apply valid_parents_add. exact Vn.
      * apply Le1. exact Vn.
      * eapply heap_le_Forall_valid; eauto.
Qed.

Lemma key_in_true (k : node_key) (l : list node_key) :
  key_in k l = true <-> In k l.
Proof.
  unfold key_in. destruct (in_dec key_eq_dec k l); split; auto; discriminate.
Qed.

Lemma applicable_incl (K : list node_key) (act : Action) :
  applicable K act = true <-> incl (pre_keys act) K.
Proof.
  unfold applicable. rewrite forallb_forall. unfold incl.
  split; intros H k Hk; apply key_in_true; auto.
Qed.

Lemma applicable_ext (K K' : list node_key) (act : Action) :
  (forall k, In k K <-> In k K') -> applicable K act = applicable K' act.
Proof.
  intros E. apply eq_true_iff_eq. rewrite !applicable_incl. unfold incl.
  split; intros H k Hk; apply E; auto.
Qed.

Lemma pyset_add_le (h h' : Heap) (s : pyset) (x : ref) :
  heap_le h h' -> Forall (valid h) s -> valid h x ->
  pyset_add h' s x = pyset_add h s x.
Proof.
  intros L Vs Vx. unfold pyset_add.
  replace (pyset_mem h' x s) with (pyset_mem h x s); [reflexivity|].
  apply eq_true_iff_eq. rewrite !pyset_mem_key.
  rewrite (heap_le_keys h h'), (heap_le_key h h'); auto. tauto.
Qed.

Lemma fold_pyset_add_le (h h' : Heap) (l : list ref) :
  heap_le h h' -> Forall (valid h) l ->
  forall acc, Forall (valid h) acc ->
    fold_left (pyset_add h') l acc = fold_left (pyset_add h) l acc.
Proof.
  intros L Vl. induction Vl as [|x l Vx Vl IH]; intros acc Va; simpl; auto.
  rewrite (pyset_add_le h h'); auto. apply IH.
  apply Forall_pyset_add; auto.
Qed.

Lemma pyset_of_list_le (h h' : Heap) (l : list ref) :
  heap_le h h' -> Forall (valid h) l ->
  pyset_of_list h' l = pyset_of_list h l.
Proof. intros L V. apply fold_pyset_add_le; auto. Qed.

(** The test of add_action_level on the node of a candidate action is the
    test that each precondition literal of the action is in the level. *)
Lemma issubset_prenodes_applicable (h0 h h' : Heap) (act : Action) (a : nat)
    (literals : pyset) :
  heap_le h0 h' -> Forall (valid h0) literals ->
  action_node_of h h' act a ->
  issubset h' (prenodes (a_store h' a)) literals
  = applicable (keys h0 literals) act.
Proof.
  intros L V N. apply eq_true_iff_eq.
  rewrite issubset_keys, applicable_incl.
  rewrite (heap_le_keys h0 h' literals); auto. unfold incl.
  split; intros H k Hk; apply H; apply (an_pre_keys _ _ _ _ N); exact Hk.
Qed.

Lemma admitted_node_le (h h1 h2 : Heap) (literals : pyset) (act : Action)
    (a : nat) :
  wf_heap h1 -> Forall (valid h1) literals ->
  admitted_node h h1 literals act a -> heap_le h1 h2 ->
  (forall r, valid h1 r -> parents (base h2 r) = parents (base h1 r)) ->
  admitted_node h h2 literals act a.
Proof.
  intros W Vl [N P C] L Pa.
  assert (Va : valid h1 (RefA a)) by (apply (an_valid _ _ _ _ N)).
  constructor.
  - eapply action_node_of_le; eauto.
  - rewrite Pa; auto.
  - intros l Hl.
    assert (Vl1 : valid h1 l) by (rewrite Forall_forall in Vl; auto).
    eapply pyset_mem_mono; [ | | | apply C; exact Hl].
    + apply L. exact Vl1.
    + intros r Hr. apply heap_le_key; auto.
      pose proof (wf_children _ W l Vl1) as F.
      rewrite Forall_forall in F. auto.
    + apply heap_le_key; auto.
Qed.

Lemma admitted_node_base (h0 h h' : Heap) (literals : pyset) (act : Action)
    (a : nat) :
  heap_le h0 h -> Forall (valid h0) literals ->
  admitted_node h h' literals act a -> admitted_node h0 h' literals act a.
Proof.
  intros L V [N P C]. constructor; auto.
  - eapply action_node_of_base; eauto.
  - rewrite P. apply pyset_of_list_le; auto.
Qed.

Lemma add_action_level_loop_spec (literals : pyset) (level : Z) :
  forall (acts : list Action) (self : PlanningGraph) (acc : list ref),
    py_getitem (s_levels self) level = Some literals ->
    wf_heap (heap self) -> Forall (valid (heap self)) literals ->
    exists addrs h',
      add_action_level_loop self level acts acc
      = Ok (acc ++ map RefA addrs, with_heap self h')
      /\ wf_heap h' /\ heap_le (heap self) h'
      /\ (forall r, mutex (base h' r) = mutex (base (heap self) r))
      /\ (forall r, valid (heap self) r ->
            parents (base h' r) = parents (base (heap self) r))
      /\ Forall2 (admitted_node (heap self) h' literals)
                 (filter (applicable (keys (heap self) literals)) acts) addrs.
Proof.
  induction acts as [|act acts IH]; intros self acc G W V.
  - exists [], (heap self). simpl. rewrite app_nil_r.
    split; [destruct self; reflexivity|]. split; [exact W|].
    split; [apply heap_le_refl|]. split; [reflexivity|].
    split; [reflexivity | constructor].
  - simpl add_action_level_loop. rewrite G.
    destruct (new_PgNode_a_spec act (heap self) W) as (W1 & L1 & B1 & N1).
    destruct (new_PgNode_a act (heap self)) as [a h1]. simpl in W1, L1, B1, N1.
    assert (V1 : Forall (valid h1) literals)
      by (eapply heap_le_Forall_valid; eauto).
    rewrite (issubset_prenodes_applicable (heap self) (heap self) h1 act a);
      auto.
    simpl filter.
    destruct (applicable (keys (heap self) literals) act) eqn:Ap.
    + destruct (connect_literals_spec (RefA a) literals h1)
        as (St & Va & Mu & Pa & Pn & Ch & Cm & Le & Wf).
      set (h2 := connect_literals (RefA a) literals h1) in *.
      assert (W2 : wf_heap h2).
      { apply Wf; auto. apply (an_valid _ _ _ _ N1). }
      assert (V2 : Forall (valid h2) literals)
        by (eapply heap_le_Forall_valid; eauto).
      assert (L02 : heap_le (heap self) h2) by (eapply heap_le_trans; eauto).
      destruct (IH (with_heap self h2) (acc ++ [RefA a]) G W2 V2)
        as (addrs & h' & E & W' & L' & M' & P' & F').
      simpl heap in *.
      exists (a :: addrs), h'. rewrite E. simpl map.
      rewrite <- app_assoc. simpl.
      split; [reflexivity|]. split; [exact W'|].
      split; [eapply heap_le_trans; eauto|].
      split; [intros r; rewrite M', Mu, B1; reflexivity|].
      split.
      { intros r Vr. rewrite P'; [|apply L02; exact Vr].
        rewrite Pa; [rewrite B1; reflexivity|].
        intros ->. apply (an_fresh _ _ _ _ N1). exact Vr. }
      constructor.
      * apply (admitted_node_le (heap self) h2 h'); auto.
        constructor.
        -- apply (action_node_of_le (heap self) h1 h2); auto.
        -- rewrite Pn. rewrite B1.
           rewrite (wf_fresh _ W (RefA a)); [|apply (an_fresh _ _ _ _ N1)].
           simpl. apply pyset_of_list_le; auto.
        -- exact Cm.
      * rewrite (heap_le_keys (heap self) h2) in F'; auto.
        eapply Forall2_impl; [|exact F']. intros act' a' Ad.
        eapply admitted_node_base; eauto.
    + destruct (IH (with_heap self h1) acc G W1 V1)
        as (addrs & h' & E & W' & L' & M' & P' & F').
      simpl heap in *.
      exists addrs, h'. rewrite E.
      split; [reflexivity|]. split; [exact W'|].
      split; [eapply heap_le_trans; eauto|].
      split; [intros r; rewrite M', B1; reflexivity|].
      split.
      { intros r Vr. rewrite P'; [|apply L1; exact Vr].
        rewrite B1; reflexivity. }
      rewrite (heap_le_keys (heap self) h1) in F'; auto.
      eapply Forall2_impl; [|exact F']. intros act' a' Ad.
      eapply admitted_node_base; eauto.
Qed.

Lemma add_action_level_spec (self : PlanningGraph) (level : Z)
    (literals : pyset) :
  py_getitem (s_levels self) level = Some literals ->
  wf_heap (heap self) -> Forall (valid (heap self)) literals ->
  exists addrs h',
    add_action_level self level
    = Ok (with_a_levels (with_heap self h')
                        (a_levels self ++ [map RefA addrs]))
    /\ wf_heap h' /\ heap_le (heap self) h'
    /\ (forall r, mutex (base h' r) = mutex (base (heap self) r))
    /\ (forall r, valid (heap self) r ->
          parents (base h' r) = parents (base (heap self) r))
    /\ Forall2 (admitted_node (heap self) h' literals)
               (filter (applicable (keys (heap self) literals))
                       (all_actions self))
               addrs.
Proof.
  intros G W V.
  destruct (add_action_level_loop_spec literals level (all_actions self)
              self [] G W V) as (addrs & h' & E & R).
  exists addrs, h'. split; [|exact R].
  unfold add_action_level. rewrite E. reflexivity.
Qed.

Lemma candidate_admitted_applicable (h0 h : Heap) (literals : pyset)
    (act : Action) :
  wf_heap h -> heap_le h0 h -> Forall (valid h0) literals ->
  candidate_admitted h literals act = applicable (keys h0 literals) act.
Proof.
  intros W L V. unfold candidate_admitted.
  destruct (new_PgNode_a_spec act h W) as (W1 & L1 & B1 & N1).
  destruct (new_PgNode_a act h) as [a h1]. simpl in *.
  apply (issubset_prenodes_applicable h0 h h1); auto.
  eapply heap_le_trans; eauto.
Qed.

Lemma Forall2_map_l {A B C : Type} (R : A -> B -> Prop) (f : B -> C)
    (g : A -> C) (l1 : list A) (l2 : list B) :
  Forall2 R l1 l2 -> (forall x y, R x y -> f y = g x) ->
  map f l2 = map g l1.
Proof.
  intros F H. induction F; simpl; auto. f_equal; auto.
Qed.

(** C3. add_action_level at a literal level of a well-formed heap admits
    exactly the candidate actions whose precondition-node set is a subset of
    the level (the test gives the same answer in whichever heap of the loop
    the node of the candidate is built), and the node of every admitted
    action has every literal node of the level among its parents and is among
    the children of every literal node of the level. *)
Theorem add_action_level_admits_and_connects (self : PlanningGraph)
    (level : Z) (literals : pyset) :
  py_getitem (s_levels self) level = Some literals ->
  wf_heap (heap self) -> Forall (valid (heap self)) literals ->
  exists self' addrs,
    add_action_level self level = Ok self'
    /\ a_levels self' = a_levels self ++ [map RefA addrs]
    /\ s_levels self' = s_levels self
    /\ (forall act h1, wf_heap h1 -> heap_le (heap self) h1 ->
          candidate_admitted h1 literals act
          = applicable (keys (heap self) literals) act)
    /\ map (fun a => action (a_store (heap self') a)) addrs
       = filter (applicable (keys (heap self) literals)) (all_actions self)
    /\ (forall a, In a addrs ->
          issubset (heap self') (prenodes (a_store (heap self') a)) literals
          = true
          /\ forall l, In l literals ->
               pyset_mem (heap self') l (parents (base (heap self') (RefA a)))
               = true
               /\ pyset_mem (heap self') (RefA a)
                    (children (base (heap self') l)) = true).
Proof.
  intros G W V.
  destruct (add_action_level_spec self level literals G W V)
    as (addrs & h' & E & W' & L' & M' & P' & F').
  exists (with_a_levels (with_heap self h') (a_levels self ++ [map RefA addrs])),
         addrs.
  split; [exact E|]. split; [reflexivity|]. split; [reflexivity|].
  split; [intros act h1 W1 L1; apply candidate_admitted_applicable; auto|].
  simpl heap. split.
  - rewrite <- (map_id (filter _ (all_actions self))).
    eapply Forall2_map_l; [exact F'|]. simpl.
    intros act a Ad. apply (an_action _ _ _ _ (ad_node _ _ _ _ _ Ad)).
  - intros a Ha.
    assert (exists act, In act (filter (applicable (keys (heap self) literals))
                                       (all_actions self))
                        /\ admitted_node (heap self) h' literals act a)
      as (act & Hact & Ad).
    { clear - F' Ha. induction F' as [|act a' l1 l2 R F IH]; [contradiction|].
      destruct Ha as [->|Ha].
      - exists act. split; [left; reflexivity | exact R].
      - destruct (IH Ha) as (act' & H1 & H2). exists act'. split; auto.
        right. exact H1. }
    apply filter_In in Hact as [_ Ap]. split.
    + rewrite (issubset_prenodes_applicable (heap self) (heap self) h' act a);
        auto. apply (ad_node _ _ _ _ _ Ad).
    + intros l Hl. split; [|apply (ad_children _ _ _ _ _ Ad); exact Hl].
      rewrite (ad_parents _ _ _ _ _ Ad).
      apply pyset_mem_key.
      assert (Vl : valid (heap self) l) by (rewrite Forall_forall in V; auto).
      rewrite (heap_le_key (heap self) h'); auto.
      assert (Vs : Forall (valid (heap self)) (pyset_of_list (heap self) literals)).
      { unfold pyset_of_list.
        assert (Gen : forall l acc, Forall (valid (heap self)) l ->
                  Forall (valid (heap self)) acc ->
                  Forall (valid (heap self))
                         (fold_left (pyset_add (heap self)) l acc)).
        { induction l0 as [|x l0 IHl]; intros acc Vl0 Va; simpl; auto.
          inversion Vl0; subst. apply IHl; auto.
          apply Forall_pyset_add; auto. }
        apply Gen; auto. }
      rewrite (heap_le_keys (heap self) h'); auto.
      clear - Hl. unfold pyset_of_list.
      assert (Gen : forall l0 acc,
                In (key (heap self) l) (keys (heap self) acc) \/ In l l0 ->
                In (key (heap self) l)
                   (keys (heap self) (fold_left (pyset_add (heap self)) l0 acc))).
      { induction l0 as [|x l0 IHl]; intros acc H; simpl.
        - destruct H as [H|[]]; exact H.
        - apply IHl. destruct H as [H|[->|H]]; auto.
          + left. apply keys_pyset_add. auto.
          + left. apply keys_pyset_add. auto. }
      apply Gen. right. exact Hl.
Qed.

(** ** The mutex loops *)

Lemma bind_ext {S : Type} (r : result S) (k1 k2 : S -> result S) :
  (forall s, k1 s = k2 s) ->
  bind r (fun s => s) k1 = bind r (fun s => s) k2.
Proof. intros E. destruct r; simpl; auto. Qed.

Lemma skipn_app_length {A : Type} (l1 l2 : list A) :
  skipn (List.length l1) (l1 ++ l2) = l2.
Proof. induction l1; simpl; auto. Qed.

Lemma skipn_S_app_length {A : Type} (l1 l2 : list A) (x : A) :
  skipn (S (List.length l1)) (l1 ++ x :: l2) = l2.
Proof. induction l1; simpl; auto. Qed.

Lemma mutex_outer_cons
    (pair : PlanningGraph -> ref -> ref -> result PlanningGraph)
    (nodelist : list ref) (i : nat) (n1 : ref) (rest : list ref)
    (self : PlanningGraph) :
  mutex_outer pair nodelist i (n1 :: rest) self
  = (do self1 <- mutex_inner pair n1 (skipn (S i) nodelist) self;
     mutex_outer pair nodelist (S i) rest self1).
Proof. reflexivity. Qed.

Lemma mutex_pairs_cons
    (pair : PlanningGraph -> ref -> ref -> result PlanningGraph)
    (n1 : ref) (rest : list ref) (self : PlanningGraph) :
  mutex_pairs pair (n1 :: rest) self
  = (do self1 <- mutex_inner pair n1 rest self;
     mutex_pairs pair rest self1).
Proof. reflexivity. Qed.

(** The loops over [enumerate(nodelist[:-1])] and [nodelist[i + 1:]] pair
    every node with every later node. *)
Lemma mutex_outer_pairs
    (pair : PlanningGraph -> ref -> ref -> result PlanningGraph) :
  forall (l pre : list ref) (self : PlanningGraph),
    mutex_outer pair (pre ++ l) (List.length pre) (removelast l) self
    = mutex_pairs pair l self.
Proof.
  induction l as [|x l IH]; intros pre self; [reflexivity|].
  destruct l as [|y l].
  - reflexivity.
  - change (removelast (x :: y :: l)) with (x :: removelast (y :: l)).
    rewrite mutex_outer_cons, mutex_pairs_cons, skipn_S_app_length.
    apply bind_ext. intros s.
    specialize (IH (pre ++ [x]) s).
    rewrite <- app_assoc in IH. simpl app in IH.
    rewrite length_app in IH. simpl List.length in IH.
    rewrite Nat.add_1_r in IH. exact IH.
Qed.

Lemma update_a_mutex_pairs (self : PlanningGraph) (nodeset : list ref) :
  update_a_mutex self nodeset = mutex_pairs a_mutex_pair nodeset self.
Proof. apply (mutex_outer_pairs a_mutex_pair nodeset []). Qed.

Lemma update_s_mutex_pairs (self : PlanningGraph) (nodeset : list ref) :
  update_s_mutex self nodeset = mutex_pairs s_mutex_pair nodeset self.
Proof. apply (mutex_outer_pairs s_mutex_pair nodeset []). Qed.

(** Invariants of the pair loops: [I] is kept by every pair, [M] is gained by
    the pair and never lost. *)
Section PairLoops.

Variable pair : PlanningGraph -> ref -> ref -> result PlanningGraph.
Variable P : ref -> Prop.
Variable I : Heap -> Prop.
Variable M : Heap -> ref -> ref -> Prop.

Hypothesis pair_step :
  forall self n1 n2, P n1 -> P n2 -> I (heap self) ->
    exists h', pair self n1 n2 = Ok (with_heap self h')
               /\ I h' /\ M h' n1 n2
               /\ (forall x y, M (heap self) x y -> M h' x y).

Lemma mutex_inner_inv (n1 : ref) :
  forall (tail : list ref) (self : PlanningGraph),
    P n1 -> Forall P tail -> I (heap self) ->
    exists h', mutex_inner pair n1 tail self = Ok (with_heap self h')
               /\ I h'
               /\ (forall x y, M (heap self) x y -> M h' x y)
               /\ (forall n2, In n2 tail -> M h' n1 n2).
Proof.
  induction tail as [|n2 tail IH]; intros self P1 Pt Ih.
  - exists (heap self). simpl. split; [destruct self; reflexivity|].
    split; [exact Ih|]. split; [auto | contradiction].
  - inversion Pt as [|? ? P2 Pt']; subst.
    destruct (pair_step self n1 n2 P1 P2 Ih) as (h1 & E1 & I1 & M1 & K1).
    destruct (IH (with_heap self h1) P1 Pt' I1) as (h' & E' & I' & K' & A').
    exists h'. simpl. rewrite E1. simpl. rewrite E'.
    split; [reflexivity|]. split; [exact I'|].
    split; [intros x y Hxy; apply K'; apply K1; exact Hxy|].
    intros n [<-|Hn]; [apply K'; exact M1 | apply A'; exact Hn].
Qed.

Lemma mutex_pairs_inv :
  forall (l : list ref) (self : PlanningGraph),
    Forall P l -> I (heap self) ->
    exists h', mutex_pairs pair l self = Ok (with_heap self h')
               /\ I h'
               /\ (forall x y, M (heap self) x y -> M h' x y)
               /\ (forall i j x y, (i < j)%nat ->
                     nth_error l i = Some x -> nth_error l j = Some y ->
                     M h' x y).
Proof.
  induction l as [|n1 l IH]; intros self Pl Ih.
  - exists (heap self). simpl. split; [destruct self; reflexivity|].
    split; [exact Ih|]. split; [auto|].
    intros i j x y _ H. destruct i; discriminate.
  - inversion Pl as [|? ? P1 Pl']; subst.
    destruct (mutex_inner_inv n1 l self P1 Pl' Ih)
      as (h1 & E1 & I1 & K1 & A1).
    destruct (IH (with_heap self h1) Pl' I1) as (h' & E' & I' & K' & A').
    exists h'. simpl. rewrite E1. simpl. rewrite E'.
    split; [reflexivity|]. split; [exact I'|].
    split; [intros x y Hxy; apply K'; apply K1; exact Hxy|].
    intros i j x y Lt Hi Hj. destruct j as [|j]; [lia|].
    destruct i as [|i]; simpl in Hi, Hj.
    + inversion Hi; subst. apply K'. apply A1.
      eapply nth_error_In; eauto.
    + apply (A' i j); auto. lia.
Qed.

End PairLoops.

(** ** mutexify on two nodes of one class *)

Lemma mutexify_same_type (h : Heap) (n1 n2 : ref) :
  type_of n1 = type_of n2 -> mutexify n1 n2 h = Ok (mutexified h n1 n2).
Proof.
  intros T. unfold mutexify. rewrite T.
  destruct (type_of n2); reflexivity.
Qed.

Lemma mutexified_spec (h : Heap) (n1 n2 : ref) :
  let h' := mutexified h n1 n2 in
  (forall r, static h' r = static h r)
  /\ (forall r, valid h' r <-> valid h r)
  /\ (forall r, parents (base h' r) = parents (base h r))
  /\ (forall r, children (base h' r) = children (base h r))
  /\ (forall r, incl (mutex (base h r)) (mutex (base h' r)))
  /\ (forall r, r <> n1 -> r <> n2 -> mutex (base h' r) = mutex (base h r))
  /\ pyset_mem h' n2 (mutex (base h' n1)) = true
  /\ pyset_mem h' n1 (mutex (base h' n2)) = true
  /\ (forall r x, In x (mutex (base h' r)) ->
        In x (mutex (base h r)) \/ (r = n1 /\ x = n2) \/ (r = n2 /\ x = n1))
  /\ heap_le h h'
  /\ (wf_heap h -> valid h n1 -> valid h n2 -> wf_heap h').
Proof.
  unfold mutexified. set (h1 := mutex_add h n1 n2).
  assert (K1 : forall r, key h1 r = key h r) by (intros; apply key_mutex_add).
  assert (K2 : forall r, key (mutex_add h1 n2 n1) r = key h r).
  { intros r. rewrite key_mutex_add. apply K1. }
  split; [intros r; rewrite static_mutex_add; apply static_mutex_add|].
  split; [intros r; rewrite valid_mutex_add; apply valid_mutex_add|].
  split; [intros r; rewrite parents_mutex_add; apply parents_mutex_add|].
  split; [intros r; rewrite children_mutex_add; apply children_mutex_add|].
  assert (G : forall r, incl (mutex (base h r)) (mutex (base h1 r))).
  { intros r. unfold h1. rewrite mutex_mutex_add.
    destruct (ref_eq_dec r n1) as [->|N];
      [apply incl_pyset_add | apply incl_refl]. }
  assert (G' : forall r,
            incl (mutex (base h1 r)) (mutex (base (mutex_add h1 n2 n1) r))).
  { intros r. rewrite mutex_mutex_add.
    destruct (ref_eq_dec r n2) as [->|N];
      [apply incl_pyset_add | apply incl_refl]. }
  split; [intros r; eapply incl_tran; [apply G | apply G']|].
  split.
  { intros r N1 N2. rewrite mutex_mutex_add.
    destruct (ref_eq_dec r n2); [contradiction|].
    unfold h1. rewrite mutex_mutex_add.
    destruct (ref_eq_dec r n1); [contradiction|reflexivity]. }
  split.
  { eapply pyset_mem_mono; [apply G' | | | ].
    - intros r _. apply key_mutex_add.
    - apply key_mutex_add.
    - unfold h1. rewrite mutex_mutex_add.
      destruct (ref_eq_dec n1 n1) as [_|N]; [|contradiction].
      rewrite (pyset_mem_ext h); [apply pyset_mem_pyset_add|].
      intros r. apply key_mutex_add. }
  split.
  { rewrite mutex_mutex_add.
    destruct (ref_eq_dec n2 n2) as [_|N]; [|contradiction].
    rewrite (pyset_mem_ext h1); [apply pyset_mem_pyset_add|].
    intros r. apply key_mutex_add. }
  split.
  { intros r x Hx. rewrite mutex_mutex_add in Hx.
    destruct (ref_eq_dec r n2) as [->|N2].
    - apply In_pyset_add in Hx as [Hx| ->]; [|auto].
      unfold h1 in Hx. rewrite mutex_mutex_add in Hx.
      destruct (ref_eq_dec n2 n1) as [->|N1]; [|auto].
      apply In_pyset_add in Hx as [Hx| ->]; auto.
    - unfold h1 in Hx. rewrite mutex_mutex_add in Hx.
      destruct (ref_eq_dec r n1) as [->|N1]; [|auto].
      apply In_pyset_add in Hx as [Hx| ->]; auto. }
  split.
  { eapply heap_le_trans; apply heap_le_mutex_add. }
  intros W V1 V2. apply wf_heap_mutex_add.
  - apply wf_heap_mutex_add; auto.
  - apply valid_mutex_add. exact V2.
  - apply valid_mutex_add. exact V1.
Qed.

Lemma is_mutex_true (h : Heap) (n1 n2 : ref) :
  is_mutex h n1 n2 = true <-> pyset_mem h n2 (mutex (base h n1)) = true.
Proof. unfold is_mutex. destruct (pyset_mem _ _ _); tauto. Qed.

(** Marks are kept when mutex sets grow and keys stay. *)
Lemma is_mutex_mono (h h' : Heap) (n1 n2 : ref) :
  (forall r, key h' r = key h r) ->
  incl (mutex (base h n1)) (mutex (base h' n1)) ->
  is_mutex h n1 n2 = true -> is_mutex h' n1 n2 = true.
Proof.
  intros K I. rewrite !is_mutex_true.
  apply pyset_mem_mono; auto.
Qed.

Lemma any_mutex_true (h : Heap) (level : pyset) :
  any_mutex h level = true <->
  exists p1 p2, In p1 level /\ In p2 level /\ is_mutex h p1 p2 = true.
Proof.
  unfold any_mutex. rewrite existsb_exists. split.
  - intros (p1 & H1 & H). apply existsb_exists in H as (p2 & H2 & H).
    exists p1, p2. auto.
  - intros (p1 & p2 & H1 & H2 & H). exists p1. split; auto.
    apply existsb_exists. exists p2. auto.
Qed.

(** ** competing_needs_mutex on a fresh action level *)

Lemma fold_pyset_add_nodup (h : Heap) (l : list ref) :
  forall acc, NoDup (keys h (acc ++ l)) ->
    fold_left (pyset_add h) l acc = acc ++ l.
Proof.
  induction l as [|x l IH]; intros acc N; simpl.
  - rewrite app_nil_r. reflexivity.
  - assert (E : pyset_add h acc x = acc ++ [x]).
    { unfold pyset_add. destruct (pyset_mem h x acc) eqn:Mx; [|reflexivity].
      exfalso. apply pyset_mem_key in Mx.
      unfold keys in N. rewrite map_app in N. simpl in N.
      apply NoDup_remove_2 in N. apply N. apply in_or_app. left. exact Mx. }
    rewrite E. rewrite IH; rewrite <- app_assoc; [reflexivity | exact N].
Qed.

Lemma pyset_of_list_id (h : Heap) (l : list ref) :
  is_pyset h l -> pyset_of_list h l = l.
Proof. intros N. apply (fold_pyset_add_nodup h l []). exact N. Qed.

Lemma is_mutex_le (h h' : Heap) (p1 p2 : ref) :
  heap_le h h' -> wf_heap h -> valid h p1 -> valid h p2 ->
  mutex (base h' p1) = mutex (base h p1) ->
  is_mutex h' p1 p2 = is_mutex h p1 p2.
Proof.
  intros L W V1 V2 E. apply eq_true_iff_eq. rewrite !is_mutex_true, E.
  rewrite !pyset_mem_key.
  rewrite (heap_le_key h h'), (heap_le_keys h h'); auto; [tauto|].
  apply W. exact V1.
Qed.

Lemma existsb_ext_in {A : Type} (f g : A -> bool) (l : list A) :
  (forall x, In x l -> f x = g x) -> existsb f l = existsb g l.
Proof.
  induction l as [|x l IH]; intros E; simpl; auto.
  rewrite E, IH; auto; [intros; apply E; right; auto | left; auto].
Qed.

Lemma any_mutex_le (h h' : Heap) (level : pyset) :
  heap_le h h' -> wf_heap h -> Forall (valid h) level ->
  (forall r, mutex (base h' r) = mutex (base h r)) ->
  any_mutex h' level = any_mutex h level.
Proof.
  intros L W V E. unfold any_mutex. rewrite Forall_forall in V.
  apply existsb_ext_in. intros p1 H1.
  apply existsb_ext_in. intros p2 H2.
  apply is_mutex_le; auto.
Qed.

Lemma competing_needs_any_mutex (self : PlanningGraph) (a1 a2 : nat)
    (literals : pyset) :
  parents (base (heap self) (RefA a1)) = literals ->
  parents (base (heap self) (RefA a2)) = literals ->
  competing_needs_mutex self (a_store (heap self) a1) (a_store (heap self) a2)
  = any_mutex (heap self) literals.
Proof.
  simpl. intros E1 E2. unfold competing_needs_mutex, any_mutex.
  rewrite E1, E2. reflexivity.
Qed.

Lemma with_heap_heap (self : PlanningGraph) : with_heap self (heap self) = self.
Proof. destruct self; reflexivity. Qed.

Lemma a_mutex_pair_RefA (self : PlanningGraph) (a1 a2 : nat) :
  a_mutex_pair self (RefA a1) (RefA a2)
  = if serialize_actions self (a_store (heap self) a1) (a_store (heap self) a2)
       || inconsistent_effects_mutex (a_store (heap self) a1)
                                     (a_store (heap self) a2)
       || interference_mutex (a_store (heap self) a1) (a_store (heap self) a2)
       || competing_needs_mutex self (a_store (heap self) a1)
                                (a_store (heap self) a2)
    then Ok (with_heap self (mutexified (heap self) (RefA a1) (RefA a2)))
    else Ok self.
Proof.
  unfold a_mutex_pair, as_PgNode_a.
  rewrite mutexify_same_type by reflexivity. reflexivity.
Qed.

Lemma s_mutex_pair_RefS (self : PlanningGraph) (a1 a2 : nat) :
  s_mutex_pair self (RefS a1) (RefS a2)
  = if negation_mutex (s_store (heap self) a1) (s_store (heap self) a2)
       || inconsistent_support_mutex self (s_store (heap self) a1)
                                     (s_store (heap self) a2)
    then Ok (with_heap self (mutexified (heap self) (RefS a1) (RefS a2)))
    else Ok self.
Proof.
  unfold s_mutex_pair, as_PgNode_s.
  rewrite mutexify_same_type by reflexivity. reflexivity.
Qed.

Section CompetingNeeds.

Variable h1 : Heap.
Variable literals : pyset.
Hypothesis some_mutex : any_mutex h1 literals = true.

Let P (r : ref) : Prop :=
  exists a, r = RefA a /\ parents (base h1 (RefA a)) = literals.

Let I (h : Heap) : Prop :=
  (forall r, key h r = key h1 r)
  /\ (forall r, parents (base h r) = parents (base h1 r))
  /\ (forall r, incl (mutex (base h1 r)) (mutex (base h r))).

Lemma any_mutex_kept (h : Heap) : I h -> any_mutex h literals = true.
Proof.
  intros (K & _ & G). apply any_mutex_true.
  apply any_mutex_true in some_mutex as (p1 & p2 & H1 & H2 & H).
  exists p1, p2. split; auto. split; auto.
  eapply is_mutex_mono; eauto.
Qed.

Lemma competing_pair_step (self : PlanningGraph) (n1 n2 : ref) :
  P n1 -> P n2 -> I (heap self) ->
  exists h', a_mutex_pair self n1 n2 = Ok (with_heap self h')
             /\ I h' /\ marked_mutex h' n1 n2
             /\ (forall x y, marked_mutex (heap self) x y -> marked_mutex h' x y).
Proof.
  intros (a1 & -> & Pa1) (a2 & -> & Pa2) Ih.
  pose proof (any_mutex_kept _ Ih) as Am.
  destruct Ih as (K & Pr & G).
  exists (mutexified (heap self) (RefA a1) (RefA a2)).
  destruct (mutexified_spec (heap self) (RefA a1) (RefA a2))
    as (St & Va & Pa & Ch & Mu & Mo & M12 & M21 & El & Le & Wf).
  split.
  - rewrite a_mutex_pair_RefA.
    rewrite (competing_needs_any_mutex self a1 a2 literals);
      [|rewrite Pr; exact Pa1 | rewrite Pr; exact Pa2].
    rewrite Am, !orb_true_r. reflexivity.
  - split; [|split].
    + split; [intros r; rewrite <- K; apply key_static, St|].
      split; [intros r; rewrite Pa; apply Pr|].
      intros r. eapply incl_tran; [apply G | apply Mu].
    + split; apply is_mutex_true; assumption.
    + intros x y [H1 H2]. split.
      * eapply is_mutex_mono; [|apply Mu|exact H1].
        intros r. apply key_static, St.
      * eapply is_mutex_mono; [|apply Mu|exact H2].
        intros r. apply key_static, St.
Qed.

Lemma competing_needs_marks_all (self : PlanningGraph) (addrs : list nat) :
  heap self = h1 ->
  (forall a, In a addrs -> parents (base h1 (RefA a)) = literals) ->
  exists h', update_a_mutex self (map RefA addrs) = Ok (with_heap self h')
             /\ forall i j a1 a2, (i < j)%nat ->
                  nth_error addrs i = Some a1 -> nth_error addrs j = Some a2 ->
                  marked_mutex h' (RefA a1) (RefA a2).
Proof.
  intros Eh Hp. rewrite update_a_mutex_pairs.
  destruct (mutex_pairs_inv a_mutex_pair P I marked_mutex competing_pair_step
              (map RefA addrs) self) as (h' & E & Ih & _ & A).
  - apply Forall_forall. intros r Hr. apply in_map_iff in Hr as (a & <- & Ha).
    exists a. split; auto.
  - rewrite Eh. split; [reflexivity|]. split; [reflexivity|].
    intros r. apply incl_refl.
  - exists h'. split; [exact E|].
    intros i j a1 a2 Lt Hi Hj. apply (A i j); auto.
    + rewrite nth_error_map, Hi. reflexivity.
    + rewrite nth_error_map, Hj. reflexivity.
Qed.

End CompetingNeeds.

Lemma Forall2_In_r {A B : Type} (R : A -> B -> Prop) (l1 : list A)
    (l2 : list B) (y : B) :
  Forall2 R l1 l2 -> In y l2 -> exists x, In x l1 /\ R x y.
Proof.
  intros F. induction F as [|x y' l1 l2 Rxy F IH]; intros Hy; [contradiction|].
  destruct Hy as [->|Hy].
  - exists x. split; [left; reflexivity | exact Rxy].
  - destruct (IH Hy) as (x' & H1 & H2). exists x'. split; auto. right. exact H1.
Qed.

(** C4. After add_action_level at a literal level (a set of allocated nodes
    in a well-formed heap), competing_needs_mutex on any two nodes of the new
    action level returns True exactly when some pair of literal nodes of the
    level is marked mutex; and when some pair is, update_a_mutex on the new
    level succeeds and leaves every two nodes at distinct positions of the
    level, persistence actions included, marked mutex with each other. *)
Theorem competing_needs_all_or_nothing (self : PlanningGraph) (level : Z)
    (literals : pyset) :
  py_getitem (s_levels self) level = Some literals ->
  wf_heap (heap self) -> Forall (valid (heap self)) literals ->
  is_pyset (heap self) literals ->
  exists self1 addrs,
    add_action_level self level = Ok self1
    /\ a_levels self1 = a_levels self ++ [map RefA addrs]
    /\ any_mutex (heap self1) literals = any_mutex (heap self) literals
    /\ (forall a1 a2, In a1 addrs -> In a2 addrs ->
          competing_needs_mutex self1 (a_store (heap self1) a1)
                                (a_store (heap self1) a2)
          = any_mutex (heap self1) literals)
    /\ (any_mutex (heap self1) literals = true ->
        exists self2,
          update_a_mutex self1 (map RefA addrs) = Ok self2
          /\ forall i j a1 a2, (i < j)%nat ->
               nth_error addrs i = Some a1 -> nth_error addrs j = Some a2 ->
               is_mutex (heap self2) (RefA a1) (RefA a2) = true
               /\ is_mutex (heap self2) (RefA a2) (RefA a1) = true).
Proof.
  intros G W V S.
  destruct (add_action_level_spec self level literals G W V)
    as (addrs & h' & E & W' & L' & M' & P' & F').
  set (self1 := with_a_levels (with_heap self h')
                              (a_levels self ++ [map RefA addrs])).
  assert (Pl : forall a, In a addrs -> parents (base h' (RefA a)) = literals).
  { intros a Ha. destruct (Forall2_In_r _ _ _ _ F' Ha) as (act & _ & Ad).
    rewrite (ad_parents _ _ _ _ _ Ad). apply pyset_of_list_id. exact S. }
  exists self1, addrs.
  split; [exact E|]. split; [reflexivity|].
  split; [apply any_mutex_le; auto|].
  split.
  - intros a1 a2 H1 H2.
    apply (competing_needs_any_mutex self1 a1 a2 literals);
      [apply (Pl a1 H1) | apply (Pl a2 H2)].
  - intros Am.
    destruct (competing_needs_marks_all h' literals Am self1 addrs eq_refl Pl)
      as (h2 & E2 & A2).
    exists (with_heap self1 h2). split; [exact E2|].
    intros i j a1 a2 Lt Hi Hj. apply (A2 i j); auto.
Qed.

(** ** add_literal_level *)

Lemma links_only_refl (h : Heap) : links_only h h.
Proof. constructor; auto using heap_le_refl; tauto. Qed.

Lemma links_only_trans (h1 h2 h3 : Heap) :
  links_only h1 h2 -> links_only h2 h3 -> links_only h1 h3.
Proof.
  intros [] []. constructor.
  - intros r. rewrite lo_static1. apply lo_static0.
  - intros r. rewrite lo_valid1. apply lo_valid0.
  - intros r. rewrite lo_mutex1. apply lo_mutex0.
  - eapply heap_le_trans; eauto.
Qed.

Lemma links_only_parents_add (h : Heap) (n x : ref) :
  links_only h (parents_add h n x).
Proof.
  constructor.
  - intros r. apply static_parents_add.
  - intros r. apply valid_parents_add.
  - intros r. apply mutex_parents_add.
  - apply heap_le_parents_add.
Qed.

Lemma links_only_children_add (h : Heap) (n x : ref) :
  links_only h (children_add h n x).
Proof.
  constructor.
  - intros r. apply static_children_add.
  - intros r. apply valid_children_add.
  - intros r. apply mutex_children_add.
  - apply heap_le_children_add.
Qed.

Lemma links_only_key (h h' : Heap) (r : ref) :
  links_only h h' -> key h' r = key h r.
Proof. intros L. apply key_static. apply L. Qed.

Lemma links_only_keys (h h' : Heap) (s : list ref) :
  links_only h h' -> keys h' s = keys h s.
Proof.
  intros L. unfold keys. apply map_ext. intros r. apply links_only_key. exact L.
Qed.

Lemma connect_effects_spec (act : ref) (effs : pyset) :
  forall (acc : list ref) (h : Heap),
    wf_heap h -> valid h act -> Forall (valid h) effs ->
    fst (connect_effects act effs acc h) = acc ++ effs
    /\ links_only h (snd (connect_effects act effs acc h))
    /\ wf_heap (snd (connect_effects act effs acc h)).
Proof.
  unfold connect_effects.
  induction effs as [|e effs IH]; intros acc h W Va Ve; simpl.
  - rewrite app_nil_r. split; [reflexivity|].
    split; [apply links_only_refl | exact W].
  - inversion Ve as [|? ? Ve1 Ve2]; subst.
    set (h1 := children_add (parents_add h e act) act e).
    assert (L1 : links_only h h1).
    { eapply links_only_trans;
        [apply links_only_parents_add | apply links_only_children_add]. }
    assert (W1 : wf_heap h1).
    { unfold h1. apply wf_heap_children_add.
      - apply wf_heap_parents_add; auto.
      - apply valid_parents_add. exact Va.
      - apply valid_parents_add. exact Ve1. }
    destruct (IH (acc ++ [e]) h1 W1) as (E & L & W').
    { apply L1. exact Va. }
    { eapply Forall_impl; [|exact Ve2]. intros r. apply L1. }
    rewrite <- app_assoc in E. simpl in E.
    split; [exact E|]. split; [eapply links_only_trans; eauto | exact W'].
Qed.

Lemma level_effnodes_links_only (h h' : Heap) (actions : list ref) :
  links_only h h' -> level_effnodes h' actions = level_effnodes h actions.
Proof.
  intros L. unfold level_effnodes. apply flat_map_ext. intros [a|a]; simpl; auto.
  pose proof (lo_static _ _ L (RefA a)) as E. simpl in E. inversion E. auto.
Qed.

Lemma add_literal_level_loop_spec :
  forall (actions : list ref) (acc : list ref) (h : Heap),
    wf_heap h -> Forall (valid h) actions ->
    Forall (fun r => type_of r = PgNode_a_t) actions ->
    exists h',
      add_literal_level_loop actions acc h
      = Ok (acc ++ level_effnodes h actions, h')
      /\ links_only h h' /\ wf_heap h'.
Proof.
  induction actions as [|act actions IH]; intros acc h W V T; simpl.
  - exists h. rewrite app_nil_r. split; [reflexivity|].
    split; [apply links_only_refl | exact W].
  - inversion V as [|? ? V1 V2]; subst. inversion T as [|? ? T1 T2]; subst.
    destruct act as [a|a]; [discriminate|]. simpl as_PgNode_a.
    destruct (connect_effects_spec (RefA a) (effnodes (a_store h a)) acc h W V1)
      as (E1 & L1 & W1).
    { apply W. exact V1. }
    destruct (connect_effects (RefA a) (effnodes (a_store h a)) acc h)
      as [acc1 h1]. simpl in E1, L1, W1. subst acc1.
    destruct (IH (acc ++ effnodes (a_store h a)) h1 W1) as (h' & E & L & W').
    { eapply Forall_impl; [|exact V2]. intros r. apply L1. }
    { exact T2. }
    exists h'. rewrite E. rewrite (level_effnodes_links_only h h1); auto.
    rewrite <- app_assoc.
    split; [reflexivity|]. split; [eapply links_only_trans; eauto | exact W'].
Qed.

Lemma add_literal_level_spec (self : PlanningGraph) (level : Z)
    (actions : list ref) :
  py_getitem (a_levels self) (level - 1) = Some actions ->
  wf_heap (heap self) -> Forall (valid (heap self)) actions ->
  Forall (fun r => type_of r = PgNode_a_t) actions ->
  exists h',
    add_literal_level self level
    = Ok (with_s_levels (with_heap self h')
            (s_levels self
               ++ [pyset_of_list h' (level_effnodes (heap self) actions)]))
    /\ links_only (heap self) h' /\ wf_heap h'.
Proof.
  intros G W V T. unfold add_literal_level. rewrite G.
  destruct (add_literal_level_loop_spec actions [] (heap self) W V T)
    as (h' & E & L & W').
  exists h'. rewrite E. simpl. auto.
Qed.

(** ** [set(l)] *)

Lemma fold_pyset_add_In (h : Heap) (l : list ref) :
  forall acc r, In r (fold_left (pyset_add h) l acc) -> In r acc \/ In r l.
Proof.
  induction l as [|x l IH]; intros acc r H; simpl in *; auto.
  apply IH in H as [H|H]; auto.
  apply In_pyset_add in H as [H| ->]; auto.
Qed.

Lemma fold_pyset_add_keys (h : Heap) (l : list ref) :
  forall acc k,
    In k (keys h (fold_left (pyset_add h) l acc))
    <-> In k (keys h acc) \/ In k (keys h l).
Proof.
  induction l as [|x l IH]; intros acc k; simpl.
  - tauto.
  - rewrite IH, keys_pyset_add.
    split; [intros [[H| ->]|H] | intros [H|[<-|H]]]; auto.
Qed.

Lemma fold_pyset_add_set (h : Heap) (l : list ref) :
  forall acc, is_pyset h acc -> is_pyset h (fold_left (pyset_add h) l acc).
Proof.
  induction l as [|x l IH]; intros acc S; simpl; auto.
  apply IH. apply is_pyset_add. exact S.
Qed.

Lemma pyset_of_list_In (h : Heap) (l : list ref) (r : ref) :
  In r (pyset_of_list h l) -> In r l.
Proof.
  intros H. apply fold_pyset_add_In in H as [[]|H]. exact H.
Qed.

Lemma pyset_of_list_keys (h : Heap) (l : list ref) (k : node_key) :
  In k (keys h (pyset_of_list h l)) <-> In k (keys h l).
Proof.
  unfold pyset_of_list. rewrite fold_pyset_add_keys. simpl. tauto.
Qed.

Lemma pyset_of_list_set (h : Heap) (l : list ref) :
  is_pyset h (pyset_of_list h l).
Proof. apply fold_pyset_add_set. constructor. Qed.

(** In a set, membership for [__eq__] is membership of the object. *)
Lemma pyset_key_inj (h : Heap) (L : list ref) (x y : ref) :
  is_pyset h L -> In x L -> In y L -> key h x = key h y -> x = y.
Proof.
  unfold is_pyset, keys.
  induction L as [|z L IH]; simpl; intros N Hx Hy E; [contradiction|].
  inversion N as [|? ? Nz Nl]; subst.
  destruct Hx as [->|Hx], Hy as [->|Hy]; auto.
  - exfalso. apply Nz. rewrite E. apply in_map. exact Hy.
  - exfalso. apply Nz. rewrite <- E. apply in_map. exact Hx.
Qed.

Lemma pyset_exact (h : Heap) (L s : list ref) (y : ref) :
  is_pyset h L -> incl s L -> In y L ->
  pyset_mem h y s = true -> In y s.
Proof.
  intros N I Hy M. unfold pyset_mem in M.
  apply existsb_exists in M as (e & He & E). apply node_eqb_key in E.
  assert (e = y) as <-; [|exact He].
  apply (pyset_key_inj h L); auto.
Qed.

(** ** update_a_mutex and update_s_mutex on a fresh level *)

Lemma mutex_level_inv_init (h0 : Heap) (L : list ref) :
  wf_heap h0 -> (forall r, In r L -> mutex (base h0 r) = []) ->
  mutex_level_inv h0 L h0.
Proof.
  intros W E. constructor; auto using incl_refl; try tauto.
  - intros r Hr. rewrite E; auto. intros x [].
  - intros _ r Hr x Hx. rewrite E in Hx; auto. contradiction.
Qed.

Lemma mutex_level_inv_mutexified (h0 h : Heap) (L : list ref) (n1 n2 : ref) :
  Forall (valid h0) L -> In n1 L -> In n2 L ->
  mutex_level_inv h0 L h -> mutex_level_inv h0 L (mutexified h n1 n2).
Proof.
  intros V H1 H2 [St Va Pa Ch Gr Fr Lo Wf Sy].
  destruct (mutexified_spec h n1 n2)
    as (St' & Va' & Pa' & Ch' & Mu' & Mo' & M12 & M21 & El & Le & Wf').
  rewrite Forall_forall in V.
  assert (Lo' : forall r, In r L ->
            incl (mutex (base (mutexified h n1 n2) r)) L).
  { intros r Hr x Hx. apply El in Hx as [Hx|[[-> ->]|[-> ->]]]; auto.
    apply (Lo r Hr). exact Hx. }
  constructor.
  - intros r. rewrite St'. apply St.
  - intros r. rewrite Va'. apply Va.
  - intros r. rewrite Pa'. apply Pa.
  - intros r. rewrite Ch'. apply Ch.
  - intros r. eapply incl_tran; [apply Gr | apply Mu'].
  - intros r Hr. rewrite Mo'; [apply Fr; exact Hr | | ]; intros ->; auto.
  - exact Lo'.
  - apply Wf'; auto; apply Va; apply V; auto.
  - intros S r Hr x Hx.
    assert (S' : is_pyset (mutexified h n1 n2) L).
    { unfold is_pyset, keys. erewrite map_ext; [exact S|].
      intros y. simpl. apply key_static. rewrite St'. apply St. }
    apply El in Hx as [Hx|[[-> ->]|[-> ->]]].
    + apply Mu'. apply (Sy S r Hr). exact Hx.
    + apply (pyset_exact (mutexified h n1 n2) L); auto.
    + apply (pyset_exact (mutexified h n1 n2) L); auto.
Qed.

Section MutexLevel.

Variable pair : PlanningGraph -> ref -> ref -> result PlanningGraph.
Variable T : node_type.

Hypothesis pair_cases :
  forall self n1 n2, type_of n1 = T -> type_of n2 = T ->
    pair self n1 n2 = Ok self
    \/ pair self n1 n2
       = Ok (with_heap self (mutexified (heap self) n1 n2)).

Lemma mutex_pairs_level (self : PlanningGraph) (L : list ref) :
  wf_heap (heap self) -> Forall (valid (heap self)) L ->
  Forall (fun r => type_of r = T) L ->
  (forall r, In r L -> mutex (base (heap self) r) = []) ->
  exists h', mutex_pairs pair L self = Ok (with_heap self h')
             /\ mutex_level_inv (heap self) L h'.
Proof.
  intros W V Ty E.
  destruct (mutex_pairs_inv pair (fun r => In r L /\ type_of r = T)
              (mutex_level_inv (heap self) L) (fun _ _ _ => True))
    with (l := L) (self := self) as (h' & E' & I' & _).
  - intros s n1 n2 [H1 T1] [H2 T2] Is.
    destruct (pair_cases s n1 n2 T1 T2) as [C|C]; rewrite C.
    + exists (heap s). rewrite with_heap_heap. auto.
    + exists (mutexified (heap s) n1 n2). split; [reflexivity|].
      split; [|auto]. apply mutex_level_inv_mutexified; auto.
  - apply Forall_forall. intros r Hr. split; auto.
    rewrite Forall_forall in Ty. auto.
  - apply mutex_level_inv_init; auto.
  - exists h'. auto.
Qed.

End MutexLevel.

Lemma update_a_mutex_spec (self : PlanningGraph) (L : list ref) :
  wf_heap (heap self) -> Forall (valid (heap self)) L ->
  Forall (fun r => type_of r = PgNode_a_t) L ->
  (forall r, In r L -> mutex (base (heap self) r) = []) ->
  exists h', update_a_mutex self L = Ok (with_heap self h')
             /\ mutex_level_inv (heap self) L h'.
Proof.
  rewrite update_a_mutex_pairs. apply mutex_pairs_level.
  intros s [a1|a1] [a2|a2] T1 T2; try discriminate.
  rewrite a_mutex_pair_RefA. destruct (_ || _); auto.
Qed.

Lemma update_s_mutex_spec (self : PlanningGraph) (L : list ref) :
  wf_heap (heap self) -> Forall (valid (heap self)) L ->
  Forall (fun r => type_of r = PgNode_s_t) L ->
  (forall r, In r L -> mutex (base (heap self) r) = []) ->
  exists h', update_s_mutex self L = Ok (with_heap self h')
             /\ mutex_level_inv (heap self) L h'.
Proof.
  rewrite update_s_mutex_pairs. apply mutex_pairs_level.
  intros s [a1|a1] [a2|a2] T1 T2; try discriminate.
  rewrite s_mutex_pair_RefS. destruct (_ || _); auto.
Qed.

Lemma mutex_level_inv_le (h0 h : Heap) (L : list ref) :
  mutex_level_inv h0 L h -> heap_le h0 h.
Proof.
  intros [St Va Pa Ch Gr Fr Lo Wf Sy]. constructor; intros r V.
  - apply Va. exact V.
  - apply St.
  - rewrite Pa. apply incl_refl.
  - rewrite Ch. apply incl_refl.
  - apply Gr.
Qed.

Lemma mutex_level_inv_keys (h0 h : Heap) (L s : list ref) :
  mutex_level_inv h0 L h -> keys h s = keys h0 s.
Proof.
  intros I. unfold keys. apply map_ext. intros r.
  apply key_static. apply I.
Qed.

Lemma level_effnodes_static (h h' : Heap) (actions : list ref) :
  (forall r, static h' r = static h r) ->
  level_effnodes h' actions = level_effnodes h actions.
Proof.
  intros St. unfold level_effnodes. apply flat_map_ext.
  intros [a|a]; simpl; auto.
  pose proof (St (RefA a)) as E. simpl in E. inversion E. auto.
Qed.

(** ** One iteration of the loop of create_graph *)

Lemma py_getitem_nat {A : Type} (l : list A) (i : nat) :
  py_getitem l (Z.of_nat i) = nth_error l i.
Proof.
  unfold py_getitem.
  destruct (Z.leb_spec 0 (Z.of_nat i)); [|lia].
  rewrite Nat2Z.id. reflexivity.
Qed.

Lemma nth_error_app_last {A : Type} (l : list A) (x : A) :
  nth_error (l ++ [x]) (List.length l) = Some x.
Proof. induction l; simpl; auto. Qed.

Lemma nth_error_app_old {A : Type} (l : list A) (x : A) (i : nat) :
  (i < List.length l)%nat -> nth_error (l ++ [x]) i = nth_error l i.
Proof. intros H. apply nth_error_app1. exact H. Qed.

Lemma Forall2_In_l {A B : Type} (R : A -> B -> Prop) (l1 : list A)
    (l2 : list B) (x : A) :
  Forall2 R l1 l2 -> In x l1 -> exists y, In y l2 /\ R x y.
Proof.
  intros F. induction F as [|x' y l1 l2 Rxy F IH]; intros Hx; [contradiction|].
  destruct Hx as [->|Hx].
  - exists y. split; [left; reflexivity | exact Rxy].
  - destruct (IH Hx) as (y' & H1 & H2). exists y'. split; auto. right. exact H1.
Qed.

(** The literals of the effect nodes of an admitted level are the effects of
    the admitted actions. *)
Lemma level_effnodes_keys (h h1 : Heap) (literals : pyset)
    (acts : list Action) (addrs : list nat) (k : node_key) :
  Forall2 (admitted_node h h1 literals) acts addrs ->
  In k (keys h1 (level_effnodes h1 (map RefA addrs)))
  <-> In k (flat_map eff_keys acts).
Proof.
  intros F. unfold keys, level_effnodes.
  rewrite in_map_iff, in_flat_map. split.
  - intros (e & <- & He). apply in_flat_map in He as (r & Hr & He).
    apply in_map_iff in Hr as (a & <- & Ha). simpl in He.
    destruct (Forall2_In_r _ _ _ _ F Ha) as (act & Hact & Ad).
    exists act. split; auto.
    apply (an_eff_keys _ _ _ _ (ad_node _ _ _ _ _ Ad)).
    apply in_map. exact He.
  - intros (act & Hact & Hk).
    destruct (Forall2_In_l _ _ _ _ F Hact) as (a & Ha & Ad).
    apply (an_eff_keys _ _ _ _ (ad_node _ _ _ _ _ Ad)) in Hk.
    apply in_map_iff in Hk as (e & <- & He).
    exists e. split; auto. apply in_flat_map.
    exists (RefA a). split; [apply in_map; exact Ha | exact He].
Qed.

Lemma level_effnodes_fresh (h h1 : Heap) (literals : pyset)
    (acts : list Action) (addrs : list nat) :
  Forall2 (admitted_node h h1 literals) acts addrs ->
  Forall (fun e => type_of e = PgNode_s_t /\ ~ valid h e /\ valid h1 e)
         (level_effnodes h1 (map RefA addrs)).
Proof.
  intros F. apply Forall_forall. intros e He.
  unfold level_effnodes in He. apply in_flat_map in He as (r & Hr & He).
  apply in_map_iff in Hr as (a & <- & Ha). simpl in He.
  destruct (Forall2_In_r _ _ _ _ F Ha) as (act & Hact & Ad).
  pose proof (an_eff_fresh _ _ _ _ (ad_node _ _ _ _ _ Ad)) as Fr.
  rewrite Forall_forall in Fr. auto.
Qed.

Lemma distinct_actions_filter (keep : Action -> bool) (actions : list Action) :
  distinct_actions actions -> distinct_actions (filter keep actions).
Proof.
  unfold distinct_actions.
  induction actions as [|act actions IH]; simpl; intros N; [constructor|].
  inversion N as [|? ? Nx Nl]; subst.
  destruct (keep act); simpl; auto.
  constructor; auto. intros H. apply Nx.
  apply in_map_iff in H as (y & E & Hy). apply filter_In in Hy as [Hy _].
  rewrite <- E. apply in_map_iff. exists y. auto.
Qed.

Lemma NoDup_map_proj {A B C : Type} (f : A -> B) (g : B -> C) (l : list A) :
  NoDup (map (fun x => g (f x)) l) -> NoDup (map f l).
Proof.
  induction l as [|x l IH]; simpl; intros N; [constructor|].
  inversion N as [|? ? Nx Nl]; subst. constructor; auto.
  intros H. apply Nx. apply in_map_iff in H as (y & E & Hy).
  apply in_map_iff. exists y. split; [rewrite E; reflexivity | exact Hy].
Qed.

(** With distinct actions, the admitted level is a set. *)
Lemma admitted_level_set (h h1 : Heap) (literals : pyset)
    (acts : list Action) (addrs : list nat) :
  distinct_actions acts ->
  Forall2 (admitted_node h h1 literals) acts addrs ->
  is_pyset h1 (map RefA addrs).
Proof.
  unfold distinct_actions, is_pyset, keys. intros D F.
  apply (NoDup_map_proj _
           (fun k => match k with
                     | KeyA _ n a => (n, a)
                     | KeyS _ _ => (EmptyString, [])
                     end)).
  rewrite map_map. simpl.
  replace (map (fun x => (name (action (a_store h1 x)),
                          args (action (a_store h1 x)))) addrs)
    with (map (fun act => (name act, args act)) acts); [exact D|].
  clear D. induction F as [|act a l1 l2 Ad F IH]; simpl; auto.
  rewrite IH. rewrite (an_action _ _ _ _ (ad_node _ _ _ _ _ Ad)). reflexivity.
Qed.

Lemma next_keys_mono (actions : list Action) (K K' : list node_key) :
  incl K K' -> incl (next_keys actions K) (next_keys actions K').
Proof.
  intros I k Hk. unfold next_keys in *.
  apply in_flat_map in Hk as (act & Hact & Hk).
  apply filter_In in Hact as [Hact Ap].
  apply in_flat_map. exists act. split; auto.
  apply filter_In. split; auto.
  apply applicable_incl. apply applicable_incl in Ap.
  eapply incl_tran; eauto.
Qed.

Lemma next_keys_bound (actions : list Action) (K : list node_key) :
  incl (next_keys actions K) (flat_map eff_keys actions).
Proof.
  intros k Hk. unfold next_keys in Hk.
  apply in_flat_map in Hk as (act & Hact & Hk).
  apply filter_In in Hact as [Hact _].
  apply in_flat_map. exists act. auto.
Qed.

Lemma create_graph_loop_S (fuel : nat) (level : Z) (self : PlanningGraph) :
  create_graph_loop (S fuel) level self
  = (do self1 <- add_action_level self level;
     match py_getitem (a_levels self1) level with
     | None => Raise IndexError self1
     | Some a_level =>
         do self2 <- update_a_mutex self1 a_level;
         let level := level + 1 in
         do self3 <- add_literal_level self2 level;
         match py_getitem (s_levels self3) level with
         | None => Raise IndexError self3
         | Some s_level =>
             do self4 <- update_s_mutex self3 s_level;
             match py_getitem (s_levels self4) level,
                   py_getitem (s_levels self4) (level - 1) with
             | Some s_new, Some s_old =>
                 if pyset_eqb (heap self4) s_new s_old then Ok self4
                 else create_graph_loop fuel level self4
             | _, _ => Raise IndexError self4
             end
         end
     end).
Proof. reflexivity. Qed.

Lemma create_graph_loop_step (U : list node_key) (self : PlanningGraph) :
  graph_inv U self ->
  exists self' s_old s_new, loop_step U self self' s_old s_new.
Proof.
  intros [W Len Sok Sset Aok Aset SymS SymA Chain Last Bound].
  set (n := List.length (a_levels self)) in *.
  set (h := heap self) in *.
  (* the last literal level *)
  destruct (nth_error (s_levels self) n) as [s_old|] eqn:Eold;
    [|apply nth_error_None in Eold; lia].
  assert (Hold : In s_old (s_levels self)) by (eapply nth_error_In; eauto).
  assert (OkOld : level_ok h PgNode_s_t s_old)
    by (rewrite Forall_forall in Sok; auto).
  assert (SetOld : is_pyset h s_old) by (rewrite Forall_forall in Sset; auto).
  assert (Gold : py_getitem (s_levels self) (Z.of_nat n) = Some s_old)
    by (rewrite py_getitem_nat; exact Eold).
  (* add_action_level *)
  destruct (add_action_level_spec self (Z.of_nat n) s_old Gold W
              (lv_valid _ _ _ OkOld))
    as (addrs & h1 & E1 & W1 & L1 & M1 & P1 & F1).
  fold h in L1, M1, P1, F1.
  set (A := map RefA addrs) in *.
  set (self1 := with_a_levels (with_heap self h1) (a_levels self ++ [A])) in *.
  assert (VA1 : Forall (valid h1) A).
  { apply Forall_forall. intros r Hr. apply in_map_iff in Hr as (a & <- & Ha).
    destruct (Forall2_In_r _ _ _ _ F1 Ha) as (act & _ & Ad).
    apply (an_valid _ _ _ _ (ad_node _ _ _ _ _ Ad)). }
  assert (FA : Forall (fun r => ~ valid h r) A).
  { apply Forall_forall. intros r Hr. apply in_map_iff in Hr as (a & <- & Ha).
    destruct (Forall2_In_r _ _ _ _ F1 Ha) as (act & _ & Ad).
    apply (an_fresh _ _ _ _ (ad_node _ _ _ _ _ Ad)). }
  assert (TA : Forall (fun r => type_of r = PgNode_a_t) A).
  { apply Forall_forall. intros r Hr. apply in_map_iff in Hr as (a & <- & Ha).
    reflexivity. }
  assert (Fresh0 : forall r, ~ valid h r -> mutex (base h r) = []).
  { intros r N. rewrite (wf_fresh _ W r N). reflexivity. }
  assert (EA1 : forall r, In r A -> mutex (base h1 r) = []).
  { intros r Hr. rewrite M1. apply Fresh0.
    rewrite Forall_forall in FA. auto. }
  assert (GA : py_getitem (a_levels self1) (Z.of_nat n) = Some A).
  { rewrite py_getitem_nat.
    change (a_levels self1) with (a_levels self ++ [A]).
    apply nth_error_app_last. }
  (* update_a_mutex *)
  destruct (update_a_mutex_spec self1 A W1 VA1 TA EA1) as (h2 & E2 & I2).
  simpl heap in I2.
  set (self2 := with_heap self1 h2) in *.
  pose proof (mutex_level_inv_le _ _ _ I2) as L2.
  (* add_literal_level *)
  assert (GA2 : py_getitem (a_levels self2) (Z.of_nat n + 1 - 1) = Some A).
  { replace (Z.of_nat n + 1 - 1) with (Z.of_nat n) by lia. exact GA. }
  assert (VA2 : Forall (valid h2) A)
    by (eapply heap_le_Forall_valid; eauto).
  destruct (add_literal_level_spec self2 (Z.of_nat n + 1) A GA2
              (mi_wf _ _ _ I2) VA2 TA) as (h3 & E3 & L3 & W3).
  simpl heap in E3, L3. simpl s_levels in E3.
  set (effs := level_effnodes h2 A) in *.
  set (s_new := pyset_of_list h3 effs) in *.
  set (self3 := with_s_levels (with_heap self2 h3) (s_levels self ++ [s_new]))
    in *.
  assert (Eeffs : effs = level_effnodes h1 A).
  { apply level_effnodes_static. apply I2. }
  assert (Feffs : Forall (fun e => type_of e = PgNode_s_t /\ ~ valid h e
                                   /\ valid h1 e) effs).
  { rewrite Eeffs. eapply level_effnodes_fresh; eauto. }
  assert (L13 : heap_le h1 h3)
    by (eapply heap_le_trans; [exact L2 | apply L3]).
  assert (Fnew : Forall (fun e => type_of e = PgNode_s_t /\ ~ valid h e
                                  /\ valid h3 e) s_new).
  { apply Forall_forall. intros e He. apply pyset_of_list_In in He.
    rewrite Forall_forall in Feffs. destruct (Feffs e He) as (T & N & V).
    split; auto. split; auto. apply L13. exact V. }
  assert (Vnew : Forall (valid h3) s_new).
  { eapply Forall_impl; [|exact Fnew]. simpl. tauto. }
  assert (Tnew : Forall (fun r => type_of r = PgNode_s_t) s_new).
  { eapply Forall_impl; [|exact Fnew]. simpl. tauto. }
  assert (NotA : forall r, type_of r = PgNode_s_t -> ~ In r A).
  { intros r T Hr. rewrite Forall_forall in TA. rewrite (TA r Hr) in T.
    discriminate. }
  assert (Enew3 : forall r, In r s_new -> mutex (base h3 r) = []).
  { intros r Hr. rewrite Forall_forall in Fnew.
    destruct (Fnew r Hr) as (T & N & V).
    rewrite (lo_mutex _ _ L3), (mi_frame _ _ _ I2), M1; auto. }
  assert (Gnew : py_getitem (s_levels self3) (Z.of_nat n + 1) = Some s_new).
  { replace (Z.of_nat n + 1) with (Z.of_nat (List.length (s_levels self)))
      by lia.
    rewrite py_getitem_nat.
    change (s_levels self3) with (s_levels self ++ [s_new]).
    apply nth_error_app_last. }
  (* update_s_mutex *)
  destruct (update_s_mutex_spec self3 s_new W3 Vnew Tnew Enew3)
    as (h4 & E4 & I4).
  simpl heap in I4.
  set (self4 := with_heap self3 h4) in *.
  pose proof (mutex_level_inv_le _ _ _ I4) as L4.
  assert (Gold4 : py_getitem (s_levels self4) (Z.of_nat n + 1 - 1)
                  = Some s_old).
  { replace (Z.of_nat n + 1 - 1) with (Z.of_nat n) by lia.
    rewrite py_getitem_nat.
    change (s_levels self4) with (s_levels self ++ [s_new]).
    rewrite nth_error_app_old; [exact Eold | lia]. }
  assert (L04 : heap_le h h4).
  { eapply heap_le_trans; [exact L1|].
    eapply heap_le_trans; [exact L13 | exact L4]. }
  assert (K34 : forall s, keys h4 s = keys h3 s)
    by (intros; eapply mutex_level_inv_keys; eauto).
  assert (K23 : forall s, keys h3 s = keys h2 s)
    by (intros; apply links_only_keys; auto).
  assert (K12 : forall s, keys h2 s = keys h1 s)
    by (intros; eapply mutex_level_inv_keys; eauto).
  assert (K14 : forall s, keys h4 s = keys h1 s)
    by (intros; rewrite K34, K23, K12; reflexivity).
  assert (Grow2 : forall r, incl (mutex (base h2 r)) (mutex (base h4 r))).
  { intros r. rewrite <- (lo_mutex _ _ L3). apply I4. }
  assert (Grow : forall r, incl (mutex (base h r)) (mutex (base h4 r))).
  { intros r. rewrite <- M1.
    eapply incl_tran; [apply (mi_grow _ _ _ I2) | apply Grow2]. }
  assert (Frame : forall r, ~ In r A -> ~ In r s_new ->
            mutex (base h4 r) = mutex (base h r)).
  { intros r NA NS.
    rewrite (mi_frame _ _ _ I4), (lo_mutex _ _ L3), (mi_frame _ _ _ I2), M1;
      auto. }
  assert (NotNew : forall r, type_of r = PgNode_a_t -> ~ In r s_new).
  { intros r T Hr. rewrite Forall_forall in Tnew. rewrite (Tnew r Hr) in T.
    discriminate. }
  assert (FrameA : forall r, In r A -> mutex (base h4 r) = mutex (base h2 r)).
  { intros r Hr. rewrite (mi_frame _ _ _ I4), (lo_mutex _ _ L3); auto.
    apply NotNew. rewrite Forall_forall in TA. auto. }
  assert (FrameOld : forall r, valid h r ->
            mutex (base h4 r) = mutex (base h r)).
  { intros r V. apply Frame; intros Hr.
    - rewrite Forall_forall in FA. apply (FA r Hr V).
    - rewrite Forall_forall in Fnew. destruct (Fnew r Hr) as (_ & N & _). auto. }
  assert (Knew : forall k,
            In k (keys h4 s_new)
            <-> In k (next_keys (all_actions self) (keys h s_old))).
  { intros k. rewrite K34. unfold s_new. rewrite pyset_of_list_keys.
    rewrite K23, K12, Eeffs. unfold A.
    apply (level_effnodes_keys h h1 s_old _ addrs k F1). }
  assert (OkKeep : forall T L, level_ok h T L -> level_ok h4 T L).
  { intros T L [V Ty Lo]. constructor.
    - apply (heap_le_Forall_valid h h4); auto.
    - exact Ty.
    - intros r Hr. rewrite FrameOld; [apply Lo; exact Hr|].
      rewrite Forall_forall in V; auto. }
  assert (SetKeep : forall L, Forall (valid h) L -> is_pyset h L ->
            is_pyset h4 L).
  { intros L V S. unfold is_pyset. rewrite (heap_le_keys h h4); auto. }
  assert (SymKeep : forall r, ~ In r A -> ~ In r s_new -> sym_at h r ->
            sym_at h4 r).
  { intros r NA NS Sy x Hx. rewrite Frame in Hx; auto.
    apply Grow. apply Sy. exact Hx. }
  assert (SetNew : is_pyset h4 s_new).
  { unfold is_pyset. rewrite K34. apply pyset_of_list_set. }
  assert (SetA : distinct_actions (all_actions self) -> is_pyset h4 A).
  { intros D. unfold is_pyset. rewrite K14.
    eapply admitted_level_set; [|exact F1].
    apply distinct_actions_filter. exact D. }
  assert (OkNew : level_ok h4 PgNode_s_t s_new).
  { constructor.
    - apply (heap_le_Forall_valid h3 h4); auto.
    - exact Tnew.
    - apply I4. }
  assert (OkA : level_ok h4 PgNode_a_t A).
  { constructor.
    - apply (heap_le_Forall_valid h1 h4); auto.
      eapply heap_le_trans; [exact L13 | exact L4].
    - exact TA.
    - intros r Hr. rewrite FrameA; auto. apply (mi_local _ _ _ I2). exact Hr. }
  assert (Inv4 : graph_inv U self4).
  { constructor.
    - exact (mi_wf _ _ _ I4).
    - change (s_levels self4) with (s_levels self ++ [s_new]).
      change (a_levels self4) with (a_levels self ++ [A]).
      rewrite !length_app. simpl. lia.
    - change (s_levels self4) with (s_levels self ++ [s_new]).
      apply Forall_app. split.
      + eapply Forall_impl; [|exact Sok]. intros L. apply OkKeep.
      + constructor; [exact OkNew | constructor].
    - change (s_levels self4) with (s_levels self ++ [s_new]).
      apply Forall_app. split.
      + apply Forall_forall. intros L HL. apply SetKeep.
        * rewrite Forall_forall in Sok. apply (Sok L HL).
        * rewrite Forall_forall in Sset. auto.
      + constructor; [exact SetNew | constructor].
    - change (a_levels self4) with (a_levels self ++ [A]).
      apply Forall_app. split.
      + eapply Forall_impl; [|exact Aok]. intros L. apply OkKeep.
      + constructor; [exact OkA | constructor].
    - intros D. change (a_levels self4) with (a_levels self ++ [A]).
      apply Forall_app. split.
      + apply Forall_forall. intros L HL. apply SetKeep.
        * rewrite Forall_forall in Aok. apply (Aok L HL).
        * specialize (Aset D). rewrite Forall_forall in Aset. auto.
      + constructor; [exact (SetA D) | constructor].
    - intros r T. change (heap self4) with h4.
      destruct (in_dec ref_eq_dec r s_new) as [Hr|Hr].
      + apply (mi_sym _ _ _ I4); auto. apply pyset_of_list_set.
      + apply SymKeep; auto.
    - intros D r T. change (heap self4) with h4.
      destruct (in_dec ref_eq_dec r A) as [Hr|Hr].
      + intros x Hx. rewrite FrameA in Hx; auto. apply Grow2.
        apply (mi_sym _ _ _ I2); auto.
        eapply admitted_level_set; [|exact F1].
        apply distinct_actions_filter. exact D.
      + apply SymKeep; auto.
    - intros i Lv1 Lv2. change (s_levels self4) with (s_levels self ++ [s_new]).
      change (heap self4) with h4. intros H1 H2.
      destruct (Nat.lt_ge_cases (S i) (List.length (s_levels self)))
        as [Lt|Ge].
      + rewrite nth_error_app1 in H1, H2 by lia.
        assert (V1 : Forall (valid h) Lv1).
        { apply nth_error_In in H1. rewrite Forall_forall in Sok.
          apply (Sok Lv1 H1). }
        assert (V2 : Forall (valid h) Lv2).
        { apply nth_error_In in H2. rewrite Forall_forall in Sok.
          apply (Sok Lv2 H2). }
        rewrite (heap_le_keys h h4 Lv1), (heap_le_keys h h4 Lv2); auto.
        apply (Chain i); auto.
      + assert (Ei : i = n).
        { assert (S i < List.length (s_levels self ++ [s_new]))%nat
            by (apply nth_error_Some; congruence).
          rewrite length_app in H. simpl in H. lia. }
        subst i. rewrite nth_error_app1 in H1 by lia.
        replace (S n) with (List.length (s_levels self)) in H2 by lia.
        rewrite nth_error_app_last in H2.
        rewrite Eold in H1. inversion H1; inversion H2; subst Lv1 Lv2.
        rewrite (heap_le_keys h h4 s_old); [|auto|apply OkOld].
        intros k Hk. apply Knew. apply (Last s_old eq_refl). exact Hk.
    - intros L. change (s_levels self4) with (s_levels self ++ [s_new]).
      change (a_levels self4) with (a_levels self ++ [A]).
      change (heap self4) with h4. change (all_actions self4)
        with (all_actions self).
      rewrite length_app. simpl List.length.
      replace (List.length (a_levels self) + 1)%nat
        with (List.length (s_levels self)) by (fold n; lia).
      rewrite nth_error_app_last. intros HL. inversion HL; subst L.
      assert (Inc : incl (keys h s_old) (keys h4 s_new)).
      { intros k Hk. apply Knew. apply (Last s_old eq_refl). exact Hk. }
      split.
      + intros k Hk. apply Knew in Hk.
        eapply next_keys_mono; [exact Inc | exact Hk].
      + intros k Hk. apply Knew in Hk. apply Bound.
        eapply next_keys_bound. exact Hk.
    - exact Bound. }
  exists self4, s_old, s_new. constructor.
  - exact Inv4.
  - exact Eold.
  - reflexivity.
  - change (a_levels self4) with (a_levels self ++ [A]).
    rewrite length_app. simpl. lia.
  - reflexivity.
  - reflexivity.
  - exact L04.
  - exact Knew.
  - intros fuel. change (a_levels self4) with (a_levels self ++ [A]).
    rewrite length_app. simpl List.length. fold n.
    replace (Z.of_nat (n + 1)) with (Z.of_nat n + 1) by lia.
    rewrite create_graph_loop_S.
    rewrite E1. cbn [bind]. rewrite GA. rewrite E2. cbn [bind]. cbv zeta.
    rewrite E3. cbn [bind]. rewrite Gnew. rewrite E4. cbn [bind].
    rewrite Gold4.
    replace (py_getitem (s_levels self4) (Z.of_nat n + 1)) with (Some s_new)
      by (symmetry; exact Gnew).
    reflexivity.
Qed.

(** ** The first literal level *)

Lemma s_level_add_all_spec (lits : list Expr) (flag : bool) :
  forall (self : PlanningGraph) (s : pyset),
    s_levels self = [s] ->
    s_level_add_all self 0 lits flag
    = Ok (with_s_levels
            (with_heap self (snd (add_s_nodes lits flag s (heap self))))
            [fst (add_s_nodes lits flag s (heap self))]).
Proof.
  induction lits as [|p lits IH]; intros self s E.
  - simpl. destruct self; simpl in *. subst. reflexivity.
  - rewrite add_s_nodes_cons. simpl s_level_add_all.
    unfold s_level_add. rewrite E. simpl nth_error. cbv iota.
    destruct (new_PgNode_s p flag (heap self)) as [n h1] eqn:En.
    cbn [bind]. simpl firstn. simpl skipn. simpl app.
    rewrite (IH _ (pyset_add h1 s n)); reflexivity.
Qed.

Lemma decode_state_from_incl (fluent_map : list Expr) :
  forall (state : string) (idx : nat) (fs0 fs1 : FluentState),
    decode_state_from state fluent_map idx fs0 = inl fs1 ->
    incl (pos fs0) fluent_map -> incl (neg fs0) fluent_map ->
    incl (pos fs1) fluent_map /\ incl (neg fs1) fluent_map.
Proof.
  induction state as [|c state IH]; intros idx fs0 fs1 E Hp Hn; simpl in E.
  - inversion E; subst. auto.
  - destruct (nth_error fluent_map idx) as [f|] eqn:Ef; [|discriminate].
    apply nth_error_In in Ef.
    apply IH in E; auto; destruct (Ascii.eqb c "T"); simpl; auto.
    + apply incl_app; auto. intros x [<-|[]]. exact Ef.
    + apply incl_app; auto. intros x [<-|[]]. exact Ef.
Qed.

Lemma decode_state_incl (state : string) (fluent_map : list Expr)
    (fs1 : FluentState) :
  decode_state state fluent_map = inl fs1 ->
  incl (pos fs1) fluent_map /\ incl (neg fs1) fluent_map.
Proof.
  intros E. eapply decode_state_from_incl; eauto; intros x [].
Qed.

(** The persistence actions carry each literal over a fluent of the state
    map to the next level. *)
Lemma noop_actions_carry (literal_list : list Expr) (f : Expr) (b : bool) :
  In f literal_list ->
  exists act, In act (noop_actions literal_list)
              /\ pre_keys act = [KeyS f b] /\ eff_keys act = [KeyS f b].
Proof.
  induction literal_list as [|g l IH]; intros H; [contradiction|].
  destruct H as [->|H].
  - destruct b.
    + exists (mkAction "Noop_pos" [f] [f] [] [f] []). simpl. auto.
    + exists (mkAction "Noop_neg" [f] [] [f] [] [f]). simpl. auto.
  - destruct (IH H) as (act & Ha & E). exists act. simpl. auto.
Qed.

Lemma next_keys_noops (actions : list Action) (literal_list : list Expr)
    (K : list node_key) (f : Expr) (b : bool) :
  incl (noop_actions literal_list) actions ->
  In f literal_list -> In (KeyS f b) K ->
  In (KeyS f b) (next_keys actions K).
Proof.
  intros I Hf Hk.
  destruct (noop_actions_carry literal_list f b Hf) as (act & Ha & Ep & Ee).
  unfold next_keys. apply in_flat_map. exists act. split.
  - apply filter_In. split; [apply I; exact Ha|].
    apply applicable_incl. rewrite Ep. intros k [<-|[]]. exact Hk.
  - rewrite Ee. left. reflexivity.
Qed.

Lemma literal_keys_In (positive negative : list Expr) (k : node_key) :
  In k (literal_keys positive negative) ->
  exists f b, k = KeyS f b /\ In f (if b then positive else negative).
Proof.
  unfold literal_keys. rewrite in_app_iff, !in_map_iff.
  intros [(f & <- & Hf)|(f & <- & Hf)].
  - exists f, true. auto.
  - exists f, false. auto.
Qed.

(** The statements of create_graph before its loop. *)
Lemma create_graph_init (U : list node_key) (self : PlanningGraph) :
  s_levels self = [] -> a_levels self = [] ->
  wf_heap (heap self) -> (forall r, sym_at (heap self) r) ->
  (forall K, incl (literal_keys (pos (fs self)) (neg (fs self))) K ->
             incl (literal_keys (pos (fs self)) (neg (fs self)))
                  (next_keys (all_actions self) K)) ->
  incl (literal_keys (pos (fs self)) (neg (fs self))) U ->
  incl (flat_map eff_keys (all_actions self)) U ->
  exists self2 s0,
    graph_inv U self2
    /\ s_levels self2 = [s0] /\ a_levels self2 = []
    /\ all_actions self2 = all_actions self
    /\ problem self2 = problem self
    /\ heap_le (heap self) (heap self2)
    /\ (forall k, In k (keys (heap self2) s0)
                  <-> In k (literal_keys (pos (fs self)) (neg (fs self))))
    /\ forall fuel,
         create_graph fuel self = create_graph_loop fuel 0 self2.
Proof.
  intros Es Ea W Sy Carry HU Bound.
  pose proof (add_s_nodes_spec (pos (fs self)) true [] (heap self) W
                (Forall_nil _)) as H1.
  destruct (add_s_nodes (pos (fs self)) true [] (heap self)) as [s1 h1] eqn:E1.
  simpl in H1. destruct H1 as (W1 & L1 & B1 & V1 & I1 & K1 & S1).
  pose proof (add_s_nodes_spec (neg (fs self)) false s1 h1 W1 V1) as H2.
  destruct (add_s_nodes (neg (fs self)) false s1 h1) as [s2 h2] eqn:E2.
  simpl in H2. destruct H2 as (W2 & L2 & B2 & V2 & I2 & K2 & S2).
  set (self2 := with_s_levels (with_heap self h2) [s2]).
  assert (L02 : heap_le (heap self) h2) by (eapply heap_le_trans; eauto).
  assert (B02 : forall r, base h2 r = base (heap self) r).
  { intros r. rewrite B2. apply B1. }
  assert (Ks : forall k, In k (keys h2 s2)
                 <-> In k (literal_keys (pos (fs self)) (neg (fs self)))).
  { intros k. rewrite K2, K1. unfold literal_keys. rewrite in_app_iff.
    simpl. tauto. }
  assert (Fs : forall r, In r s2 ->
                 type_of r = PgNode_s_t /\ ~ valid (heap self) r).
  { intros r Hr. apply I2 in Hr as [Hr|[T N]].
    - apply I1 in Hr as [[]|Hr]. exact Hr.
    - split; auto. apply (heap_le_not_valid (heap self) h1); auto. }
  assert (Run : forall fuel,
            create_graph fuel self = create_graph_loop fuel 0 self2).
  { intros fuel. unfold create_graph. rewrite Es, Ea. simpl negb.
    cbn [orb]. cbv zeta. simpl app.
    rewrite (s_level_add_all_spec _ _ _ []); [|reflexivity].
    cbn [bind]. simpl heap. simpl fs. rewrite E1. simpl fst. simpl snd.
    rewrite (s_level_add_all_spec _ _ _ s1); [|reflexivity].
    cbn [bind]. simpl heap. rewrite E2. reflexivity. }
  exists self2, s2.
  split; [|split; [reflexivity|split; [exact Ea|split; [reflexivity|
          split; [reflexivity|split; [exact L02|split; [exact Ks|exact Run]]]]]]].
  constructor.
  - exact W2.
  - simpl. rewrite Ea. reflexivity.
  - constructor; [|constructor]. constructor.
    + exact V2.
    + apply Forall_forall. intros r Hr. apply (Fs r Hr).
    + intros r Hr. simpl. rewrite B02.
      rewrite (wf_fresh _ W r); [intros x []|]. apply (Fs r Hr).
  - constructor; [|constructor]. simpl. apply S2, S1. constructor.
  - simpl. rewrite Ea. constructor.
  - intros _. simpl. rewrite Ea. constructor.
  - intros r _ x Hx. simpl in *. rewrite B02 in *. apply Sy. exact Hx.
  - intros _ r _ x Hx. simpl in *. rewrite B02 in *. apply Sy. exact Hx.
  - intros i La Lb Ha Hb. simpl in Hb. destruct i; discriminate.
  - simpl. rewrite Ea. simpl. intros L HL. inversion HL; subst L. split.
    + intros k Hk. apply Ks in Hk. apply (Carry (keys h2 s2)); auto.
      intros k' Hk'. apply Ks. exact Hk'.
    + intros k Hk. apply HU. apply Ks. exact Hk.
  - exact Bound.
Qed.

(** ** The loop of create_graph *)

Lemma create_graph_loop_inv (U : list node_key) :
  forall (fuel : nat) (self : PlanningGraph),
    graph_inv U self ->
    exists self',
      (create_graph_loop fuel (Z.of_nat (List.length (a_levels self))) self
       = Ok self'
       \/ create_graph_loop fuel (Z.of_nat (List.length (a_levels self))) self
          = OutOfFuel self')
      /\ graph_inv U self'
      /\ all_actions self' = all_actions self
      /\ problem self' = problem self.
Proof.
  induction fuel as [|fuel IH]; intros self Inv.
  - exists self. simpl. auto.
  - destruct (create_graph_loop_step U self Inv)
      as (self4 & s_old & s_new & St).
    rewrite (ls_run _ _ _ _ _ St).
    destruct (pyset_eqb (heap self4) s_new s_old).
    + exists self4. split; [left; reflexivity|].
      split; [apply St|]. split; apply St.
    + destruct (IH self4 (ls_inv _ _ _ _ _ St)) as (self' & R & Inv' & Ea & Ep).
      exists self'. split; [exact R|]. split; [exact Inv'|].
      split; [rewrite Ea | rewrite Ep]; apply St.
Qed.

Lemma keys_length (h : Heap) (s : list ref) :
  List.length (keys h s) = List.length s.
Proof. apply length_map. Qed.

(** A literal level that differs from the one before it is larger. *)
Lemma pyset_eqb_false_grows (h : Heap) (s_old s_new : pyset) :
  is_pyset h s_old -> incl (keys h s_old) (keys h s_new) ->
  pyset_eqb h s_new s_old = false ->
  (List.length s_old < List.length s_new)%nat.
Proof.
  intros N I E.
  pose proof (NoDup_incl_length N I) as Le. rewrite !keys_length in Le.
  destruct (Nat.eq_dec (List.length s_new) (List.length s_old)) as [El|Ne];
    [|lia].
  exfalso. unfold pyset_eqb in E. rewrite El, Nat.eqb_refl in E. simpl in E.
  assert (issubset h s_new s_old = true); [|congruence].
  apply issubset_keys. apply NoDup_length_incl; auto.
  rewrite !keys_length. lia.
Qed.

Lemma level_bounded (U : list node_key) (self : PlanningGraph) (s : pyset) :
  graph_inv U self ->
  nth_error (s_levels self) (List.length (a_levels self)) = Some s ->
  (List.length s <= List.length U)%nat.
Proof.
  intros Inv E. rewrite <- (keys_length (heap self)).
  apply NoDup_incl_length.
  - pose proof (gi_s_set _ _ Inv) as S. rewrite Forall_forall in S.
    apply S. eapply nth_error_In; eauto.
  - apply (gi_last _ _ Inv s E).
Qed.

Lemma create_graph_loop_total (U : list node_key) :
  forall (fuel : nat) (self : PlanningGraph) (s_last : pyset),
    graph_inv U self ->
    nth_error (s_levels self) (List.length (a_levels self)) = Some s_last ->
    (List.length U - List.length s_last < fuel)%nat ->
    exists self',
      create_graph_loop fuel (Z.of_nat (List.length (a_levels self))) self
      = Ok self'
      /\ graph_inv U self' /\ leveled self'
      /\ all_actions self' = all_actions self
      /\ problem self' = problem self.
Proof.
  induction fuel as [|fuel IH]; intros self s_last Inv El Lt; [lia|].
  destruct (create_graph_loop_step U self Inv)
    as (self4 & s_old & s_new & St).
  pose proof (ls_old _ _ _ _ _ St) as Eo. rewrite El in Eo.
  inversion Eo; subst s_old. clear Eo.
  pose proof (ls_inv _ _ _ _ _ St) as Inv4.
  assert (En : nth_error (s_levels self4) (List.length (a_levels self4))
               = Some s_new).
  { rewrite (ls_s_levels _ _ _ _ _ St), (ls_a_len _ _ _ _ _ St).
    replace (S (List.length (a_levels self)))
      with (List.length (s_levels self))
      by (rewrite (gi_len _ _ Inv); reflexivity).
    apply nth_error_app_last. }
  assert (Eo : nth_error (s_levels self4) (List.length (a_levels self4) - 1)
               = Some s_last).
  { rewrite (ls_s_levels _ _ _ _ _ St), (ls_a_len _ _ _ _ _ St).
    replace (S (List.length (a_levels self)) - 1)%nat
      with (List.length (a_levels self)) by lia.
    rewrite nth_error_app1; [exact El|].
    rewrite (gi_len _ _ Inv). lia. }
  rewrite (ls_run _ _ _ _ _ St).
  destruct (pyset_eqb (heap self4) s_new s_last) eqn:Eq.
  - exists self4. split; [reflexivity|]. split; [exact Inv4|].
    split; [|split; apply St].
    exists s_last, s_new. split; [|auto].
    intros Nil. pose proof (ls_a_len _ _ _ _ _ St) as La.
    rewrite Nil in La. discriminate.
  - assert (Gr : (List.length s_last < List.length s_new)%nat).
    { apply (pyset_eqb_false_grows (heap self4)); auto.
      - pose proof (gi_s_set _ _ Inv4) as S. rewrite Forall_forall in S.
        apply S. eapply nth_error_In; exact Eo.
      - apply (gi_chain _ _ Inv4 (List.length (a_levels self))).
        + rewrite (ls_a_len _ _ _ _ _ St) in Eo.
          replace (S (List.length (a_levels self)) - 1)%nat
            with (List.length (a_levels self)) in Eo by lia.
          exact Eo.
        + rewrite (ls_a_len _ _ _ _ _ St) in En. exact En. }
    pose proof (level_bounded U self4 s_new Inv4 En) as Bd.
    destruct (IH self4 s_new Inv4 En) as (self' & R & Inv' & Lv & Ea & Ep);
      [lia|].
    exists self'. split; [exact R|]. split; [exact Inv'|].
    split; [exact Lv|]. split; [rewrite Ea | rewrite Ep]; apply St.
Qed.

(** ** The constructor *)

Lemma wf_heap_empty : wf_heap empty_heap.
Proof.
  constructor; try (intros [a|a] V; simpl in V; lia);
    try (intros a V; simpl in V; lia).
  intros [a|a] _; reflexivity.
Qed.

Lemma sym_at_empty (r : ref) : sym_at empty_heap r.
Proof. intros x Hx. destruct r; simpl in Hx; contradiction. Qed.

(** What every run of the constructor goes through: the first literal level,
    then the loop, entered with a graph that satisfies the invariant. *)
Lemma PlanningGraph_init_loop (prob : Problem) (state : string)
    (serial_planning : bool) (fs0 : FluentState) :
  decode_state state (state_map prob) = inl fs0 ->
  exists self2 s0,
    graph_inv (universe fs0 (combined_actions prob)) self2
    /\ s_levels self2 = [s0] /\ a_levels self2 = []
    /\ all_actions self2 = combined_actions prob
    /\ problem self2 = prob
    /\ forall fuel,
         PlanningGraph_init fuel prob state serial_planning
         = create_graph_loop fuel 0 self2.
Proof.
  intros E.
  set (self0 := mkPlanningGraph prob fs0 serial_planning
                  (combined_actions prob) [] [] empty_heap).
  destruct (decode_state_incl _ _ _ E) as [Ip In_].
  destruct (create_graph_init (universe fs0 (combined_actions prob)) self0)
    as (self2 & s0 & Inv & Es & Ea & Eact & Ep & _ & _ & Run);
    try reflexivity.
  - apply wf_heap_empty.
  - apply sym_at_empty.
  - intros K HK k Hk. simpl in *.
    destruct (literal_keys_In _ _ _ Hk) as (f & b & -> & Hf).
    apply (next_keys_noops _ (state_map prob)).
    + unfold combined_actions. apply incl_appr, incl_refl.
    + destruct b; auto.
    + apply HK. exact Hk.
  - simpl. unfold universe. apply incl_appl, incl_refl.
  - simpl. unfold universe. apply incl_appr, incl_refl.
  - exists self2, s0. split; [exact Inv|]. split; [exact Es|].
    split; [exact Ea|]. split; [exact Eact|]. split; [exact Ep|].
    intros fuel. unfold PlanningGraph_init. rewrite E. apply Run.
Qed.

(** The graph the constructor leaves, whatever the loop budget of the model:
    the loop invariant holds, unless the state could not be decoded. *)
Lemma PlanningGraph_init_inv (fuel : nat) (prob : Problem) (state : string)
    (serial_planning : bool) :
  match decode_state state (state_map prob) with
  | inl fs0 =>
      exists self',
        (PlanningGraph_init fuel prob state serial_planning = Ok self'
         \/ PlanningGraph_init fuel prob state serial_planning
            = OutOfFuel self')
        /\ graph_inv (universe fs0 (combined_actions prob)) self'
        /\ all_actions self' = combined_actions prob
        /\ problem self' = prob
  | inr e =>
      PlanningGraph_init fuel prob state serial_planning
      = Raise e (mkPlanningGraph prob (mkFluentState [] []) serial_planning
                                 [] [] [] empty_heap)
  end.
Proof.
  destruct (decode_state state (state_map prob)) as [fs0|e] eqn:E.
  - destruct (PlanningGraph_init_loop prob state serial_planning fs0 E)
      as (self2 & s0 & Inv & Es & Ea & Eact & Ep & Run).
    destruct (create_graph_loop_inv _ fuel self2 Inv)
      as (self' & R & Inv' & Ea' & Ep').
    rewrite Ea in R. simpl in R. rewrite <- Run in R.
    exists self'. split; [exact R|]. split; [exact Inv'|].
    split; congruence.
  - unfold PlanningGraph_init. rewrite E. reflexivity.
Qed.

(** The heap of the graph the constructor leaves has no dangling reference. *)
Lemma built_heap_wf (fuel : nat) (prob : Problem) (state : string)
    (serial_planning : bool) :
  wf_heap (heap (state_of (PlanningGraph_init fuel prob state serial_planning))).
Proof.
  pose proof (PlanningGraph_init_inv fuel prob state serial_planning) as H.
  destruct (decode_state state (state_map prob)) as [fs0|e].
  - destruct H as (self' & [R|R] & Inv & _); rewrite R; apply Inv.
  - rewrite H. apply wf_heap_empty.
Qed.

(** ** Literal levels grow *)

(** C7. In every graph the constructor builds, each literal level is a subset
    of the next one. *)
Theorem literal_levels_grow (fuel : nat) (prob : Problem) (state : string)
    (serial_planning : bool) (self : PlanningGraph) :
  PlanningGraph_init fuel prob state serial_planning = Ok self ->
  forall i s1 s2,
    nth_error (s_levels self) i = Some s1 ->
    nth_error (s_levels self) (S i) = Some s2 ->
    issubset (heap self) s1 s2 = true.
Proof.
  intros R i s1 s2 H1 H2.
  pose proof (PlanningGraph_init_inv fuel prob state serial_planning) as H.
  destruct (decode_state state (state_map prob)) as [fs0|e].
  - destruct H as (self' & [R'|R'] & Inv & _); rewrite R in R';
      [|discriminate].
    inversion R'; subst self'.
    apply issubset_keys. apply (gi_chain _ _ Inv i); assumption.
  - rewrite R in H. discriminate.
Qed.

Lemma literal_levels_grow_witness :
  PlanningGraph_init 2 Samples.two_goals "TT" true = Ok Samples.two_goals_graph
  /\ issubset (heap Samples.two_goals_graph) [RefS 0; RefS 1] [RefS 3; RefS 7]
     = true.
Proof.
  assert (R : PlanningGraph_init 2 Samples.two_goals "TT" true
              = Ok Samples.two_goals_graph) by (vm_compute; reflexivity).
  split; [exact R|].
  apply (literal_levels_grow 2 Samples.two_goals "TT" true
           Samples.two_goals_graph R 0%nat);
    vm_compute; reflexivity.
Defined.

(** ** Termination *)

(** C6. With a loop budget beyond a bound that depends on the problem and the
    state only, the constructor halts: it returns a graph whose last two
    literal levels are equal sets, or, when the state string is longer than
    the state map, the error of the decoder; the budget is never used up. *)
Theorem create_graph_terminates (prob : Problem) (state : string)
    (serial_planning : bool) :
  exists bound, forall fuel, (bound <= fuel)%nat ->
    match PlanningGraph_init fuel prob state serial_planning with
    | Ok self => leveled self
    | Raise e _ => decode_state state (state_map prob) = inr e
    | OutOfFuel _ => False
    end.
Proof.
  destruct (decode_state state (state_map prob)) as [fs0|e] eqn:E.
  - destruct (PlanningGraph_init_loop prob state serial_planning fs0 E)
      as (self2 & s0 & Inv & Es & Ea & Eact & Ep & Run).
    exists (S (List.length (universe fs0 (combined_actions prob)))).
    intros fuel Hf.
    destruct (create_graph_loop_total _ fuel self2 s0 Inv)
      as (self' & R & _ & Lv & _).
    + rewrite Es, Ea. reflexivity.
    + lia.
    + rewrite Ea in R. simpl in R. rewrite Run, R. exact Lv.
  - exists 0%nat. intros fuel _. unfold PlanningGraph_init. rewrite E.
    reflexivity.
Qed.

(** ** Symmetry of the mutex relation *)

Lemma sibling_is_mutex_sym (h : Heap) (T : node_type) (L : list ref)
    (a b : ref) :
  level_ok h T L -> is_pyset h L -> sym_at h a -> sym_at h b ->
  In a L -> In b L -> is_mutex h a b = is_mutex h b a.
Proof.
  intros Ok S Sa Sb Ha Hb. apply eq_true_iff_eq. rewrite !is_mutex_true.
  split; intros M; apply pyset_mem_In.
  - apply Sa. apply (pyset_exact h L); auto. apply Ok. exact Ha.
  - apply Sb. apply (pyset_exact h L); auto. apply Ok. exact Hb.
Qed.

Lemma graph_inv_literal_symmetric (U : list node_key) (self : PlanningGraph) :
  graph_inv U self -> literal_mutex_symmetric self.
Proof.
  intros Inv. split.
  - intros r1 r2 T1 T2. split; intros H.
    + apply (gi_sym_s _ _ Inv r2 T2). exact H.
    + apply (gi_sym_s _ _ Inv r1 T1). exact H.
  - intros L a b HL Ha Hb.
    pose proof (gi_s_ok _ _ Inv) as Ok. rewrite Forall_forall in Ok.
    pose proof (gi_s_set _ _ Inv) as St. rewrite Forall_forall in St.
    pose proof (lv_type _ _ _ (Ok L HL)) as Ty. rewrite Forall_forall in Ty.
    apply (sibling_is_mutex_sym _ PgNode_s_t L); auto;
      apply (gi_sym_s _ _ Inv); auto.
Qed.



(** Mutex sets of literal nodes are symmetric in every graph the constructor
    leaves, at each iteration of its loop and at its end. *)
Lemma literal_mutex_symmetric_built (fuel : nat) (prob : Problem)
    (state : string) (serial_planning : bool) :
  literal_mutex_symmetric
    (state_of (PlanningGraph_init fuel prob state serial_planning)).
Proof.
  pose proof (PlanningGraph_init_inv fuel prob state serial_planning) as H.
  destruct (decode_state state (state_map prob)) as [fs0|e].
  - destruct H as (self' & [R|R] & Inv & _); rewrite R;
      eapply graph_inv_literal_symmetric; eauto.
  - rewrite H. simpl. split.
    + intros [a|a] [b|b]; simpl; tauto.
    + intros L a b [].
Qed.




Lemma add_action_level_admits_and_connects_witness :
  py_getitem (s_levels Samples.two_goals_start) 0 = Some [RefS 0; RefS 1]
  /\ wf_heap (heap Samples.two_goals_start)
  /\ Forall (valid (heap Samples.two_goals_start)) [RefS 0; RefS 1]
  /\ exists self' addrs,
       add_action_level Samples.two_goals_start 0 = Ok self'
       /\ a_levels self'
          = a_levels Samples.two_goals_start ++ [map RefA addrs]
       /\ s_levels self' = s_levels Samples.two_goals_start
       /\ (forall act h1, wf_heap h1 ->
             heap_le (heap Samples.two_goals_start) h1 ->
             candidate_admitted h1 [RefS 0; RefS 1] act
             = applicable (keys (heap Samples.two_goals_start)
                                [RefS 0; RefS 1]) act)
       /\ map (fun a => action (a_store (heap self') a)) addrs
          = filter (applicable (keys (heap Samples.two_goals_start)
                                     [RefS 0; RefS 1]))
                   (all_actions Samples.two_goals_start)
       /\ (forall a, In a addrs ->
             issubset (heap self') (prenodes (a_store (heap self') a))
                      [RefS 0; RefS 1] = true
             /\ forall l, In l [RefS 0; RefS 1] ->
                  pyset_mem (heap self') l
                            (parents (base (heap self') (RefA a))) = true
                  /\ pyset_mem (heap self') (RefA a)
                       (children (base (heap self') l)) = true).
Proof.
  assert (G : py_getitem (s_levels Samples.two_goals_start) 0
              = Some [RefS 0; RefS 1]) by (vm_compute; reflexivity).
  assert (W : wf_heap (heap Samples.two_goals_start))
    by (apply (built_heap_wf 0 Samples.two_goals "TT" true)).
  assert (V : Forall (valid (heap Samples.two_goals_start)) [RefS 0; RefS 1]).
  { constructor; [vm_compute; lia|].
    constructor; [vm_compute; lia|]. constructor. }
  split; [exact G|]. split; [exact W|]. split; [exact V|].
  exact (add_action_level_admits_and_connects Samples.two_goals_start 0
           [RefS 0; RefS 1] G W V).
Defined.

Lemma competing_needs_all_or_nothing_witness :
  py_getitem (s_levels Samples.toggle_level1) 1 = Some [RefS 2; RefS 4]
  /\ wf_heap (heap Samples.toggle_level1)
  /\ Forall (valid (heap Samples.toggle_level1)) [RefS 2; RefS 4]
  /\ is_pyset (heap Samples.toggle_level1) [RefS 2; RefS 4]
  /\ any_mutex (heap Samples.toggle_level1) [RefS 2; RefS 4] = true
  /\ exists self1 addrs,
       add_action_level Samples.toggle_level1 1 = Ok self1
       /\ a_levels self1
          = a_levels Samples.toggle_level1 ++ [map RefA addrs]
       /\ any_mutex (heap self1) [RefS 2; RefS 4]
          = any_mutex (heap Samples.toggle_level1) [RefS 2; RefS 4]
       /\ (forall a1 a2, In a1 addrs -> In a2 addrs ->
             competing_needs_mutex self1 (a_store (heap self1) a1)
                                   (a_store (heap self1) a2)
             = any_mutex (heap self1) [RefS 2; RefS 4])
       /\ (any_mutex (heap self1) [RefS 2; RefS 4] = true ->
           exists self2,
             update_a_mutex self1 (map RefA addrs) = Ok self2
             /\ forall i j a1 a2, (i < j)%nat ->
                  nth_error addrs i = Some a1 -> nth_error addrs j = Some a2 ->
                  is_mutex (heap self2) (RefA a1) (RefA a2) = true
                  /\ is_mutex (heap self2) (RefA a2) (RefA a1) = true).
Proof.
  assert (G : py_getitem (s_levels Samples.toggle_level1) 1
              = Some [RefS 2; RefS 4]) by (vm_compute; reflexivity).
  assert (W : wf_heap (heap Samples.toggle_level1))
    by (apply (built_heap_wf 1 Samples.toggle "T" true)).
  assert (V : Forall (valid (heap Samples.toggle_level1)) [RefS 2; RefS 4]).
  { constructor; [vm_compute; lia|].
    constructor; [vm_compute; lia|]. constructor. }
  assert (S : is_pyset (heap Samples.toggle_level1) [RefS 2; RefS 4]).
  { unfold is_pyset. vm_compute.
    repeat (constructor; [simpl; intuition discriminate|]). constructor. }
  split; [exact G|]. split; [exact W|]. split; [exact V|]. split; [exact S|].
  split; [vm_compute; reflexivity|].
  exact (competing_needs_all_or_nothing Samples.toggle_level1 1
           [RefS 2; RefS 4] G W V S).
Defined.

(** ** h_levelsum on built graphs *)

Lemma h_levelsum_goals_total (h : Heap) (a : nat) (i : Z) (goals : list Expr)
    (v : levelsum_vars) :
  exists v', h_levelsum_goals h (RefS a) i goals v = inl v'.
Proof.
  induction goals as [|g goals IH]; simpl; eauto.
  destruct (Expr_eqb (symbol (s_store h a)) g); auto.
  destruct (negb (Expr_in g (goal_checked v))); eauto.
Qed.

Lemma h_levelsum_nodes_total (h : Heap) (i : Z) (goals : list Expr)
    (nodes : list ref) :
  Forall (fun r => type_of r = PgNode_s_t) nodes ->
  forall v, exists v', h_levelsum_nodes h i goals nodes v = inl v'.
Proof.
  induction 1 as [|n nodes Tn Tl IH]; intros v; simpl; eauto.
  destruct n as [a|a]; [|discriminate].
  destruct (h_levelsum_goals_total h a i goals v) as [v1 E]. rewrite E.
  destruct (goal_check v1); eauto.
Qed.

Lemma h_levelsum_layers_total (h : Heap) (goals : list Expr)
    (levels : list pyset) :
  Forall (Forall (fun r => type_of r = PgNode_s_t)) levels ->
  forall i v, exists v', h_levelsum_layers h goals i levels v = inl v'.
Proof.
  induction 1 as [|l levels Tl Tr IH]; intros i v; simpl; eauto.
  destruct (h_levelsum_nodes_total h i goals l Tl
              (mkVars (level_sum v) (goal_checked v) false)) as [v1 E].
  rewrite E. apply IH.
Qed.

(** On a graph the constructor returns, h_levelsum returns an integer, and
    that integer is not negative. *)
Lemma h_levelsum_built (fuel : nat) (prob : Problem) (state : string)
    (serial_planning : bool) (self : PlanningGraph) :
  PlanningGraph_init fuel prob state serial_planning = Ok self ->
  exists n, h_levelsum self = inl n /\ 0 <= n.
Proof.
  intros R.
  pose proof (PlanningGraph_init_inv fuel prob state serial_planning) as H.
  destruct (decode_state state (state_map prob)) as [fs0|e];
    [|rewrite R in H; discriminate].
  destruct H as (self' & [R'|R'] & Inv & _); rewrite R in R'; [|discriminate].
  inversion R'; subst self'.
  assert (T : Forall (Forall (fun r => type_of r = PgNode_s_t))
                     (s_levels self)).
  { eapply Forall_impl; [|exact (gi_s_ok _ _ Inv)].
    intros L Ok. apply Ok. }
  destruct (h_levelsum_layers_total (heap self) (goal (problem self))
              (s_levels self) T 0 (mkVars 0 [] false)) as [v E].
  exists (level_sum v). split.
  - unfold h_levelsum. rewrite E. reflexivity.
  - apply (h_levelsum_nonneg self). unfold h_levelsum. rewrite E. reflexivity.
Qed.

(** C5. On every graph the constructor returns, h_levelsum returns an integer
    that is not negative; but a goal whose symbol is at level 0 need not
    contribute 0: with the goals P and Q both at level 0 of the sample graph,
    the sum returned is 1. *)
Theorem h_levelsum_goal_at_level_0_counted_later :
  (forall fuel prob state serial_planning self,
      PlanningGraph_init fuel prob state serial_planning = Ok self ->
      exists n, h_levelsum self = inl n /\ 0 <= n)
  /\ PlanningGraph_init 2 Samples.two_goals "TT" true
     = Ok Samples.two_goals_graph
  /\ (forall g, In g (goal (problem Samples.two_goals_graph)) ->
        exists l0, nth_error (s_levels Samples.two_goals_graph) 0 = Some l0
                   /\ level_has_symbol (heap Samples.two_goals_graph) l0 g = true)
  /\ h_levelsum Samples.two_goals_graph = inl 1.
Proof.
  split; [exact h_levelsum_built|].
  split; [vm_compute; reflexivity|].
  split; [|vm_compute; reflexivity].
  intros g Hg. exists [RefS 0; RefS 1]. split; [vm_compute; reflexivity|].
  vm_compute in Hg. destruct Hg as [<-|[<-|[]]]; vm_compute; reflexivity.
Qed.

(* ================================================================== *)
(** * Further properties of the module *)

(** ** The tests on pairs of actions *)

Lemma Expr_in_In (x : Expr) (l : list Expr) : Expr_in x l = true <-> In x l.
Proof.
  unfold Expr_in. rewrite existsb_exists. split.
  - intros (y & Hy & E). apply Expr_eqb_eq in E. subst. exact Hy.
  - intros H. exists x. split; [exact H | apply Expr_eqb_refl].
Qed.

Lemma exists_in_both (l1 l2 : list Expr) :
  existsb (fun x => Expr_in x l2) l1 = true
  <-> exists e, In e l1 /\ In e l2.
Proof.
  rewrite existsb_exists. split; intros (e & H1 & H2); exists e; split; auto;
    apply Expr_in_In; exact H2.
Qed.

Lemma inconsistent_effects_mutex_iff (n1 n2 : PgNode_a) :
  inconsistent_effects_mutex n1 n2 = true
  <-> exists e,
        (In e (effect_add (action n1)) /\ In e (effect_rem (action n2)))
        \/ (In e (effect_add (action n2)) /\ In e (effect_rem (action n1))).
Proof.
  unfold inconsistent_effects_mutex.
  destruct (existsb _ (effect_add (action n1))) eqn:E1.
  - apply exists_in_both in E1 as (e & H1 & H2).
    split; [intros _; exists e; auto | reflexivity].
  - destruct (existsb _ (effect_add (action n2))) eqn:E2.
    + apply exists_in_both in E2 as (e & H1 & H2).
      split; [intros _; exists e; auto | reflexivity].
    + split; [discriminate|]. intros (e & [[H1 H2]|[H1 H2]]).
      * assert (X : existsb (fun x => Expr_in x (effect_rem (action n2)))
                            (effect_add (action n1)) = true)
          by (apply exists_in_both; exists e; auto).
        congruence.
      * assert (X : existsb (fun x => Expr_in x (effect_rem (action n1)))
                            (effect_add (action n2)) = true)
          by (apply exists_in_both; exists e; auto).
        congruence.
Qed.

Lemma inconsistent_effects_mutex_sym (n1 n2 : PgNode_a) :
  inconsistent_effects_mutex n1 n2 = inconsistent_effects_mutex n2 n1.
Proof.
  apply eq_true_iff_eq. rewrite !inconsistent_effects_mutex_iff.
  split; intros (e & [H|H]); exists e; auto.
Qed.

Lemma interference_mutex_iff (n1 n2 : PgNode_a) :
  interference_mutex n1 n2 = true
  <-> exists e,
        (In e (effect_rem (action n1)) /\ In e (precond_pos (action n2)))
        \/ (In e (effect_rem (action n2)) /\ In e (precond_pos (action n1))).
Proof.
  unfold interference_mutex.
  destruct (existsb _ (effect_rem (action n1))) eqn:E1.
  - apply exists_in_both in E1 as (e & H1 & H2).
    split; [intros _; exists e; auto | reflexivity].
  - destruct (existsb _ (effect_rem (action n2))) eqn:E2.
    + apply exists_in_both in E2 as (e & H1 & H2).
      split; [intros _; exists e; auto | reflexivity].
    + split; [discriminate|]. intros (e & [[H1 H2]|[H1 H2]]).
      * assert (X : existsb (fun x => Expr_in x (precond_pos (action n2)))
                            (effect_rem (action n1)) = true)
          by (apply exists_in_both; exists e; auto).
        congruence.
      * assert (X : existsb (fun x => Expr_in x (precond_pos (action n1)))
                            (effect_rem (action n2)) = true)
          by (apply exists_in_both; exists e; auto).
        congruence.
Qed.

Lemma interference_mutex_sym (n1 n2 : PgNode_a) :
  interference_mutex n1 n2 = interference_mutex n2 n1.
Proof.
  apply eq_true_iff_eq. rewrite !interference_mutex_iff.
  split; intros (e & [H|H]); exists e; auto.
Qed.

(** X1. inconsistent_effects_mutex returns True exactly when some fluent is added
    by one of the two actions and removed by the other, and it does not
    depend on the order of its arguments. *)
Theorem inconsistent_effects_mutex_spec (node_a1 node_a2 : PgNode_a) :
  (inconsistent_effects_mutex node_a1 node_a2 = true
   <-> exists e,
         (In e (effect_add (action node_a1))
          /\ In e (effect_rem (action node_a2)))
         \/ (In e (effect_add (action node_a2))
             /\ In e (effect_rem (action node_a1))))
  /\ inconsistent_effects_mutex node_a1 node_a2
     = inconsistent_effects_mutex node_a2 node_a1.
Proof.
  split; [apply inconsistent_effects_mutex_iff
         | apply inconsistent_effects_mutex_sym].
Qed.

(** X2. interference_mutex returns True exactly when some fluent is removed by
    one of the two actions and is a positive precondition of the other;
    negative preconditions and add effects are not looked at, and the order
    of the arguments does not matter. *)
Theorem interference_mutex_spec (node_a1 node_a2 : PgNode_a) :
  (interference_mutex node_a1 node_a2 = true
   <-> exists e,
         (In e (effect_rem (action node_a1))
          /\ In e (precond_pos (action node_a2)))
         \/ (In e (effect_rem (action node_a2))
             /\ In e (precond_pos (action node_a1))))
  /\ interference_mutex node_a1 node_a2 = interference_mutex node_a2 node_a1.
Proof.
  split; [apply interference_mutex_iff | apply interference_mutex_sym].
Qed.

(** ** inconsistent_support_mutex when every pair of producers is mutex *)




(** ** mutexify on two nodes of one class *)

Lemma mutex_add_member (h : Heap) (n x : ref) :
  pyset_mem h x (mutex (base h n)) = true ->
  forall r, base (mutex_add h n x) r = base h r.
Proof.
  intros E r. unfold mutex_add, pyset_add. rewrite E.
  destruct (ref_eq_dec r n) as [->|N].
  - rewrite base_set_base_same. destruct (base h n); reflexivity.
  - apply base_set_base_other; auto.
Qed.

(** X4. On two nodes of one class mutexify succeeds; afterwards each of the two
    is mutex with the other, no parent or child set, no identity and no
    mutex set of a third node has changed, no earlier mark is lost, and a
    second call changes no set at all. *)
Theorem mutexify_marks_both (h : Heap) (node1 node2 : ref) :
  type_of node1 = type_of node2 ->
  exists h',
    mutexify node1 node2 h = Ok h'
    /\ is_mutex h' node1 node2 = true
    /\ is_mutex h' node2 node1 = true
    /\ (forall r, parents (base h' r) = parents (base h r)
                  /\ children (base h' r) = children (base h r)
                  /\ key h' r = key h r)
    /\ (forall r, r <> node1 -> r <> node2 ->
          mutex (base h' r) = mutex (base h r))
    /\ (forall r x, is_mutex h r x = true -> is_mutex h' r x = true)
    /\ exists h'',
         mutexify node1 node2 h' = Ok h''
         /\ forall r, base h'' r = base h' r.
Proof.
  intros T. exists (mutexified h node1 node2).
  destruct (mutexified_spec h node1 node2)
    as (St & _ & Pa & Ch & Gr & Fr & M1 & M2 & _).
  assert (K : forall r, key (mutexified h node1 node2) r = key h r).
  { intros r. unfold mutexified. rewrite !key_mutex_add. reflexivity. }
  split; [apply mutexify_same_type; exact T|].
  split; [apply is_mutex_true; exact M1|].
  split; [apply is_mutex_true; exact M2|].
  split; [intros r; auto|].
  split; [exact Fr|].
  split; [intros r x; apply is_mutex_mono; auto|].
  set (h' := mutexified h node1 node2) in *.
  exists (mutexified h' node1 node2).
  split; [apply mutexify_same_type; exact T|].
  intros r. unfold mutexified.
  assert (B1 : forall x, base (mutex_add h' node1 node2) x = base h' x)
    by (apply mutex_add_member; exact M1).
  rewrite mutex_add_member; [apply B1|].
  rewrite B1.
  rewrite (pyset_mem_ext h'); [exact M2|].
  intros x. apply key_mutex_add.
Qed.

Lemma mutexify_marks_both_witness :
  exists h',
    mutexify (RefS 0) (RefS 1) empty_heap = Ok h'
    /\ is_mutex h' (RefS 0) (RefS 1) = true.
Proof.
  destruct (mutexify_marks_both empty_heap (RefS 0) (RefS 1) eq_refl)
    as (h' & E & M & _).
  exists h'. split; [exact E | exact M].
Defined.

(** ** Equality of nodes *)

(** X5. The equality of nodes ([__eq__] of the two classes) is an equivalence
    relation, never holds between a literal node and an action node, and is
    not changed by an addition to a parents, children or mutex set. *)
Theorem node_eqb_equivalence (h : Heap) :
  (forall r, node_eqb h r r = true)
  /\ (forall r1 r2, node_eqb h r1 r2 = node_eqb h r2 r1)
  /\ (forall r1 r2 r3, node_eqb h r1 r2 = true -> node_eqb h r2 r3 = true ->
        node_eqb h r1 r3 = true)
  /\ (forall r1 r2, type_of r1 <> type_of r2 -> node_eqb h r1 r2 = false)
  /\ (forall n x r1 r2,
        node_eqb (parents_add h n x) r1 r2 = node_eqb h r1 r2
        /\ node_eqb (children_add h n x) r1 r2 = node_eqb h r1 r2
        /\ node_eqb (mutex_add h n x) r1 r2 = node_eqb h r1 r2).
Proof.
  split; [intros r; apply node_eqb_key; reflexivity|].
  split.
  { intros r1 r2. apply eq_true_iff_eq. rewrite !node_eqb_key.
    split; intros E; symmetry; exact E. }
  split.
  { intros r1 r2 r3. rewrite !node_eqb_key. intros E1 E2.
    rewrite E1. exact E2. }
  split.
  { intros [a|a] [b|b] N; simpl in *; try reflexivity; congruence. }
  intros n x r1 r2.
  split; [|split]; apply eq_true_iff_eq; rewrite !node_eqb_key;
    rewrite ?key_parents_add, ?key_children_add, ?key_mutex_add; reflexivity.
Qed.

(** ** Index errors and short node lists *)

Lemma py_getitem_last {A : Type} (l : list A) :
  l <> [] ->
  py_getitem l (-1) = py_getitem l (Z.of_nat (List.length l) - 1).
Proof.
  intros N. destruct l as [|x l]; [congruence|].
  unfold py_getitem.
  assert (L : Z.of_nat (List.length (x :: l)) >= 1) by (simpl List.length; lia).
  destruct (Z.leb_spec 0 (-1)) as [H|_]; [lia|].
  destruct (Z.leb_spec (- Z.of_nat (List.length (x :: l))) (-1)) as [_|H];
    [|lia].
  destruct (Z.leb_spec 0 (Z.of_nat (List.length (x :: l)) - 1)) as [_|H];
    [|lia].
  reflexivity.
Qed.

(** X6. With at least one action to try, add_action_level raises IndexError
    when the literal level it is asked to expand does not exist, and the
    graph is left as it was. *)
Theorem add_action_level_index_error (self : PlanningGraph) (level : Z) :
  all_actions self <> [] ->
  py_getitem (s_levels self) level = None ->
  add_action_level self level = Raise IndexError self.
Proof.
  intros N E. unfold add_action_level.
  destruct (all_actions self) as [|act rest]; [congruence|].
  simpl. rewrite E. reflexivity.
Qed.

Lemma add_action_level_index_error_witness :
  add_action_level Samples.two_goals_start 7
  = Raise IndexError Samples.two_goals_start.
Proof.
  apply add_action_level_index_error.
  - vm_compute. discriminate.
  - vm_compute. reflexivity.
Defined.

Lemma py_getitem_out {A : Type} (l : list A) (i : Z) :
  Z.of_nat (List.length l) <= i \/ i < - Z.of_nat (List.length l) ->
  py_getitem l i = None.
Proof.
  intros H. unfold py_getitem.
  destruct (Z.leb_spec 0 i) as [P|P].
  - apply nth_error_None. lia.
  - destruct (Z.leb_spec (- Z.of_nat (List.length l)) i) as [Q|Q];
      [lia | reflexivity].
Qed.

(** X7. add_literal_level reads the action level [level - 1] with a Python
    index.  When the graph has action levels, the call at level 0 reads the
    last of them, as the call at the level after the last action level does;
    a level further up or further down raises IndexError and leaves the graph
    as it was. *)
Theorem add_literal_level_index (self : PlanningGraph) (k : nat) :
  a_levels self <> [] ->
  let n := Z.of_nat (List.length (a_levels self)) in
  add_literal_level self 0 = add_literal_level self n
  /\ add_literal_level self (n + 1 + Z.of_nat k) = Raise IndexError self
  /\ add_literal_level self (- n - Z.of_nat k) = Raise IndexError self.
Proof.
  intros N n. unfold add_literal_level. split; [|split].
  - change (0 - 1) with (-1). rewrite (py_getitem_last _ N). reflexivity.
  - rewrite py_getitem_out; [reflexivity|]. subst n. lia.
  - rewrite py_getitem_out; [reflexivity|]. subst n. lia.
Qed.

Lemma add_literal_level_index_witness :
  add_literal_level Samples.toggle_level1 0
  = add_literal_level Samples.toggle_level1 1
  /\ add_literal_level Samples.toggle_level1 2
     = Raise IndexError Samples.toggle_level1.
Proof.
  assert (N : a_levels Samples.toggle_level1 <> [])
    by (vm_compute; discriminate).
  destruct (add_literal_level_index Samples.toggle_level1 0 N) as (A & B & _).
  split; [exact A | exact B].
Defined.

(** X8. On a node list with two nodes or more whose first two are not both
    action nodes, update_a_mutex raises AttributeError before any mutex set
    is touched; on a list with fewer than two nodes it does nothing. *)
Theorem update_a_mutex_wrong_class (self : PlanningGraph) (n1 n2 : ref)
    (rest : list ref) :
  type_of n1 = PgNode_s_t \/ type_of n2 = PgNode_s_t ->
  update_a_mutex self (n1 :: n2 :: rest) = Raise AttributeError self
  /\ update_a_mutex self [n1] = Ok self
  /\ update_a_mutex self [] = Ok self.
Proof.
  intros T. split; [|split; reflexivity].
  unfold update_a_mutex.
  change (removelast (n1 :: n2 :: rest)) with (n1 :: removelast (n2 :: rest)).
  rewrite mutex_outer_cons.
  change (skipn 1 (n1 :: n2 :: rest)) with (n2 :: rest).
  simpl mutex_inner.
  assert (E : a_mutex_pair self n1 n2 = Raise AttributeError self).
  { unfold a_mutex_pair.
    destruct n1 as [a1|a1], n2 as [a2|a2]; simpl in *; try reflexivity.
    destruct T; discriminate. }
  rewrite E. reflexivity.
Qed.

Lemma update_a_mutex_wrong_class_witness :
  update_a_mutex Samples.two_goals_start [RefA 0; RefS 0]
  = Raise AttributeError Samples.two_goals_start.
Proof.
  apply (update_a_mutex_wrong_class Samples.two_goals_start (RefA 0) (RefS 0) []).
  right. reflexivity.
Defined.

(** X9. On a node list with two nodes or more whose first two are not both
    literal nodes, update_s_mutex raises AttributeError before any mutex set
    is touched; on a list with fewer than two nodes it does nothing. *)
Theorem update_s_mutex_wrong_class (self : PlanningGraph) (n1 n2 : ref)
    (rest : list ref) :
  type_of n1 = PgNode_a_t \/ type_of n2 = PgNode_a_t ->
  update_s_mutex self (n1 :: n2 :: rest) = Raise AttributeError self
  /\ update_s_mutex self [n1] = Ok self
  /\ update_s_mutex self [] = Ok self.
Proof.
  intros T. split; [|split; reflexivity].
  unfold update_s_mutex.
  change (removelast (n1 :: n2 :: rest)) with (n1 :: removelast (n2 :: rest)).
  rewrite mutex_outer_cons.
  change (skipn 1 (n1 :: n2 :: rest)) with (n2 :: rest).
  simpl mutex_inner.
  assert (E : s_mutex_pair self n1 n2 = Raise AttributeError self).
  { unfold s_mutex_pair.
    destruct n1 as [a1|a1], n2 as [a2|a2]; simpl in *; try reflexivity.
    destruct T; discriminate. }
  rewrite E. reflexivity.
Qed.

Lemma update_s_mutex_wrong_class_witness :
  update_s_mutex Samples.two_goals_start [RefS 0; RefA 0]
  = Raise AttributeError Samples.two_goals_start.
Proof.
  apply (update_s_mutex_wrong_class Samples.two_goals_start (RefS 0) (RefA 0) []).
  right. reflexivity.
Defined.

(** ** h_levelsum with one goal or none *)

Lemma h_levelsum_goals_single (h : Heap) (a : nat) (i : Z) (g : Expr)
    (v : levelsum_vars) :
  h_levelsum_goals h (RefS a) i [g] v
  = inl (if Expr_eqb (symbol (s_store h a)) g
            && negb (Expr_in g (goal_checked v))
         then mkVars (level_sum v + i) (goal_checked v ++ [g]) true
         else v).
Proof.
  simpl. destruct (Expr_eqb (symbol (s_store h a)) g); simpl; [|reflexivity].
  destruct (Expr_in g (goal_checked v)); reflexivity.
Qed.

(** The nodes of a level, before the goal has been counted. *)
Lemma h_levelsum_nodes_single (h : Heap) (i : Z) (g : Expr) (s : Z) :
  forall L, Forall (fun r => type_of r = PgNode_s_t) L ->
    h_levelsum_nodes h i [g] L (mkVars s [] false)
    = inl (if level_has_symbol h L g then mkVars (s + i) [g] true
           else mkVars s [] false).
Proof.
  induction L as [|r L IH]; intros T; [reflexivity|].
  inversion T as [|? ? Tr TL]; subst.
  destruct r as [a|a]; [|discriminate].
  unfold h_levelsum_nodes; fold h_levelsum_nodes.
  rewrite h_levelsum_goals_single.
  unfold level_has_symbol in *. simpl existsb.
  destruct (Expr_eqb (symbol (s_store h a)) g); simpl; [reflexivity|].
  apply IH. exact TL.
Qed.

(** The nodes of a level, once the goal has been counted. *)
Lemma h_levelsum_nodes_counted (h : Heap) (i : Z) (g : Expr) (s : Z) :
  forall L, Forall (fun r => type_of r = PgNode_s_t) L ->
    h_levelsum_nodes h i [g] L (mkVars s [g] false) = inl (mkVars s [g] false).
Proof.
  induction L as [|r L IH]; intros T; [reflexivity|].
  inversion T as [|? ? Tr TL]; subst.
  destruct r as [a|a]; [|discriminate].
  unfold h_levelsum_nodes; fold h_levelsum_nodes.
  rewrite h_levelsum_goals_single.
  assert (E : Expr_in g (goal_checked (mkVars s [g] false)) = true).
  { apply Expr_in_In. simpl. auto. }
  rewrite E, andb_false_r. simpl. apply IH. exact TL.
Qed.

Lemma h_levelsum_layers_counted (h : Heap) (g : Expr) (s : Z) :
  forall levels i b,
    Forall (Forall (fun r => type_of r = PgNode_s_t)) levels ->
    exists b',
      h_levelsum_layers h [g] i levels (mkVars s [g] b)
      = inl (mkVars s [g] b').
Proof.
  induction levels as [|L levels IH]; intros i b T.
  - exists b. reflexivity.
  - inversion T as [|? ? TL Tr]; subst.
    unfold h_levelsum_layers; fold h_levelsum_layers. simpl level_sum.
    simpl goal_checked. rewrite h_levelsum_nodes_counted by exact TL.
    apply IH. exact Tr.
Qed.

Lemma h_levelsum_layers_single (h : Heap) (g : Expr) :
  forall levels i s b,
    Forall (Forall (fun r => type_of r = PgNode_s_t)) levels ->
    exists v,
      h_levelsum_layers h [g] i levels (mkVars s [] b) = inl v
      /\ level_sum v
         = s + match first_level_from h levels i g with
               | Some j => j
               | None => 0
               end.
Proof.
  induction levels as [|L levels IH]; intros i s b T.
  - exists (mkVars s [] b). split; [reflexivity | simpl; lia].
  - inversion T as [|? ? TL Tr]; subst.
    unfold h_levelsum_layers; fold h_levelsum_layers. simpl level_sum.
    simpl goal_checked. rewrite h_levelsum_nodes_single by exact TL.
    simpl first_level_from.
    destruct (level_has_symbol h L g).
    + destruct (h_levelsum_layers_counted h g (s + i) levels (i + 1) true Tr)
        as (b' & E).
      exists (mkVars (s + i) [g] b'). split; [exact E | reflexivity].
    + apply IH. exact Tr.
Qed.

(** X10. For a problem with a single goal h_levelsum returns the level sum of its
    documentation: the index of the first literal level that has a node with
    the symbol of the goal, of either polarity, and 0 when no level has
    one. *)
Theorem h_levelsum_single_goal (self : PlanningGraph) (g : Expr) :
  goal (problem self) = [g] ->
  Forall (Forall (fun r => type_of r = PgNode_s_t)) (s_levels self) ->
  h_levelsum self = inl (level_cost_sum self)
  /\ level_cost_sum self
     = match first_level_from (heap self) (s_levels self) 0 g with
       | Some j => j
       | None => 0
       end.
Proof.
  intros G T.
  assert (C : level_cost_sum self
              = match first_level_from (heap self) (s_levels self) 0 g with
                | Some j => j
                | None => 0
                end).
  { unfold level_cost_sum. rewrite G. simpl.
    destruct (first_level_from _ _ _ _); lia. }
  split; [|exact C].
  unfold h_levelsum. rewrite G.
  destruct (h_levelsum_layers_single (heap self) g (s_levels self) 0 0 false T)
    as (v & E & S).
  rewrite E, S, C. reflexivity.
Qed.

Lemma h_levelsum_single_goal_witness :
  h_levelsum Samples.toggle_level1 = inl 0.
Proof.
  assert (G : goal (problem Samples.toggle_level1) = ["P"])
    by (vm_compute; reflexivity).
  assert (T : Forall (Forall (fun r => type_of r = PgNode_s_t))
                     (s_levels Samples.toggle_level1)).
  { assert (E : s_levels Samples.toggle_level1
                = [[RefS 0]; [RefS 2; RefS 4]]) by (vm_compute; reflexivity).
    rewrite E.
    constructor; [constructor; [reflexivity | constructor]|].
    constructor; [|constructor].
    constructor; [reflexivity|]. constructor; [reflexivity | constructor]. }
  destruct (h_levelsum_single_goal Samples.toggle_level1 "P" G T) as (E & C).
  rewrite E, C. vm_compute. reflexivity.
Defined.

(** X11. Without goals h_levelsum returns 0 on every graph: no attribute of a
    node is read. *)
Theorem h_levelsum_no_goal (self : PlanningGraph) :
  goal (problem self) = [] -> h_levelsum self = inl 0.
Proof.
  intros G. unfold h_levelsum. rewrite G.
  assert (N : forall i L s, h_levelsum_nodes (heap self) i [] L
                              (mkVars s [] false) = inl (mkVars s [] false)).
  { intros i L s. induction L as [|r L IH]; [reflexivity|]. simpl. exact IH. }
  assert (Ly : forall levels i s b,
             exists b', h_levelsum_layers (heap self) [] i levels
                          (mkVars s [] b) = inl (mkVars s [] b')).
  { induction levels as [|L levels IH]; intros i s b.
    - exists b. reflexivity.
    - unfold h_levelsum_layers; fold h_levelsum_layers. simpl level_sum.
      simpl goal_checked. rewrite N. apply IH. }
  destruct (Ly (s_levels self) 0 0 false) as (b' & E).
  rewrite E. reflexivity.
Qed.

Lemma h_levelsum_no_goal_witness :
  h_levelsum Samples.same_name_graph = inl 0.
Proof.
  apply h_levelsum_no_goal. vm_compute. reflexivity.
Defined.

(** ** Equality of sets of nodes, and persistence *)

(** On sets, [==] is equality of the identities of the elements. *)
Lemma pyset_eqb_same_keys (h : Heap) (s1 s2 : pyset) :
  is_pyset h s1 -> is_pyset h s2 ->
  (pyset_eqb h s1 s2 = true
   <-> forall k, In k (keys h s1) <-> In k (keys h s2)).
Proof.
  intros N1 N2. unfold pyset_eqb.
  rewrite andb_true_iff, Nat.eqb_eq, issubset_keys. split.
  - intros [El I] k. split; [apply I|].
    apply NoDup_length_incl; auto. rewrite !keys_length. lia.
  - intros E.
    assert (I12 : incl (keys h s1) (keys h s2)) by (intros k; apply E).
    assert (I21 : incl (keys h s2) (keys h s1)) by (intros k; apply E).
    split; [|exact I12].
    pose proof (NoDup_incl_length N1 I12) as L1.
    pose proof (NoDup_incl_length N2 I21) as L2.
    rewrite !keys_length in L1, L2. lia.
Qed.

Lemma literal_keys_iff (positive negative : list Expr) (f : Expr) (b : bool) :
  In (KeyS f b) (literal_keys positive negative)
  <-> In f (if b then positive else negative).
Proof.
  unfold literal_keys. rewrite in_app_iff, !in_map_iff. split.
  - intros [(g & E & Hg)|(g & E & Hg)]; inversion E; subst; exact Hg.
  - intros H. destruct b; [left | right]; exists f; auto.
Qed.

Lemma literal_keys_same (p1 n1 p2 n2 : list Expr) :
  (forall k, In k (literal_keys p1 n1) <-> In k (literal_keys p2 n2))
  <-> (forall e, In e p1 <-> In e p2) /\ (forall e, In e n1 <-> In e n2).
Proof.
  split.
  - intros H. split; intros e.
    + rewrite <- (literal_keys_iff p1 n1 e true),
              <- (literal_keys_iff p2 n2 e true). apply H.
    + rewrite <- (literal_keys_iff p1 n1 e false),
              <- (literal_keys_iff p2 n2 e false). apply H.
  - intros [Hp Hn] k. split; intros Hk.
    + destruct (literal_keys_In _ _ _ Hk) as (f & b & -> & Hf).
      apply literal_keys_iff. destruct b; [apply Hp | apply Hn]; exact Hf.
    + destruct (literal_keys_In _ _ _ Hk) as (f & b & -> & Hf).
      apply literal_keys_iff. destruct b; [apply Hp | apply Hn]; exact Hf.
Qed.

Lemma new_PgNode_a_persistent (act : Action) (h : Heap) :
  wf_heap h ->
  (is_persistent (a_store (snd (new_PgNode_a act h))
                          (fst (new_PgNode_a act h))) = true
   <-> forall k, In k (pre_keys act) <-> In k (eff_keys act)).
Proof.
  intros W. unfold new_PgNode_a, precond_s_nodes, effect_s_nodes.
  pose proof (literal_nodes_spec (precond_pos act) (precond_neg act) h W) as H1.
  cbv zeta in H1.
  destruct (let '(nodes, h1) := add_s_nodes (precond_pos act) true [] h in
            add_s_nodes (precond_neg act) false nodes h1) as [pre h1].
  simpl in H1. destruct H1 as (W1 & L1 & B1 & F1 & K1 & S1).
  pose proof (literal_nodes_spec (effect_add act) (effect_rem act) h1 W1) as H2.
  cbv zeta in H2.
  destruct (let '(nodes, h2) := add_s_nodes (effect_add act) true [] h1 in
            add_s_nodes (effect_rem act) false nodes h2) as [eff h2].
  simpl in H2. destruct H2 as (W2 & L2 & B2 & F2 & K2 & S2).
  simpl fst. simpl snd. simpl a_store. rewrite upd_same. simpl is_persistent.
  assert (Vpre : Forall (valid h1) pre).
  { eapply Forall_impl; [|exact F1]. simpl. tauto. }
  assert (Ek : keys h2 pre = keys h1 pre) by (apply heap_le_keys; auto).
  rewrite pyset_eqb_same_keys.
  - rewrite Ek. split; intros H k.
    + rewrite <- K1, <- K2. apply H.
    + unfold pre_keys, eff_keys in H. rewrite K1, K2. apply H.
  - unfold is_pyset. rewrite Ek. exact S1.
  - exact S2.
Qed.

(** X12. The constructor of PgNode_a marks the node persistent exactly when the
    preconditions and the effects of the action are the same literals: the
    same positive ones and the same negative ones. *)
Theorem PgNode_a_is_persistent (act : Action) (h : Heap) :
  wf_heap h ->
  (is_persistent (a_store (snd (new_PgNode_a act h))
                          (fst (new_PgNode_a act h))) = true
   <-> (forall e, In e (precond_pos act) <-> In e (effect_add act))
       /\ (forall e, In e (precond_neg act) <-> In e (effect_rem act))).
Proof.
  intros W. rewrite (new_PgNode_a_persistent act h W).
  apply literal_keys_same.
Qed.

Lemma PgNode_a_is_persistent_witness :
  is_persistent (a_store (snd (new_PgNode_a Samples.del empty_heap))
                         (fst (new_PgNode_a Samples.del empty_heap))) = false.
Proof.
  destruct (is_persistent _) eqn:E; [|reflexivity].
  apply (PgNode_a_is_persistent Samples.del empty_heap wf_heap_empty) in E.
  destruct E as [E _]. exfalso.
  apply (proj1 (E "P")). simpl. auto.
Defined.

(** ** noop_actions *)

Lemma noop_actions_In (literal_list : list Expr) (act : Action) :
  In act (noop_actions literal_list)
  <-> exists f, In f literal_list
                /\ (act = mkAction "Noop_pos" [f] [f] [] [f] []
                    \/ act = mkAction "Noop_neg" [f] [] [f] [] [f]).
Proof.
  induction literal_list as [|g l IH]; simpl.
  - split; [contradiction | intros (f & [] & _)].
  - rewrite IH. split.
    + intros [<-|[<-|(f & Hf & E)]].
      * exists g. auto.
      * exists g. auto.
      * exists f. auto.
    + intros (f & [->|Hf] & [->| ->]); auto.
      * right. right. exists f. auto.
      * right. right. exists f. auto.
Qed.

Lemma noop_actions_distinct (literal_list : list Expr) :
  NoDup literal_list -> distinct_actions (noop_actions literal_list).
Proof.
  unfold distinct_actions.
  induction 1 as [|g l Ng Nl IH]; simpl; [constructor|].
  assert (Out : forall n, ~ In (n, [g])
                   (map (fun act => (name act, args act)) (noop_actions l))).
  { intros n Hin. apply in_map_iff in Hin as (act & E & Ha).
    apply noop_actions_In in Ha as (f & Hf & [->| ->]);
      simpl in E; inversion E; subst; contradiction. }
  constructor.
  - intros [E|Hin]; [discriminate | exact (Out _ Hin)].
  - constructor; [apply Out | exact IH].
Qed.

(** X13. noop_actions builds two actions for each fluent of the list: one that
    requires and adds the fluent, one that requires its negation and removes
    it, and nothing else.  Their nodes are persistent, and the actions have
    pairwise distinct names and arguments when no fluent is listed twice. *)
Theorem noop_actions_spec (literal_list : list Expr) :
  List.length (noop_actions literal_list)
  = (2 * List.length literal_list)%nat
  /\ (forall act,
        In act (noop_actions literal_list)
        <-> exists f, In f literal_list
                      /\ (act = mkAction "Noop_pos" [f] [f] [] [f] []
                          \/ act = mkAction "Noop_neg" [f] [] [f] [] [f]))
  /\ (forall act h,
        In act (noop_actions literal_list) -> wf_heap h ->
        is_persistent (a_store (snd (new_PgNode_a act h))
                               (fst (new_PgNode_a act h))) = true)
  /\ (NoDup literal_list -> distinct_actions (noop_actions literal_list)).
Proof.
  split.
  { induction literal_list as [|g l IH]; simpl; [reflexivity|].
    rewrite IH. lia. }
  split; [apply noop_actions_In|].
  split; [|apply noop_actions_distinct].
  intros act h Ha W. apply new_PgNode_a_persistent; [exact W|].
  apply noop_actions_In in Ha as (f & _ & [->| ->]); intros k; reflexivity.
Qed.

(** X14. The action list of the constructor has pairwise distinct names and
    arguments when the state map lists no fluent twice and the actions of the
    problem are pairwise distinct in this sense and none of them is named
    Noop_pos or Noop_neg. *)
Theorem combined_actions_distinct (prob : Problem) :
  NoDup (state_map prob) ->
  distinct_actions (actions_list prob) ->
  (forall act, In act (actions_list prob) ->
     name act <> "Noop_pos" /\ name act <> "Noop_neg") ->
  distinct_actions (combined_actions prob).
Proof.
  intros Nm Na Nn. unfold distinct_actions, combined_actions.
  rewrite map_app. apply NoDup_app.
  - exact Na.
  - apply noop_actions_distinct. exact Nm.
  - intros [n a] H1 H2.
    apply in_map_iff in H1 as (act1 & E1 & Ha1).
    apply in_map_iff in H2 as (act2 & E2 & Ha2).
    destruct (Nn act1 Ha1) as [P1 P2].
    apply noop_actions_In in Ha2 as (f & _ & [->| ->]);
      simpl in E2; inversion E2; subst; inversion E1; congruence.
Qed.

Lemma combined_actions_distinct_witness :
  distinct_actions (combined_actions Samples.toggle).
Proof.
  apply combined_actions_distinct.
  - simpl. constructor; [intros [] | constructor].
  - unfold distinct_actions. simpl.
    constructor; [intros [] | constructor].
  - simpl. intros act [<-|[]]. split; discriminate.
Defined.

(** ** What update_a_mutex and update_s_mutex decide *)

(** The pair loops on a graph of which only the heap changes. *)
Section PairLoopsAt.

Variable pair : PlanningGraph -> ref -> ref -> result PlanningGraph.
Variable self0 : PlanningGraph.
Variable P : ref -> Prop.
Variable I : Heap -> Prop.
Variable M : Heap -> ref -> ref -> Prop.

Hypothesis pair_step_at :
  forall h n1 n2, P n1 -> P n2 -> I h ->
    exists h', pair (with_heap self0 h) n1 n2 = Ok (with_heap self0 h')
               /\ I h' /\ M h' n1 n2
               /\ (forall x y, M h x y -> M h' x y).

Lemma mutex_inner_at (n1 : ref) :
  forall (tail : list ref) (h : Heap),
    P n1 -> Forall P tail -> I h ->
    exists h', mutex_inner pair n1 tail (with_heap self0 h)
               = Ok (with_heap self0 h')
               /\ I h'
               /\ (forall x y, M h x y -> M h' x y)
               /\ (forall n2, In n2 tail -> M h' n1 n2).
Proof.
  induction tail as [|n2 tail IH]; intros h P1 Pt Ih.
  - exists h. simpl. split; [reflexivity|].
    split; [exact Ih|]. split; [auto | contradiction].
  - inversion Pt as [|? ? P2 Pt']; subst.
    destruct (pair_step_at h n1 n2 P1 P2 Ih) as (h1 & E1 & I1 & M1 & K1).
    destruct (IH h1 P1 Pt' I1) as (h' & E' & I' & K' & A').
    exists h'. simpl. rewrite E1. simpl. rewrite E'.
    split; [reflexivity|]. split; [exact I'|].
    split; [intros x y Hxy; apply K'; apply K1; exact Hxy|].
    intros n [<-|Hn]; [apply K'; exact M1 | apply A'; exact Hn].
Qed.

Lemma mutex_pairs_at :
  forall (l : list ref) (h : Heap),
    Forall P l -> I h ->
    exists h', mutex_pairs pair l (with_heap self0 h) = Ok (with_heap self0 h')
               /\ I h'
               /\ (forall x y, M h x y -> M h' x y)
               /\ (forall i j x y, (i < j)%nat ->
                     nth_error l i = Some x -> nth_error l j = Some y ->
                     M h' x y).
Proof.
  induction l as [|n1 l IH]; intros h Pl Ih.
  - exists h. simpl. split; [reflexivity|].
    split; [exact Ih|]. split; [auto|].
    intros i j x y _ H. destruct i; discriminate.
  - inversion Pl as [|? ? P1 Pl']; subst.
    destruct (mutex_inner_at n1 l h P1 Pl' Ih) as (h1 & E1 & I1 & K1 & A1).
    destruct (IH h1 Pl' I1) as (h' & E' & I' & K' & A').
    exists h'. rewrite mutex_pairs_cons. rewrite E1. simpl. rewrite E'.
    split; [reflexivity|]. split; [exact I'|].
    split; [intros x y Hxy; apply K'; apply K1; exact Hxy|].
    intros i j x y Lt Hi Hj. destruct j as [|j]; [lia|].
    destruct i as [|i]; simpl in Hi, Hj.
    + inversion Hi; subst. apply K'. apply A1.
      eapply nth_error_In; eauto.
    + apply (A' i j); auto. lia.
Qed.

End PairLoopsAt.

Lemma mutex_frame_refl (h : Heap) (L : list ref) : mutex_frame h L h.
Proof. constructor; auto using incl_refl. Qed.


Lemma mutex_frame_mutexified (h0 h : Heap) (L : list ref) (n1 n2 : ref) :
  In n1 L -> In n2 L -> mutex_frame h0 L h ->
  mutex_frame h0 L (mutexified h n1 n2).
Proof.
  intros H1 H2 F.
  destruct (mutexified_spec h n1 n2) as (St & _ & Pa & Ch & Gr & Fr & _).
  constructor.
  - intros r. rewrite St. apply F.
  - intros r. rewrite Pa. apply F.
  - intros r. rewrite Ch. apply F.
  - intros r. eapply incl_tran; [apply (mf_grow _ _ _ F) | apply Gr].
  - intros r N. rewrite Fr; [apply F; exact N | |]; intros ->; contradiction.
Qed.

Lemma marked_mutex_kept (h : Heap) (n1 n2 x y : ref) :
  marked_mutex h x y -> marked_mutex (mutexified h n1 n2) x y.
Proof.
  destruct (mutexified_spec h n1 n2) as (St & _ & _ & _ & Gr & _).
  assert (K : forall r, key (mutexified h n1 n2) r = key h r)
    by (intros r; apply key_static; apply St).
  intros [A B]. split; eapply is_mutex_mono; eauto.
Qed.

Section MutexDecides.

Variable pair : PlanningGraph -> ref -> ref -> result PlanningGraph.
Variable test : PlanningGraph -> ref -> ref -> bool.
Variable T : node_type.
Variable self0 : PlanningGraph.
Variable L : list ref.

(** [lower] implies the test of the loop and [upper] follows from it, in
    every heap the loop goes through. *)
Variable lower upper : ref -> ref -> bool.

Hypothesis pair_test :
  forall self n1 n2, type_of n1 = T -> type_of n2 = T ->
    pair self n1 n2
    = if test self n1 n2
      then Ok (with_heap self (mutexified (heap self) n1 n2))
      else Ok self.

Hypothesis test_lower :
  forall h n1 n2, In n1 L -> In n2 L -> mutex_frame (heap self0) L h ->
    lower n1 n2 = true -> test (with_heap self0 h) n1 n2 = true.

Hypothesis test_upper :
  forall h n1 n2, In n1 L -> In n2 L -> mutex_frame (heap self0) L h ->
    test (with_heap self0 h) n1 n2 = true -> upper n1 n2 = true.

Hypothesis typed : Forall (fun r => type_of r = T) L.

Lemma mutex_pairs_decides :
  exists h',
    mutex_pairs pair L self0 = Ok (with_heap self0 h')
    /\ mutex_frame (heap self0) L h'
    /\ marks_tested upper (heap self0) L h'
    /\ (forall i j x y, (i < j)%nat ->
          nth_error L i = Some x -> nth_error L j = Some y ->
          lower x y = true -> marked_mutex h' x y).
Proof.
  pose (P := fun r => In r L /\ type_of r = T).
  pose (I := fun h => mutex_frame (heap self0) L h
                      /\ marks_tested upper (heap self0) L h).
  pose (M := fun h x y => lower x y = true -> marked_mutex h x y).
  assert (Step : forall h n1 n2, P n1 -> P n2 -> I h ->
            exists h', pair (with_heap self0 h) n1 n2 = Ok (with_heap self0 h')
                       /\ I h' /\ M h' n1 n2
                       /\ (forall x y, M h x y -> M h' x y)).
  { intros h n1 n2 [H1 T1] [H2 T2] [F Mk].
    rewrite (pair_test _ n1 n2 T1 T2).
    destruct (test (with_heap self0 h) n1 n2) eqn:Et.
    - exists (mutexified h n1 n2). simpl heap.
      split; [reflexivity|]. split; [split|]; [| |split].
      + apply mutex_frame_mutexified; auto.
      + intros x y Hy.
        destruct (mutexified_spec h n1 n2)
          as (_ & _ & _ & _ & _ & _ & _ & _ & New & _).
        pose proof (test_upper h n1 n2 H1 H2 F Et) as Up.
        destruct (New x y Hy) as [Old|[[-> ->]|[-> ->]]].
        * apply Mk. exact Old.
        * right. auto.
        * right. auto.
      + intros _.
        destruct (mutexified_spec h n1 n2)
          as (_ & _ & _ & _ & _ & _ & M1 & M2 & _).
        split; apply is_mutex_true; assumption.
      + intros x y Hxy Ex. apply marked_mutex_kept. apply Hxy. exact Ex.
    - exists h. split; [reflexivity|]. split; [split; assumption|].
      split; [|auto]. intros Ex.
      rewrite (test_lower h n1 n2 H1 H2 F Ex) in Et. discriminate. }
  assert (PL : Forall P L).
  { apply Forall_forall. intros r Hr. split; [exact Hr|].
    rewrite Forall_forall in typed. auto. }
  assert (I0 : I (heap self0)).
  { split; [apply mutex_frame_refl|]. intros x y Hy. left. exact Hy. }
  destruct (mutex_pairs_at pair self0 P I M Step L (heap self0) PL I0)
    as (h' & E & [F Mk] & _ & A).
  rewrite with_heap_heap in E.
  exists h'. split; [exact E|]. split; [exact F|]. split; [exact Mk|].
  exact A.
Qed.

End MutexDecides.





Lemma s_mutex_pair_test (self : PlanningGraph) (n1 n2 : ref) :
  type_of n1 = PgNode_s_t -> type_of n2 = PgNode_s_t ->
  s_mutex_pair self n1 n2
  = if s_mutex_test self n1 n2
    then Ok (with_heap self (mutexified (heap self) n1 n2))
    else Ok self.
Proof.
  destruct n1 as [a|a], n2 as [b|b]; try discriminate. intros _ _.
  apply s_mutex_pair_RefS.
Qed.

Lemma a_mutex_pair_test (self : PlanningGraph) (n1 n2 : ref) :
  type_of n1 = PgNode_a_t -> type_of n2 = PgNode_a_t ->
  a_mutex_pair self n1 n2
  = if a_mutex_test self n1 n2
    then Ok (with_heap self (mutexified (heap self) n1 n2))
    else Ok self.
Proof.
  destruct n1 as [a|a], n2 as [b|b]; try discriminate. intros _ _.
  apply a_mutex_pair_RefA.
Qed.





(** The tests that read nothing but what the constructors fix. *)
Lemma s_static_test_static (self self' : PlanningGraph) (n1 n2 : ref) :
  static (heap self') n1 = static (heap self) n1 ->
  static (heap self') n2 = static (heap self) n2 ->
  s_static_test self' n1 n2 = s_static_test self n1 n2.
Proof.
  unfold s_static_test.
  destruct n1 as [a|a], n2 as [b|b]; simpl; try reflexivity.
  intros Sa Sb. inversion Sa as [[Sa1 Sa2]]. inversion Sb as [[Sb1 Sb2]].
  unfold negation_mutex. rewrite Sa1, Sa2, Sb1, Sb2. reflexivity.
Qed.

Lemma a_static_test_static (self self' : PlanningGraph) (n1 n2 : ref) :
  serial self' = serial self ->
  static (heap self') n1 = static (heap self) n1 ->
  static (heap self') n2 = static (heap self) n2 ->
  a_static_test self' n1 n2 = a_static_test self n1 n2.
Proof.
  unfold a_static_test.
  destruct n1 as [a|a], n2 as [b|b]; simpl; try reflexivity.
  intros Es Sa Sb.
  inversion Sa as [[Sa1 Sa2 Sa3 Sa4]]. inversion Sb as [[Sb1 Sb2 Sb3 Sb4]].
  unfold serialize_actions, inconsistent_effects_mutex, interference_mutex.
  rewrite Es, Sa1, Sa4, Sb1, Sb4. reflexivity.
Qed.

Lemma s_static_test_sym (self : PlanningGraph) (n1 n2 : ref) :
  s_static_test self n1 n2 = s_static_test self n2 n1.
Proof.
  unfold s_static_test.
  destruct n1 as [a|a], n2 as [b|b]; simpl; try reflexivity.
  unfold negation_mutex, Expr_eqb.
  rewrite (String.eqb_sym (symbol (s_store (heap self) a))).
  destruct (is_pos (s_store (heap self) a)), (is_pos (s_store (heap self) b));
    reflexivity.
Qed.

Lemma s_static_test_irrefl (self : PlanningGraph) (n : ref) :
  s_static_test self n n = false.
Proof.
  unfold s_static_test. destruct n as [a|a]; simpl; [|reflexivity].
  unfold negation_mutex. rewrite Bool.eqb_reflx. reflexivity.
Qed.

Lemma a_static_test_sym (self : PlanningGraph) (n1 n2 : ref) :
  a_static_test self n1 n2 = a_static_test self n2 n1.
Proof.
  unfold a_static_test.
  destruct n1 as [a|a], n2 as [b|b]; simpl; try reflexivity.
  rewrite (inconsistent_effects_mutex_sym (a_store (heap self) a)),
          (interference_mutex_sym (a_store (heap self) a)).
  f_equal. f_equal. unfold serialize_actions.
  destruct (serial self); simpl; [|reflexivity].
  rewrite (orb_comm (is_persistent (a_store (heap self) a))). reflexivity.
Qed.

Lemma update_s_mutex_static (self : PlanningGraph) (L : list ref) :
  Forall (fun r => type_of r = PgNode_s_t) L ->
  exists h',
    update_s_mutex self L = Ok (with_heap self h')
    /\ mutex_frame (heap self) L h'
    /\ (forall i j x y, (i < j)%nat ->
          nth_error L i = Some x -> nth_error L j = Some y ->
          s_static_test self x y = true -> marked_mutex h' x y).
Proof.
  intros TL. rewrite update_s_mutex_pairs.
  destruct (mutex_pairs_decides s_mutex_pair s_mutex_test PgNode_s_t self L
              (s_static_test self) (fun _ _ => true))
    as (h' & E & F & _ & A).
  - apply s_mutex_pair_test.
  - intros h n1 n2 H1 H2 F E.
    rewrite <- (s_static_test_static self (with_heap self h)) in E;
      try apply F.
    unfold s_static_test, s_mutex_test in *.
    destruct n1 as [a|a], n2 as [b|b];
      cbn [as_PgNode_s heap with_heap] in *; try discriminate.
    rewrite E. reflexivity.
  - reflexivity.
  - exact TL.
  - exists h'. auto.
Qed.

Lemma update_a_mutex_static (self : PlanningGraph) (L : list ref) :
  Forall (fun r => type_of r = PgNode_a_t) L ->
  exists h',
    update_a_mutex self L = Ok (with_heap self h')
    /\ mutex_frame (heap self) L h'
    /\ (forall i j x y, (i < j)%nat ->
          nth_error L i = Some x -> nth_error L j = Some y ->
          a_static_test self x y = true -> marked_mutex h' x y).
Proof.
  intros TL. rewrite update_a_mutex_pairs.
  destruct (mutex_pairs_decides a_mutex_pair a_mutex_test PgNode_a_t self L
              (a_static_test self) (fun _ _ => true))
    as (h' & E & F & _ & A).
  - apply a_mutex_pair_test.
  - intros h n1 n2 H1 H2 F E.
    rewrite <- (a_static_test_static self (with_heap self h)) in E;
      try apply F; [|reflexivity].
    unfold a_static_test, a_mutex_test in *.
    destruct n1 as [a|a], n2 as [b|b];
      cbn [as_PgNode_a heap with_heap] in *; try discriminate.
    rewrite E. reflexivity.
  - reflexivity.
  - exact TL.
  - exists h'. auto.
Qed.

(** A pair of nodes at two positions of a list, whatever their order. *)
Lemma marked_at_positions (h : Heap) (L : list ref)
    (test : ref -> ref -> bool) :
  (forall x y, test x y = test y x) ->
  (forall i j x y, (i < j)%nat ->
     nth_error L i = Some x -> nth_error L j = Some y ->
     test x y = true -> marked_mutex h x y) ->
  forall x y, In x L -> In y L -> x <> y -> test x y = true ->
    marked_mutex h x y.
Proof.
  intros Sym A x y Hx Hy N E.
  apply In_nth_error in Hx as [i Hi]. apply In_nth_error in Hy as [j Hj].
  destruct (Nat.lt_total i j) as [Lt|[Eq|Gt]].
  - apply (A i j); auto.
  - subst j. rewrite Hi in Hj. inversion Hj. contradiction.
  - rewrite Sym in E. destruct (A j i y x Gt Hj Hi E) as [M1 M2].
    split; assumption.
Qed.








(** ** Who owns an effect node, and the parents sets *)

Lemma effnodes_static (h h' : Heap) (a : nat) :
  static h' (RefA a) = static h (RefA a) ->
  effnodes (a_store h' a) = effnodes (a_store h a).
Proof. simpl. intros E. inversion E. reflexivity. Qed.

Lemma effnodes_apart_static (h h' : Heap) (addrs : list nat) :
  (forall a, In a addrs -> static h' (RefA a) = static h (RefA a)) ->
  effnodes_apart h addrs -> effnodes_apart h' addrs.
Proof.
  intros St Ap i j a1 a2 e Lt H1 H2.
  rewrite (effnodes_static h h' a1), (effnodes_static h h' a2);
    try (apply St; eapply nth_error_In; eauto).
  apply (Ap i j); auto.
Qed.

Lemma map_RefA_inj (l1 l2 : list nat) : map RefA l1 = map RefA l2 -> l1 = l2.
Proof.
  revert l2. induction l1 as [|a l1 IH]; intros [|b l2] E; simpl in E;
    try discriminate; [reflexivity|].
  inversion E. f_equal. apply IH. assumption.
Qed.

(** The effect nodes of the action nodes that add_action_level admits are
    new and belong to one action node each; the parents of literal nodes
    are not touched. *)
Lemma add_action_level_loop_owner (literals : pyset) (level : Z) :
  forall (acts : list Action) (self : PlanningGraph) (acc : list ref),
    py_getitem (s_levels self) level = Some literals ->
    wf_heap (heap self) -> Forall (valid (heap self)) literals ->
    exists addrs h',
      add_action_level_loop self level acts acc
      = Ok (acc ++ map RefA addrs, with_heap self h')
      /\ wf_heap h' /\ heap_le (heap self) h'
      /\ effnodes_apart h' addrs
      /\ (forall r, type_of r = PgNode_s_t ->
            parents (base h' r) = parents (base (heap self) r))
      /\ (forall a, In a addrs ->
            valid h' (RefA a)
            /\ Forall (fun e => ~ valid (heap self) e)
                      (effnodes (a_store h' a))).
Proof.
  induction acts as [|act acts IH]; intros self acc G W V.
  - exists [], (heap self). simpl. rewrite app_nil_r.
    split; [destruct self; reflexivity|]. split; [exact W|].
    split; [apply heap_le_refl|].
    split; [intros i j a1 a2 e _ H; destruct i; discriminate|].
    split; [reflexivity | intros a []].
  - simpl add_action_level_loop. rewrite G.
    destruct (new_PgNode_a_spec act (heap self) W) as (W1 & L1 & B1 & N1).
    destruct (new_PgNode_a act (heap self)) as [a h1]. simpl in W1, L1, B1, N1.
    assert (V1 : Forall (valid h1) literals)
      by (eapply heap_le_Forall_valid; eauto).
    rewrite (issubset_prenodes_applicable (heap self) (heap self) h1 act a);
      auto.
    destruct (applicable (keys (heap self) literals) act) eqn:Ap.
    + destruct (connect_literals_spec (RefA a) literals h1)
        as (St & Va & Mu & Pa & Pn & Ch & Cm & Le & Wf).
      set (h2 := connect_literals (RefA a) literals h1) in *.
      assert (Va1 : valid h1 (RefA a)) by (apply (an_valid _ _ _ _ N1)).
      assert (W2 : wf_heap h2) by (apply Wf; auto).
      assert (V2 : Forall (valid h2) literals)
        by (eapply heap_le_Forall_valid; eauto).
      assert (L02 : heap_le (heap self) h2) by (eapply heap_le_trans; eauto).
      destruct (IH (with_heap self h2) (acc ++ [RefA a]) G W2 V2)
        as (addrs & h' & E & W' & L' & Ap' & Ps' & Fr').
      simpl heap in *.
      assert (L1' : heap_le h1 h') by (eapply heap_le_trans; eauto).
      assert (Ef : effnodes (a_store h' a) = effnodes (a_store h1 a)).
      { apply effnodes_static. apply (le_static _ _ L1'). exact Va1. }
      pose proof (an_eff_fresh _ _ _ _ N1) as Fa. rewrite Forall_forall in Fa.
      exists (a :: addrs), h'. rewrite E. simpl map.
      rewrite <- app_assoc. simpl.
      split; [reflexivity|]. split; [exact W'|].
      split; [eapply heap_le_trans; eauto|].
      split; [|split].
      * intros i j a1 a2 e Lt Hi Hj He Hn.
        destruct j as [|j]; [lia|]. simpl in Hj.
        destruct i as [|i]; simpl in Hi.
        -- inversion Hi; subst a1. rewrite Ef in He.
           destruct (Fa e He) as (_ & _ & Ve).
           destruct (Fr' a2 (nth_error_In _ _ Hj)) as [_ Fr2].
           rewrite Forall_forall in Fr2. apply (Fr2 e Hn).
           apply Le. exact Ve.
        -- apply (Ap' i j a1 a2 e); auto. lia.
      * intros r T. rewrite Ps' by exact T.
        rewrite Pa; [rewrite B1; reflexivity|].
        intros ->. discriminate.
      * intros a' [<-|Ha'].
        -- split; [exact (le_valid _ _ L1' (RefA a) Va1)|]. rewrite Ef.
           apply Forall_forall. intros e He. apply (Fa e He).
        -- destruct (Fr' a' Ha') as [Va' Fr2]. split; [exact Va'|].
           eapply Forall_impl; [|exact Fr2]. intros e Ne.
           eapply heap_le_not_valid; eauto.
    + destruct (IH (with_heap self h1) acc G W1 V1)
        as (addrs & h' & E & W' & L' & Ap' & Ps' & Fr').
      simpl heap in *.
      exists addrs, h'. rewrite E.
      split; [reflexivity|]. split; [exact W'|].
      split; [eapply heap_le_trans; eauto|].
      split; [exact Ap'|]. split.
      * intros r T. rewrite Ps' by exact T. rewrite B1. reflexivity.
      * intros a' Ha'. destruct (Fr' a' Ha') as [Va' Fr2].
        split; [exact Va'|].
        eapply Forall_impl; [|exact Fr2]. intros e Ne.
        eapply heap_le_not_valid; eauto.
Qed.

Lemma add_action_level_owner (self : PlanningGraph) (level : Z)
    (literals : pyset) :
  py_getitem (s_levels self) level = Some literals ->
  wf_heap (heap self) -> Forall (valid (heap self)) literals ->
  exists addrs h',
    add_action_level self level
    = Ok (with_a_levels (with_heap self h')
                        (a_levels self ++ [map RefA addrs]))
    /\ effnodes_apart h' addrs
    /\ (forall r, type_of r = PgNode_s_t ->
          parents (base h' r) = parents (base (heap self) r)).
Proof.
  intros G W V.
  destruct (add_action_level_loop_owner literals level (all_actions self)
              self [] G W V) as (addrs & h' & E & _ & _ & Ap & Ps & _).
  exists addrs, h'. split; [|auto].
  unfold add_action_level. rewrite E. reflexivity.
Qed.

Lemma pyset_add_idem (h : Heap) (s : pyset) (x : ref) :
  pyset_add h (pyset_add h s x) x = pyset_add h s x.
Proof.
  unfold pyset_add at 1. rewrite pyset_mem_pyset_add. reflexivity.
Qed.

(** The parents sets after the loop [for state in current_action_effect]. *)
Lemma connect_effects_parents (act : ref) (effs : pyset) :
  forall (acc : list ref) (h : Heap),
    let h' := snd (connect_effects act effs acc h) in
    (forall r, ~ In r effs -> parents (base h' r) = parents (base h r))
    /\ (forall r, In r effs ->
          parents (base h' r) = pyset_add h (parents (base h r)) act).
Proof.
  unfold connect_effects.
  induction effs as [|e effs IH]; intros acc h; simpl.
  - split; [reflexivity | intros r []].
  - set (h1 := children_add (parents_add h e act) act e).
    assert (Pa1 : forall r, parents (base h1 r)
                    = if ref_eq_dec r e
                      then pyset_add h (parents (base h e)) act
                      else parents (base h r)).
    { intros r. unfold h1. rewrite parents_children_add.
      apply parents_parents_add. }
    assert (K1 : forall r, key h1 r = key h r).
    { intros r. unfold h1. rewrite key_children_add. apply key_parents_add. }
    destruct (IH (acc ++ [e]) h1) as [I1 I2]. split.
    + intros r N. rewrite I1 by tauto. rewrite Pa1.
      destruct (ref_eq_dec r e) as [->|_]; [tauto | reflexivity].
    + intros r Hr.
      destruct (in_dec ref_eq_dec r effs) as [Hin|Hout].
      * rewrite I2 by exact Hin. rewrite (pyset_add_ext h h1) by exact K1.
        rewrite Pa1. destruct (ref_eq_dec r e) as [->|_];
          [apply pyset_add_idem | reflexivity].
      * destruct Hr as [<-|Hr]; [|contradiction].
        rewrite I1 by exact Hout. rewrite Pa1.
        destruct (ref_eq_dec e e); [reflexivity | congruence].
Qed.

(** The parents sets after the loop of add_literal_level over the action
    nodes at the addresses [addrs]. *)
Lemma add_literal_level_loop_parents :
  forall (addrs : list nat) (acc : list ref) (h : Heap),
    wf_heap h -> Forall (valid h) (map RefA addrs) ->
    exists h',
      add_literal_level_loop (map RefA addrs) acc h
      = Ok (acc ++ level_effnodes h (map RefA addrs), h')
      /\ links_only h h' /\ wf_heap h'
      /\ (forall r, ~ In r (level_effnodes h (map RefA addrs)) ->
            parents (base h' r) = parents (base h r))
      /\ (effnodes_apart h addrs ->
          forall a e, In a addrs -> In e (effnodes (a_store h a)) ->
            parents (base h e) = [] -> parents (base h' e) = [RefA a]).
Proof.
  induction addrs as [|a addrs IH]; intros acc h W V; simpl map.
  - exists h. simpl. rewrite app_nil_r. split; [reflexivity|].
    split; [apply links_only_refl|]. split; [exact W|].
    split; [reflexivity | intros _ a e []].
  - inversion V as [|? ? V1 V2]; subst.
    simpl add_literal_level_loop.
    destruct (connect_effects_spec (RefA a) (effnodes (a_store h a)) acc h W V1)
      as (E1 & L1 & W1).
    { apply W. exact V1. }
    destruct (connect_effects_parents (RefA a) (effnodes (a_store h a)) acc h)
      as [Q1 Q2].
    destruct (connect_effects (RefA a) (effnodes (a_store h a)) acc h)
      as [acc1 h1]. simpl in E1, L1, W1, Q1, Q2. subst acc1.
    destruct (IH (acc ++ effnodes (a_store h a)) h1 W1) as (h' & E & L & W' & P1 & P2).
    { eapply Forall_impl; [|exact V2]. intros r. apply L1. }
    rewrite (level_effnodes_links_only h h1) in E, P1 by exact L1.
    exists h'. rewrite E.
    change (level_effnodes h (RefA a :: map RefA addrs))
      with (effnodes (a_store h a) ++ level_effnodes h (map RefA addrs)).
    rewrite <- app_assoc.
    split; [reflexivity|]. split; [eapply links_only_trans; eauto|].
    split; [exact W'|]. split.
    + intros r N. rewrite P1, Q1; auto; intros Hr; apply N;
        apply in_or_app; auto.
    + intros Ap a' e Ha' He Em.
      assert (Ap1 : effnodes_apart h1 addrs).
      { apply (effnodes_apart_static h); [intros; apply L1|].
        intros i j a1 a2 x Lt H1 H2. apply (Ap (S i) (S j)); auto. lia. }
      assert (Ef : forall b, effnodes (a_store h1 b) = effnodes (a_store h b)).
      { intros b. apply effnodes_static. apply L1. }
      destruct (in_dec ref_eq_dec e (effnodes (a_store h a))) as [Hin|Hout].
      * (* an effect node of the first action node *)
        assert (Ea : a' = a).
        { destruct Ha' as [->|Ha']; [reflexivity|].
          apply In_nth_error in Ha' as [j Hj].
          exfalso. apply (Ap 0%nat (S j) a a' e); auto. lia. }
        subst a'. rewrite P1.
        -- rewrite Q2 by exact Hin. rewrite Em. reflexivity.
        -- intros Hr. unfold level_effnodes in Hr.
           apply in_flat_map in Hr as (r & Hr & He').
           apply in_map_iff in Hr as (b & <- & Hb). simpl in He'.
           apply In_nth_error in Hb as [j Hj].
           apply (Ap 0%nat (S j) a b e); auto. lia.
      * destruct Ha' as [->|Ha']; [contradiction|].
        apply (P2 Ap1 a' e Ha').
        -- rewrite Ef. exact He.
        -- rewrite Q1 by exact Hout. exact Em.
Qed.

Lemma add_literal_level_owner (self : PlanningGraph) (level : Z)
    (addrs : list nat) :
  py_getitem (a_levels self) (level - 1) = Some (map RefA addrs) ->
  wf_heap (heap self) -> Forall (valid (heap self)) (map RefA addrs) ->
  exists h',
    add_literal_level self level
    = Ok (with_s_levels (with_heap self h')
            (s_levels self
               ++ [pyset_of_list h'
                     (level_effnodes (heap self) (map RefA addrs))]))
    /\ (forall r, ~ In r (level_effnodes (heap self) (map RefA addrs)) ->
          parents (base h' r) = parents (base (heap self) r))
    /\ (effnodes_apart (heap self) addrs ->
        forall a e, In a addrs -> In e (effnodes (a_store (heap self) a)) ->
          parents (base (heap self) e) = [] -> parents (base h' e) = [RefA a]).
Proof.
  intros G W V. unfold add_literal_level. rewrite G.
  destruct (add_literal_level_loop_parents addrs [] (heap self) W V)
    as (h' & E & _ & _ & P1 & P2).
  exists h'. rewrite E. simpl. auto.
Qed.

(** ** The stages of one iteration of the loop of create_graph *)

Lemma marked_mutex_le (h h' : Heap) (x y : ref) :
  heap_le h h' -> wf_heap h -> valid h x -> valid h y ->
  marked_mutex h x y -> marked_mutex h' x y.
Proof.
  intros Le W Vx Vy.
  assert (A : forall p q, valid h p -> valid h q ->
            is_mutex h p q = true -> is_mutex h' p q = true).
  { intros p q Vp Vq. rewrite !is_mutex_true, !pyset_mem_key.
    intros Hk. rewrite (heap_le_key h h' q Le Vq).
    rewrite <- (heap_le_keys h h' (mutex (base h p)) Le) in Hk
      by (apply W; exact Vp).
    unfold keys in *. apply in_map_iff in Hk as (e & Ee & He).
    apply in_map_iff. exists e. split; [exact Ee|].
    apply (le_mutex _ _ Le p Vp). exact He. }
  intros [M1 M2]. split; apply A; auto.
Qed.

Lemma create_graph_loop_stages (U : list node_key) (self : PlanningGraph) :
  graph_inv U self ->
  exists self4 s_old s_new addrs h1 h2 h3,
    loop_step U self self4 s_old s_new
    /\ loop_stages self self4 s_old s_new addrs h1 h2 h3.
Proof.
  intros Inv0. pose proof Inv0 as Inv.
  destruct Inv as [W Len Sok Sset Aok Aset SymS SymA Chain Last Bound].
  set (n := List.length (a_levels self)) in *.
  set (h := heap self) in *.
  (* the last literal level *)
  destruct (nth_error (s_levels self) n) as [s_old|] eqn:Eold;
    [|apply nth_error_None in Eold; lia].
  assert (Hold : In s_old (s_levels self)) by (eapply nth_error_In; eauto).
  assert (OkOld : level_ok h PgNode_s_t s_old)
    by (rewrite Forall_forall in Sok; auto).
  assert (SetOld : is_pyset h s_old) by (rewrite Forall_forall in Sset; auto).
  assert (Gold : py_getitem (s_levels self) (Z.of_nat n) = Some s_old)
    by (rewrite py_getitem_nat; exact Eold).
  (* add_action_level *)
  destruct (add_action_level_spec self (Z.of_nat n) s_old Gold W
              (lv_valid _ _ _ OkOld))
    as (addrs & h1 & E1 & W1 & L1 & M1 & P1 & F1).
  fold h in L1, M1, P1, F1.
  set (A := map RefA addrs) in *.
  set (self1 := with_a_levels (with_heap self h1) (a_levels self ++ [A])) in *.
  assert (VA1 : Forall (valid h1) A).
  { apply Forall_forall. intros r Hr. apply in_map_iff in Hr as (a & <- & Ha).
    destruct (Forall2_In_r _ _ _ _ F1 Ha) as (act & _ & Ad).
    apply (an_valid _ _ _ _ (ad_node _ _ _ _ _ Ad)). }
  assert (FA : Forall (fun r => ~ valid h r) A).
  { apply Forall_forall. intros r Hr. apply in_map_iff in Hr as (a & <- & Ha).
    destruct (Forall2_In_r _ _ _ _ F1 Ha) as (act & _ & Ad).
    apply (an_fresh _ _ _ _ (ad_node _ _ _ _ _ Ad)). }
  assert (TA : Forall (fun r => type_of r = PgNode_a_t) A).
  { apply Forall_forall. intros r Hr. apply in_map_iff in Hr as (a & <- & Ha).
    reflexivity. }
  assert (Fresh0 : forall r, ~ valid h r -> mutex (base h r) = []).
  { intros r N. rewrite (wf_fresh _ W r N). reflexivity. }
  assert (EA1 : forall r, In r A -> mutex (base h1 r) = []).
  { intros r Hr. rewrite M1. apply Fresh0.
    rewrite Forall_forall in FA. auto. }
  assert (GA : py_getitem (a_levels self1) (Z.of_nat n) = Some A).
  { rewrite py_getitem_nat.
    change (a_levels self1) with (a_levels self ++ [A]).
    apply nth_error_app_last. }
  (* update_a_mutex *)
  destruct (update_a_mutex_spec self1 A W1 VA1 TA EA1) as (h2 & E2 & I2).
  simpl heap in I2.
  set (self2 := with_heap self1 h2) in *.
  pose proof (mutex_level_inv_le _ _ _ I2) as L2.
  (* add_literal_level *)
  assert (GA2 : py_getitem (a_levels self2) (Z.of_nat n + 1 - 1) = Some A).
  { replace (Z.of_nat n + 1 - 1) with (Z.of_nat n) by lia. exact GA. }
  assert (VA2 : Forall (valid h2) A)
    by (eapply heap_le_Forall_valid; eauto).
  destruct (add_literal_level_spec self2 (Z.of_nat n + 1) A GA2
              (mi_wf _ _ _ I2) VA2 TA) as (h3 & E3 & L3 & W3).
  simpl heap in E3, L3. simpl s_levels in E3.
  set (effs := level_effnodes h2 A) in *.
  set (s_new := pyset_of_list h3 effs) in *.
  set (self3 := with_s_levels (with_heap self2 h3) (s_levels self ++ [s_new]))
    in *.
  assert (Eeffs : effs = level_effnodes h1 A).
  { apply level_effnodes_static. apply I2. }
  assert (Feffs : Forall (fun e => type_of e = PgNode_s_t /\ ~ valid h e
                                   /\ valid h1 e) effs).
  { rewrite Eeffs. eapply level_effnodes_fresh; eauto. }
  assert (L13 : heap_le h1 h3)
    by (eapply heap_le_trans; [exact L2 | apply L3]).
  assert (Fnew : Forall (fun e => type_of e = PgNode_s_t /\ ~ valid h e
                                  /\ valid h3 e) s_new).
  { apply Forall_forall. intros e He. apply pyset_of_list_In in He.
    rewrite Forall_forall in Feffs. destruct (Feffs e He) as (T & N & V).
    split; auto. split; auto. apply L13. exact V. }
  assert (Vnew : Forall (valid h3) s_new).
  { eapply Forall_impl; [|exact Fnew]. simpl. tauto. }
  assert (Tnew : Forall (fun r => type_of r = PgNode_s_t) s_new).
  { eapply Forall_impl; [|exact Fnew]. simpl. tauto. }
  assert (NotA : forall r, type_of r = PgNode_s_t -> ~ In r A).
  { intros r T Hr. rewrite Forall_forall in TA. rewrite (TA r Hr) in T.
    discriminate. }
  assert (Enew3 : forall r, In r s_new -> mutex (base h3 r) = []).
  { intros r Hr. rewrite Forall_forall in Fnew.
    destruct (Fnew r Hr) as (T & N & V).
    rewrite (lo_mutex _ _ L3), (mi_frame _ _ _ I2), M1; auto. }
  assert (Gnew : py_getitem (s_levels self3) (Z.of_nat n + 1) = Some s_new).
  { replace (Z.of_nat n + 1) with (Z.of_nat (List.length (s_levels self)))
      by lia.
    rewrite py_getitem_nat.
    change (s_levels self3) with (s_levels self ++ [s_new]).
    apply nth_error_app_last. }
  (* update_s_mutex *)
  destruct (update_s_mutex_spec self3 s_new W3 Vnew Tnew Enew3)
    as (h4 & E4 & I4).
  simpl heap in I4.
  set (self4 := with_heap self3 h4) in *.
  pose proof (mutex_level_inv_le _ _ _ I4) as L4.
  assert (Gold4 : py_getitem (s_levels self4) (Z.of_nat n + 1 - 1)
                  = Some s_old).
  { replace (Z.of_nat n + 1 - 1) with (Z.of_nat n) by lia.
    rewrite py_getitem_nat.
    change (s_levels self4) with (s_levels self ++ [s_new]).
    rewrite nth_error_app_old; [exact Eold | lia]. }
  destruct (create_graph_loop_step U self Inv0) as (self' & so & sn & St).
  pose proof (ls_run _ _ _ _ _ St 0%nat) as Run.
  change (List.length (a_levels self)) with n in Run.
  rewrite create_graph_loop_S in Run.
  rewrite E1 in Run. cbn [bind] in Run. rewrite GA in Run.
  rewrite E2 in Run. cbn [bind] in Run. cbv zeta in Run.
  rewrite E3 in Run. cbn [bind] in Run. rewrite Gnew in Run.
  rewrite E4 in Run. cbn [bind] in Run. rewrite Gold4 in Run.
  replace (py_getitem (s_levels self4) (Z.of_nat n + 1)) with (Some s_new)
    in Run by (symmetry; exact Gnew).
  cbn [create_graph_loop] in Run.
  assert (Es : self' = self4).
  { destruct (pyset_eqb (heap self4) s_new s_old),
             (pyset_eqb (heap self') sn so);
      inversion Run; reflexivity. }
  subst self'.
  assert (Eso : so = s_old).
  { pose proof (ls_old _ _ _ _ _ St) as Eo. fold n in Eo.
    rewrite Eold in Eo. inversion Eo. reflexivity. }
  assert (Esn : sn = s_new).
  { pose proof (ls_s_levels _ _ _ _ _ St) as Esl.
    change (s_levels self4) with (s_levels self ++ [s_new]) in Esl.
    apply app_inj_tail in Esl as [_ Esl]. symmetry. exact Esl. }
  subst so sn.
  (* who owns the effect nodes, and the parents sets *)
  destruct (add_action_level_owner self (Z.of_nat n) s_old Gold W
              (lv_valid _ _ _ OkOld)) as (addrs' & h1' & E1' & Ap & Ps).
  pose proof E1 as E1c. unfold self1, A in E1c. rewrite E1c in E1'.
  assert (Eh1 : h1 = h1')
    by (apply (f_equal (fun r => heap (state_of r))) in E1'; exact E1').
  assert (Ea1 : a_levels self ++ [map RefA addrs]
                = a_levels self ++ [map RefA addrs'])
    by (apply (f_equal (fun r => a_levels (state_of r))) in E1'; exact E1').
  apply app_inv_head in Ea1. inversion Ea1 as [Em1].
  apply map_RefA_inj in Em1. subst h1' addrs'. clear E1' Ea1 E1c.
  assert (Ap2 : effnodes_apart h2 addrs).
  { apply (effnodes_apart_static h1); [intros; apply I2 | exact Ap]. }
  destruct (add_literal_level_owner self2 (Z.of_nat n + 1) addrs GA2
              (mi_wf _ _ _ I2) VA2) as (h3' & E3' & Q1 & Q2).
  pose proof E3 as E3c. unfold self3, s_new, effs in E3c. rewrite E3c in E3'.
  assert (Eh3 : h3 = h3')
    by (apply (f_equal (fun r => heap (state_of r))) in E3'; exact E3').
  subst h3'. clear E3' E3c.
  exists self4, s_old, s_new, addrs, h1, h2, h3.
  split; [exact St|].
  constructor.
  - exact F1.
  - exact E2.
  - exact L3.
  - reflexivity.
  - exact E4.
  - reflexivity.
  - exact W1.
  - exact (mi_wf _ _ _ I2).
  - exact W3.
  - exact L1.
  - exact L2.
  - exact L4.
  - exact Ap.
  - intros r [Vr|Tr]; [apply P1; exact Vr | apply Ps; exact Tr].
  - apply I2.
  - apply I2.
  - exact Q1.
  - exact (Q2 Ap2).
  - apply I4.
Qed.

(** ** What the levels of a built graph hold *)

Lemma Forall2_map_back {A B : Type} (R : A -> B -> Prop) (f : B -> A)
    (l1 : list A) (l2 : list B) :
  Forall2 R l1 l2 -> (forall x y, R x y -> f y = x) -> map f l2 = l1.
Proof.
  intros F H. induction F as [|x y l1 l2 Rxy F IH]; simpl; [reflexivity|].
  rewrite (H x y Rxy), IH. reflexivity.
Qed.

Lemma action_static (h h' : Heap) (a : nat) :
  static h' (RefA a) = static h (RefA a) ->
  action (a_store h' a) = action (a_store h a).
Proof. simpl. intros E. inversion E. reflexivity. Qed.

Lemma with_heap_inj (self : PlanningGraph) (h h' : Heap) :
  Ok (with_heap self h) = Ok (with_heap self h') -> h = h'.
Proof. intros E. inversion E. reflexivity. Qed.

Lemma built_levels_step (U K0 : list node_key) (self self4 : PlanningGraph)
    (s_old s_new : pyset) (addrs : list nat) (h1 h2 h3 : Heap) :
  graph_inv U self -> built_levels K0 self ->
  loop_step U self self4 s_old s_new ->
  loop_stages self self4 s_old s_new addrs h1 h2 h3 ->
  built_levels K0 self4 /\ serial self4 = serial self.
Proof.
  intros Inv Bl St Sg.
  pose proof (ls_le _ _ _ _ _ St) as Le.
  pose proof (ls_s_levels _ _ _ _ _ St) as Es.
  pose proof (ls_actions _ _ _ _ _ St) as Eact.
  pose proof (ls_old _ _ _ _ _ St) as Eold.
  pose proof (ls_inv _ _ _ _ _ St) as Inv4.
  pose proof (gi_len _ _ Inv) as Len.
  pose proof (gi_wf _ _ Inv) as W.
  set (n := List.length (a_levels self)) in *.
  set (h := heap self) in *.
  set (self1 := after_actions self h1 addrs) in *.
  set (self3 := after_literals self1 h3 s_new) in *.
  pose proof (st_self4 _ _ _ _ _ _ _ _ Sg) as E4.
  fold self1 in E4. fold self3 in E4.
  assert (Ea : a_levels self4 = a_levels self ++ [map RefA addrs])
    by (rewrite E4; reflexivity).
  assert (Eser : serial self4 = serial self) by (rewrite E4; reflexivity).
  set (h4 := heap self4) in *.
  assert (L12 : heap_le h1 h2) by apply Sg.
  assert (L23 : heap_le h2 h3) by (apply (lo_le _ _ (st_links _ _ _ _ _ _ _ _ Sg))).
  assert (L34 : heap_le h3 h4) by apply Sg.
  assert (L24 : heap_le h2 h4) by (eapply heap_le_trans; eauto).
  assert (L14 : heap_le h1 h4) by (eapply heap_le_trans; eauto).
  assert (Vs : forall L, In L (s_levels self) -> Forall (valid h) L).
  { intros L HL. pose proof (gi_s_ok _ _ Inv) as Ok.
    rewrite Forall_forall in Ok. apply (Ok L HL). }
  assert (Va : forall L, In L (a_levels self) -> Forall (valid h) L).
  { intros L HL. pose proof (gi_a_ok _ _ Inv) as Ok.
    rewrite Forall_forall in Ok. apply (Ok L HL). }
  assert (Ks : forall L, In L (s_levels self) -> keys h4 L = keys h L).
  { intros L HL. apply heap_le_keys; auto. }
  assert (Hold : In s_old (s_levels self)) by (eapply nth_error_In; eauto).
  assert (Vadm : forall a, In a addrs -> valid h1 (RefA a)).
  { intros a Ha.
    destruct (Forall2_In_r _ _ _ _ (st_admitted _ _ _ _ _ _ _ _ Sg) Ha)
      as (act & _ & Ad).
    apply (an_valid _ _ _ _ (ad_node _ _ _ _ _ Ad)). }
  assert (EffFresh : forall e,
            In e (level_effnodes h2 (map RefA addrs)) ->
            type_of e = PgNode_s_t /\ ~ valid h e /\ valid h1 e).
  { intros e He.
    rewrite (level_effnodes_static h1 h2) in He
      by (apply (st_static2 _ _ _ _ _ _ _ _ Sg)).
    pose proof (level_effnodes_fresh _ _ _ _ _
                  (st_admitted _ _ _ _ _ _ _ _ Sg)) as Fr.
    rewrite Forall_forall in Fr. apply (Fr e He). }
  assert (ParOld : forall r, valid h r ->
            parents (base h4 r) = parents (base h r)).
  { intros r Vr. unfold h4.
    rewrite (st_parents4 _ _ _ _ _ _ _ _ Sg),
            (st_parents3 _ _ _ _ _ _ _ _ Sg),
            (st_parents2 _ _ _ _ _ _ _ _ Sg),
            (st_parents1 _ _ _ _ _ _ _ _ Sg); auto.
    intros Hr. destruct (EffFresh r Hr) as (_ & N & _). auto. }
  split; [|exact Eser].
  constructor.
  - (* the first level *)
    destruct (bl_first _ _ Bl) as (s0 & E0 & K).
    exists s0. split.
    + rewrite Es. rewrite nth_error_app1; [exact E0 | lia].
    + intros k. fold h4. rewrite Ks; [apply K|].
      eapply nth_error_In; eauto.
  - (* consecutive levels *)
    intros i Lv1 Lv2. rewrite Es, Eact. fold h4. intros H1 H2.
    destruct (Nat.lt_ge_cases (S i) (List.length (s_levels self))) as [Lt|Ge].
    + rewrite nth_error_app1 in H1, H2 by lia.
      rewrite (Ks Lv1), (Ks Lv2) by (eapply nth_error_In; eauto).
      apply (bl_next _ _ Bl i); auto.
    + assert (Ei : i = n).
      { assert (S i < List.length (s_levels self ++ [s_new]))%nat
          by (apply nth_error_Some; congruence).
        rewrite length_app in H. simpl in H. lia. }
      subst i. rewrite nth_error_app1 in H1 by lia.
      replace (S n) with (List.length (s_levels self)) in H2 by lia.
      rewrite nth_error_app_last in H2.
      rewrite Eold in H1. inversion H1; inversion H2; subst Lv1 Lv2.
      rewrite (Ks s_old Hold). apply (ls_keys _ _ _ _ _ St).
  - (* the action levels *)
    intros i A L. rewrite Ea, Es, Eact. fold h4. intros HA HL.
    destruct (Nat.lt_ge_cases i n) as [Lt|Ge].
    + rewrite nth_error_app1 in HA by (fold n; lia).
      rewrite nth_error_app1 in HL by lia.
      destruct (bl_actions _ _ Bl i A L HA HL) as (ad & EA & Em).
      exists ad. split; [exact EA|].
      rewrite (Ks L) by (eapply nth_error_In; eauto).
      etransitivity; [|exact Em]. apply map_ext_in. intros a Ha.
      apply action_static. apply (le_static _ _ Le).
      assert (VA : Forall (valid h) A) by (apply Va; eapply nth_error_In; eauto).
      rewrite Forall_forall in VA. apply VA. rewrite EA.
      apply in_map. exact Ha.
    + assert (Ei : i = n).
      { assert (i < List.length (a_levels self ++ [map RefA addrs]))%nat
          by (apply nth_error_Some; congruence).
        rewrite length_app in H. simpl in H. fold n in H. lia. }
      subst i. unfold n in HA. rewrite nth_error_app_last in HA.
      rewrite nth_error_app1 in HL by lia. fold n in HL.
      rewrite Eold in HL. inversion HA; inversion HL; subst A L.
      exists addrs. split; [reflexivity|].
      rewrite (Ks s_old Hold).
      apply (Forall2_map_back _ _ _ _ (st_admitted _ _ _ _ _ _ _ _ Sg)).
      intros act a Ad.
      rewrite (action_static h1 h4).
      * apply (an_action _ _ _ _ (ad_node _ _ _ _ _ Ad)).
      * apply (le_static _ _ L14).
        apply (an_valid _ _ _ _ (ad_node _ _ _ _ _ Ad)).
  - (* literals and their negations *)
    intros i L x y. rewrite Es. fold h4. intros HL Hx Hy Et.
    destruct (Nat.lt_ge_cases (S i) (List.length (s_levels self))) as [Lt|Ge].
    + rewrite nth_error_app1 in HL by lia.
      assert (VL : Forall (valid h) L) by (apply Vs; eapply nth_error_In; eauto).
      rewrite Forall_forall in VL.
      apply (marked_mutex_le h h4); auto.
      apply (bl_negation _ _ Bl i L); auto.
      rewrite <- Et. symmetry. apply s_static_test_static;
        apply (le_static _ _ Le); auto.
    + assert (Ei : i = n).
      { assert (S i < List.length (s_levels self ++ [s_new]))%nat
          by (apply nth_error_Some; congruence).
        rewrite length_app in H. simpl in H. lia. }
      subst i.
      replace (S n) with (List.length (s_levels self)) in HL by lia.
      rewrite nth_error_app_last in HL. inversion HL; subst L.
      assert (Tn : Forall (fun r => type_of r = PgNode_s_t) s_new).
      { pose proof (gi_s_ok _ _ Inv4) as Ok. rewrite Forall_forall in Ok.
        apply (lv_type _ _ _ (Ok s_new
                 ltac:(rewrite Es; apply in_or_app; right; left; reflexivity))). }
      destruct (update_s_mutex_static self3 s_new Tn) as (h' & E' & F & A).
      pose proof (st_s_mutex _ _ _ _ _ _ _ _ Sg) as Em4.
      change (update_s_mutex self3 s_new = Ok self4) in Em4.
      rewrite Em4 in E'.
      rewrite E4 in E'. apply with_heap_inj in E'. fold h4 in E'. subst h'.
      apply (marked_at_positions h4 s_new (s_static_test self3)); auto.
      * apply s_static_test_sym.
      * intros Exy. subst y. rewrite s_static_test_irrefl in Et. discriminate.
      * rewrite <- Et. symmetry. apply s_static_test_static; apply F.
  - (* actions: the tests on what the constructors fix *)
    intros i A x y. rewrite Ea. fold h4. intros HA Hx Hy Nxy Et.
    destruct (Nat.lt_ge_cases i n) as [Lt|Ge].
    + rewrite nth_error_app1 in HA by (fold n; lia).
      assert (VA : Forall (valid h) A) by (apply Va; eapply nth_error_In; eauto).
      rewrite Forall_forall in VA.
      apply (marked_mutex_le h h4); auto.
      apply (bl_a_static _ _ Bl i A); auto.
      rewrite <- Et. symmetry. apply a_static_test_static;
        [exact Eser | |]; apply (le_static _ _ Le); auto.
    + assert (Ei : i = n).
      { assert (i < List.length (a_levels self ++ [map RefA addrs]))%nat
          by (apply nth_error_Some; congruence).
        rewrite length_app in H. simpl in H. fold n in H. lia. }
      subst i. unfold n in HA. rewrite nth_error_app_last in HA.
      inversion HA; subst A.
      assert (TA : Forall (fun r => type_of r = PgNode_a_t) (map RefA addrs)).
      { apply Forall_forall. intros r Hr.
        apply in_map_iff in Hr as (a & <- & _). reflexivity. }
      assert (V1 : forall r, In r (map RefA addrs) -> valid h1 r).
      { intros r Hr. apply in_map_iff in Hr as (a & <- & Ha). auto. }
      destruct (update_a_mutex_static self1 (map RefA addrs) TA)
        as (h' & E' & F & A).
      pose proof (st_a_mutex _ _ _ _ _ _ _ _ Sg) as Em2.
      change (update_a_mutex self1 (map RefA addrs)
              = Ok (with_heap self1 h2)) in Em2.
      rewrite Em2 in E'.
      apply with_heap_inj in E'. subst h'.
      apply (marked_mutex_le h2 h4); auto.
      * apply Sg.
      * apply (le_valid _ _ L12). auto.
      * apply (le_valid _ _ L12). auto.
      * apply (marked_at_positions h2 (map RefA addrs) (a_static_test self1));
          auto.
        -- apply a_static_test_sym.
        -- rewrite <- Et. symmetry. apply a_static_test_static;
             [exact Eser | |]; apply (le_static _ _ L14); auto.
  - (* the parents of action nodes *)
    intros i A L a. rewrite Ea, Es. fold h4. intros HA HL Ha.
    destruct (Nat.lt_ge_cases i n) as [Lt|Ge].
    + rewrite nth_error_app1 in HA by (fold n; lia).
      rewrite nth_error_app1 in HL by lia.
      rewrite ParOld; [apply (bl_parents_a _ _ Bl i A L a); auto|].
      assert (VA : Forall (valid h) A) by (apply Va; eapply nth_error_In; eauto).
      rewrite Forall_forall in VA. auto.
    + assert (Ei : i = n).
      { assert (i < List.length (a_levels self ++ [map RefA addrs]))%nat
          by (apply nth_error_Some; congruence).
        rewrite length_app in H. simpl in H. fold n in H. lia. }
      subst i. unfold n in HA. rewrite nth_error_app_last in HA.
      rewrite nth_error_app1 in HL by lia. fold n in HL.
      rewrite Eold in HL. inversion HA; inversion HL; subst A L.
      apply in_map_iff in Ha as (a' & Ea' & Ha). inversion Ea'; subst a'.
      destruct (Forall2_In_r _ _ _ _ (st_admitted _ _ _ _ _ _ _ _ Sg) Ha)
        as (act & _ & Ad).
      unfold h4.
      rewrite (st_parents4 _ _ _ _ _ _ _ _ Sg),
              (st_parents3 _ _ _ _ _ _ _ _ Sg),
              (st_parents2 _ _ _ _ _ _ _ _ Sg).
      * rewrite (ad_parents _ _ _ _ _ Ad). apply pyset_of_list_id.
        pose proof (gi_s_set _ _ Inv) as S. rewrite Forall_forall in S.
        apply S. exact Hold.
      * intros Hr. destruct (EffFresh _ Hr) as (T & _). discriminate.
  - (* the parents of literal nodes *)
    intros i A L e. rewrite Ea, Es. fold h4. intros HA HL He.
    destruct (Nat.lt_ge_cases i n) as [Lt|Ge].
    + rewrite nth_error_app1 in HA by (fold n; lia).
      rewrite nth_error_app1 in HL by lia.
      destruct (bl_parents_s _ _ Bl i A L e HA HL He) as (a & Ha & Hf & Hp).
      assert (VA : Forall (valid h) A) by (apply Va; eapply nth_error_In; eauto).
      assert (VL : Forall (valid h) L) by (apply Vs; eapply nth_error_In; eauto).
      rewrite Forall_forall in VA, VL.
      exists a. split; [exact Ha|]. split.
      * rewrite (effnodes_static h h4); [exact Hf|].
        apply (le_static _ _ Le). auto.
      * rewrite ParOld; auto.
    + assert (Ei : i = n).
      { assert (i < List.length (a_levels self ++ [map RefA addrs]))%nat
          by (apply nth_error_Some; congruence).
        rewrite length_app in H. simpl in H. fold n in H. lia. }
      subst i. unfold n in HA. rewrite nth_error_app_last in HA.
      replace (S n) with (List.length (s_levels self)) in HL by lia.
      rewrite nth_error_app_last in HL.
      inversion HA; inversion HL; subst A L.
      rewrite (st_s_new _ _ _ _ _ _ _ _ Sg) in He.
      apply pyset_of_list_In in He.
      pose proof He as He'. unfold level_effnodes in He'.
      apply in_flat_map in He' as (r & Hr & Hf).
      apply in_map_iff in Hr as (a & <- & Ha). simpl in Hf.
      destruct (EffFresh e He) as (T & N & V1).
      exists a. split; [apply in_map; exact Ha|]. split.
      * rewrite (effnodes_static h2 h4); [exact Hf|].
        apply (le_static _ _ L24). apply (le_valid _ _ L12). auto.
      * unfold h4. rewrite (st_parents4 _ _ _ _ _ _ _ _ Sg).
        apply (st_owner3 _ _ _ _ _ _ _ _ Sg); auto.
        rewrite (st_parents2 _ _ _ _ _ _ _ _ Sg),
                (st_parents1 _ _ _ _ _ _ _ _ Sg) by (right; exact T).
        change (parents (base h e) = []).
        rewrite (wf_fresh _ W e N). reflexivity.
Qed.

Lemma growing_upto_step (U : list node_key) (self self4 : PlanningGraph)
    (s_old s_new : pyset) :
  graph_inv U self -> loop_step U self self4 s_old s_new ->
  growing_upto (List.length (s_levels self)) self ->
  growing_upto (List.length (a_levels self4)) self4
  /\ (pyset_eqb (heap self4) s_new s_old = false ->
      growing_upto (List.length (s_levels self4)) self4).
Proof.
  intros Inv St G.
  pose proof (ls_s_levels _ _ _ _ _ St) as Es.
  pose proof (ls_a_len _ _ _ _ _ St) as Ea.
  pose proof (ls_old _ _ _ _ _ St) as Eold.
  pose proof (ls_inv _ _ _ _ _ St) as Inv4.
  pose proof (gi_len _ _ Inv) as Len.
  assert (Old : growing_upto (List.length (a_levels self4)) self4).
  { intros i L1 L2 Lt. rewrite Es. rewrite Ea in Lt.
    rewrite !nth_error_app1 by lia. apply G. lia. }
  split; [exact Old|].
  intros Ne i L1 L2 Lt H1 H2.
  destruct (Nat.lt_ge_cases (S i) (List.length (a_levels self4))) as [Lo|Ge].
  - apply (Old i); auto.
  - rewrite Es in *. rewrite length_app in Lt. simpl in Lt.
    assert (Ei : i = List.length (a_levels self)) by lia. subst i.
    rewrite nth_error_app1 in H1 by lia.
    replace (S (List.length (a_levels self)))
      with (List.length (s_levels self)) in H2 by lia.
    rewrite nth_error_app_last in H2.
    rewrite Eold in H1. inversion H1; inversion H2; subst L1 L2.
    apply (pyset_eqb_false_grows (heap self4)); auto.
    + pose proof (gi_s_set _ _ Inv4) as S. rewrite Forall_forall in S.
      apply S. rewrite Es. apply in_or_app. left.
      eapply nth_error_In; eauto.
    + apply (gi_chain _ _ Inv4 (List.length (a_levels self))).
      * rewrite Es. rewrite nth_error_app1 by lia. exact Eold.
      * rewrite Es.
        replace (S (List.length (a_levels self)))
          with (List.length (s_levels self)) by lia.
        apply nth_error_app_last.
Qed.

(** The graph the loop of create_graph returns. *)
Lemma create_graph_loop_built (U K0 : list node_key) :
  forall (fuel : nat) (self self' : PlanningGraph),
    graph_inv U self -> built_levels K0 self ->
    growing_upto (List.length (s_levels self)) self ->
    create_graph_loop fuel (Z.of_nat (List.length (a_levels self))) self
    = Ok self' ->
    graph_inv U self' /\ built_levels K0 self'
    /\ growing_upto (List.length (a_levels self')) self'
    /\ leveled self'
    /\ all_actions self' = all_actions self
    /\ problem self' = problem self
    /\ serial self' = serial self.
Proof.
  induction fuel as [|fuel IH]; intros self self' Inv Bl G R;
    [discriminate|].
  destruct (create_graph_loop_stages U self Inv)
    as (self4 & s_old & s_new & addrs & h1 & h2 & h3 & St & Sg).
  destruct (built_levels_step U K0 _ _ _ _ _ _ _ _ Inv Bl St Sg) as [Bl4 Es4].
  destruct (growing_upto_step U _ _ _ _ Inv St G) as [G4 G4'].
  pose proof (ls_inv _ _ _ _ _ St) as Inv4.
  rewrite (ls_run _ _ _ _ _ St) in R.
  destruct (pyset_eqb (heap self4) s_new s_old) eqn:Eq.
  - inversion R; subst self'.
    split; [exact Inv4|]. split; [exact Bl4|]. split; [exact G4|].
    split; [|split; [apply St | split; [apply St | exact Es4]]].
    exists s_old, s_new.
    pose proof (ls_a_len _ _ _ _ _ St) as La.
    pose proof (gi_len _ _ Inv) as Len.
    split; [intros Nil; rewrite Nil in La; discriminate|].
    rewrite (ls_s_levels _ _ _ _ _ St), La.
    split; [|split; [|exact Eq]].
    + replace (S (List.length (a_levels self)))
        with (List.length (s_levels self)) by lia.
      apply nth_error_app_last.
    + replace (S (List.length (a_levels self)) - 1)%nat
        with (List.length (a_levels self)) by lia.
      rewrite nth_error_app1 by lia. apply St.
  - destruct (IH self4 self' Inv4 Bl4 (G4' eq_refl) R)
      as (Inv' & Bl' & G' & Lv & Ea & Ep & Es').
    split; [exact Inv'|]. split; [exact Bl'|]. split; [exact G'|].
    split; [exact Lv|].
    split; [rewrite Ea; apply St|].
    split; [rewrite Ep; apply St|].
    rewrite Es'. exact Es4.
Qed.


Lemma s_level_add_all_serial (lits : list Expr) (flag : bool) :
  forall (self : PlanningGraph) (level : nat),
    serial (state_of (s_level_add_all self level lits flag)) = serial self.
Proof.
  induction lits as [|p lits IH]; intros self level; [reflexivity|].
  simpl s_level_add_all. unfold s_level_add.
  destruct (nth_error (s_levels self) level) as [s|]; [|reflexivity].
  destruct (new_PgNode_s p flag (heap self)) as [n h1]. cbn [bind].
  rewrite IH. reflexivity.
Qed.

(** create_graph leaves the serial flag alone up to the loop. *)
Lemma create_graph_serial (fuel : nat) (self : PlanningGraph) :
  fuel = 0%nat -> serial (state_of (create_graph fuel self)) = serial self.
Proof.
  intros ->. unfold create_graph.
  destruct (negb _ || negb _); [reflexivity|]. cbv zeta.
  pose proof (s_level_add_all_serial
                (pos (fs (with_s_levels self (s_levels self ++ [[]])))) true
                (with_s_levels self (s_levels self ++ [[]])) 0) as S1.
  destruct (s_level_add_all _ 0 _ true) as [s1|e s1|s1]; simpl in S1;
    cbn [bind state_of]; try exact S1.
  pose proof (s_level_add_all_serial (neg (fs s1)) false s1 0) as S2.
  destruct (s_level_add_all s1 0 _ false) as [s2|e s2|s2]; simpl in S2;
    cbn [bind state_of create_graph_loop]; congruence.
Qed.

(** The graph with which the constructor enters the loop. *)
Lemma PlanningGraph_init_start (prob : Problem) (state : string)
    (serial_planning : bool) (fs0 : FluentState) :
  decode_state state (state_map prob) = inl fs0 ->
  exists self2,
    graph_inv (universe fs0 (combined_actions prob)) self2
    /\ built_levels (literal_keys (pos fs0) (neg fs0)) self2
    /\ growing_upto (List.length (s_levels self2)) self2
    /\ a_levels self2 = []
    /\ all_actions self2 = combined_actions prob
    /\ problem self2 = prob
    /\ serial self2 = serial_planning
    /\ forall fuel,
         PlanningGraph_init fuel prob state serial_planning
         = create_graph_loop fuel 0 self2.
Proof.
  intros E.
  set (self0 := mkPlanningGraph prob fs0 serial_planning
                  (combined_actions prob) [] [] empty_heap).
  destruct (decode_state_incl _ _ _ E) as [Ip In_].
  destruct (create_graph_init (universe fs0 (combined_actions prob)) self0)
    as (self2 & s0 & Inv & Es & Ea & Eact & Ep & _ & K0 & Run);
    try reflexivity.
  - apply wf_heap_empty.
  - apply sym_at_empty.
  - intros K HK k Hk. simpl in *.
    destruct (literal_keys_In _ _ _ Hk) as (f & b & -> & Hf).
    apply (next_keys_noops _ (state_map prob)).
    + unfold combined_actions. apply incl_appr, incl_refl.
    + destruct b; auto.
    + apply HK. exact Hk.
  - simpl. unfold universe. apply incl_appl, incl_refl.
  - simpl. unfold universe. apply incl_appr, incl_refl.
  - exists self2. split; [exact Inv|].
    split; [|split; [|split; [exact Ea|split; [exact Eact|split; [exact Ep|]]]]].
    + constructor.
      * exists s0. rewrite Es. split; [reflexivity | exact K0].
      * intros i L1 L2 _ H2. rewrite Es in H2. destruct i; discriminate.
      * intros i A L HA. rewrite Ea in HA. destruct i; discriminate.
      * intros i L x y HL. rewrite Es in HL. destruct i; discriminate.
      * intros i A x y HA. rewrite Ea in HA. destruct i; discriminate.
      * intros i A L a HA. rewrite Ea in HA. destruct i; discriminate.
      * intros i A L e HA. rewrite Ea in HA. destruct i; discriminate.
    + intros i L1 L2 _ _ H2. rewrite Es in H2. destruct i; discriminate.
    + split.
      * pose proof (create_graph_serial 0 self0 eq_refl) as R0.
        rewrite Run in R0. exact R0.
      * intros fuel. unfold PlanningGraph_init. rewrite E. apply Run.
Qed.

(** The graph the constructor returns. *)
Lemma PlanningGraph_init_built (fuel : nat) (prob : Problem) (state : string)
    (serial_planning : bool) (self : PlanningGraph) :
  PlanningGraph_init fuel prob state serial_planning = Ok self ->
  exists fs0,
    decode_state state (state_map prob) = inl fs0
    /\ graph_inv (universe fs0 (combined_actions prob)) self
    /\ built_levels (literal_keys (pos fs0) (neg fs0)) self
    /\ growing_upto (List.length (a_levels self)) self
    /\ leveled self
    /\ all_actions self = combined_actions prob
    /\ problem self = prob
    /\ serial self = serial_planning.
Proof.
  intros R.
  destruct (decode_state state (state_map prob)) as [fs0|e] eqn:E.
  - destruct (PlanningGraph_init_start prob state serial_planning fs0 E)
      as (self2 & Inv & Bl & G & Ea & Eact & Ep & Es & Run).
    rewrite Run in R.
    destruct (create_graph_loop_built _ _ fuel self2 self Inv Bl G)
      as (Inv' & Bl' & G' & Lv & Ea' & Ep' & Es').
    + rewrite Ea. exact R.
    + exists fs0. split; [reflexivity|]. split; [exact Inv'|].
      split; [exact Bl'|]. split; [exact G'|]. split; [exact Lv|].
      split; [congruence|]. split; congruence.
  - unfold PlanningGraph_init in R. rewrite E in R. discriminate.
Qed.

(** X17. In every graph the constructor returns, the first literal level holds
    exactly the literals of the decoded state, each further literal level
    holds exactly the effects of the actions whose preconditions are all in
    the level before it, and the last level is a fixed point: the effects of
    the actions applicable there are the level itself. *)
Theorem built_literal_levels (fuel : nat) (prob : Problem) (state : string)
    (serial_planning : bool) (self : PlanningGraph) :
  PlanningGraph_init fuel prob state serial_planning = Ok self ->
  exists fs0,
    decode_state state (state_map prob) = inl fs0
    /\ (exists s0,
          nth_error (s_levels self) 0 = Some s0
          /\ forall k, In k (keys (heap self) s0)
                       <-> In k (literal_keys (pos fs0) (neg fs0)))
    /\ (forall i L1 L2,
          nth_error (s_levels self) i = Some L1 ->
          nth_error (s_levels self) (S i) = Some L2 ->
          forall k, In k (keys (heap self) L2)
                    <-> In k (next_keys (combined_actions prob)
                                        (keys (heap self) L1)))
    /\ (forall L,
          nth_error (s_levels self) (List.length (a_levels self)) = Some L ->
          forall k, In k (next_keys (combined_actions prob)
                                    (keys (heap self) L))
                    <-> In k (keys (heap self) L)).
Proof.
  intros R.
  destruct (PlanningGraph_init_built _ _ _ _ _ R)
    as (fs0 & E & Inv & Bl & _ & Lv & Eact & _ & _).
  exists fs0. split; [exact E|]. split; [apply Bl|].
  rewrite <- Eact. split; [apply Bl|].
  intros L HL k.
  destruct Lv as (s_old & s_new & Na & Hn & Ho & Eq).
  rewrite Hn in HL. inversion HL; subst L.
  assert (Sn : is_pyset (heap self) s_new).
  { pose proof (gi_s_set _ _ Inv) as S. rewrite Forall_forall in S.
    apply S. eapply nth_error_In; eauto. }
  assert (So : is_pyset (heap self) s_old).
  { pose proof (gi_s_set _ _ Inv) as S. rewrite Forall_forall in S.
    apply S. eapply nth_error_In; eauto. }
  pose proof (proj1 (pyset_eqb_same_keys _ _ _ Sn So) Eq) as Same.
  assert (Nx : forall k, In k (keys (heap self) s_new)
                 <-> In k (next_keys (all_actions self)
                                     (keys (heap self) s_old))).
  { apply (bl_next _ _ Bl (List.length (a_levels self) - 1)); auto.
    replace (S (List.length (a_levels self) - 1))
      with (List.length (a_levels self)); [exact Hn|].
    destruct (a_levels self); [congruence | simpl; lia]. }
  rewrite Nx. split; apply next_keys_mono; intros k' Hk'; apply Same; exact Hk'.
Qed.

Lemma built_literal_levels_witness :
  PlanningGraph_init 2 Samples.toggle "T" true = Ok BuiltSamples.toggle_graph
  /\ forall k, In k (keys (heap BuiltSamples.toggle_graph) [RefS 2; RefS 4])
               <-> In k (next_keys (combined_actions Samples.toggle)
                           (keys (heap BuiltSamples.toggle_graph) [RefS 0])).
Proof.
  assert (R : PlanningGraph_init 2 Samples.toggle "T" true
              = Ok BuiltSamples.toggle_graph) by (vm_compute; reflexivity).
  split; [exact R|].
  destruct (built_literal_levels 2 Samples.toggle "T" true
              BuiltSamples.toggle_graph R) as (fs0 & _ & _ & Nx & _).
  apply (Nx 0%nat); vm_compute; reflexivity.
Defined.

(** X18. In every graph the constructor returns, each action level holds one
    node for each action whose preconditions are all in the literal level
    of the same index, in the order of the action list, and no other
    node. *)
Theorem built_action_levels (fuel : nat) (prob : Problem) (state : string)
    (serial_planning : bool) (self : PlanningGraph) :
  PlanningGraph_init fuel prob state serial_planning = Ok self ->
  forall i A L,
    nth_error (a_levels self) i = Some A ->
    nth_error (s_levels self) i = Some L ->
    exists addrs,
      A = map RefA addrs
      /\ map (fun a => action (a_store (heap self) a)) addrs
         = filter (applicable (keys (heap self) L)) (combined_actions prob).
Proof.
  intros R.
  destruct (PlanningGraph_init_built _ _ _ _ _ R)
    as (fs0 & E & Inv & Bl & _ & Lv & Eact & _ & _).
  rewrite <- Eact. apply Bl.
Qed.

Lemma built_action_levels_witness :
  PlanningGraph_init 2 Samples.toggle "T" true = Ok BuiltSamples.toggle_graph
  /\ exists addrs,
       [RefA 0; RefA 1] = map RefA addrs
       /\ map (fun a => action (a_store (heap BuiltSamples.toggle_graph) a))
              addrs
          = filter (applicable (keys (heap BuiltSamples.toggle_graph)
                                     [RefS 0]))
                   (combined_actions Samples.toggle).
Proof.
  assert (R : PlanningGraph_init 2 Samples.toggle "T" true
              = Ok BuiltSamples.toggle_graph) by (vm_compute; reflexivity).
  split; [exact R|].
  apply (built_action_levels 2 Samples.toggle "T" true
           BuiltSamples.toggle_graph R 0%nat); vm_compute; reflexivity.
Defined.

(** X19. In every graph the constructor returns, two literal nodes of a level
    other than the first that have one symbol and opposite signs are each
    in the mutex set of the other. *)
Theorem built_negation_mutex (fuel : nat) (prob : Problem) (state : string)
    (serial_planning : bool) (self : PlanningGraph) :
  PlanningGraph_init fuel prob state serial_planning = Ok self ->
  forall i L a b,
    nth_error (s_levels self) (S i) = Some L ->
    In (RefS a) L -> In (RefS b) L ->
    symbol (s_store (heap self) a) = symbol (s_store (heap self) b) ->
    is_pos (s_store (heap self) a) <> is_pos (s_store (heap self) b) ->
    marked_mutex (heap self) (RefS a) (RefS b).
Proof.
  intros R i L a b HL Ha Hb Es Np.
  destruct (PlanningGraph_init_built _ _ _ _ _ R)
    as (fs0 & E & Inv & Bl & _).
  apply (bl_negation _ _ Bl i L); auto.
  unfold s_static_test, negation_mutex. simpl. rewrite Es.
  rewrite Expr_eqb_refl, andb_true_r.
  destruct (is_pos (s_store (heap self) a)),
           (is_pos (s_store (heap self) b)); try reflexivity;
    exfalso; apply Np; reflexivity.
Qed.

Lemma built_negation_mutex_witness :
  PlanningGraph_init 2 Samples.toggle "T" true = Ok BuiltSamples.toggle_graph
  /\ marked_mutex (heap BuiltSamples.toggle_graph) (RefS 2) (RefS 4).
Proof.
  assert (R : PlanningGraph_init 2 Samples.toggle "T" true
              = Ok BuiltSamples.toggle_graph) by (vm_compute; reflexivity).
  split; [exact R|].
  apply (built_negation_mutex 2 Samples.toggle "T" true
           BuiltSamples.toggle_graph R 0%nat [RefS 2; RefS 4]).
  - vm_compute. reflexivity.
  - left. reflexivity.
  - right. left. reflexivity.
  - vm_compute. reflexivity.
  - vm_compute. discriminate.
Defined.

(** X20. In every graph the constructor returns, two different action nodes of
    a level are each in the mutex set of the other when, in serial planning,
    neither is persistent, when one adds a fluent that the other removes, or
    when one removes a positive precondition of the other. *)
Theorem built_action_mutex (fuel : nat) (prob : Problem) (state : string)
    (serial_planning : bool) (self : PlanningGraph) :
  PlanningGraph_init fuel prob state serial_planning = Ok self ->
  forall i A a b,
    nth_error (a_levels self) i = Some A ->
    In (RefA a) A -> In (RefA b) A -> a <> b ->
    (serial_planning = true
     /\ is_persistent (a_store (heap self) a) = false
     /\ is_persistent (a_store (heap self) b) = false)
    \/ inconsistent_effects_mutex (a_store (heap self) a)
                                  (a_store (heap self) b) = true
    \/ interference_mutex (a_store (heap self) a) (a_store (heap self) b)
       = true ->
    marked_mutex (heap self) (RefA a) (RefA b).
Proof.
  intros R i A a b HA Ha Hb Nab Test.
  destruct (PlanningGraph_init_built _ _ _ _ _ R)
    as (fs0 & E & Inv & Bl & _ & _ & _ & _ & Es).
  apply (bl_a_static _ _ Bl i A); auto.
  - intros Eab. inversion Eab. contradiction.
  - unfold a_static_test. simpl.
    destruct Test as [(Sr & Pa & Pb)|[Ie|If]].
    + unfold serialize_actions. rewrite Es, Sr, Pa, Pb. reflexivity.
    + rewrite Ie. rewrite orb_true_r. reflexivity.
    + rewrite If. rewrite orb_true_r. reflexivity.
Qed.

Lemma built_action_mutex_witness :
  PlanningGraph_init 3 Samples.same_name "TF" true
  = Ok Samples.same_name_graph
  /\ marked_mutex (heap Samples.same_name_graph) (RefA 0) (RefA 2).
Proof.
  assert (R : PlanningGraph_init 3 Samples.same_name "TF" true
              = Ok Samples.same_name_graph) by (vm_compute; reflexivity).
  split; [exact R|].
  apply (built_action_mutex 3 Samples.same_name "TF" true
           Samples.same_name_graph R 0%nat
           [RefA 0; RefA 1; RefA 2; RefA 3; RefA 6]).
  - vm_compute. reflexivity.
  - left. reflexivity.
  - right. right. left. reflexivity.
  - discriminate.
  - left. split; [reflexivity|]. split; vm_compute; reflexivity.
Defined.

Lemma growing_upto_size (b : nat) (self : PlanningGraph) :
  growing_upto b self ->
  forall i L, (i < b)%nat -> nth_error (s_levels self) i = Some L ->
    (i <= List.length L)%nat.
Proof.
  intros G. induction i as [|i IH]; intros L Lt HL; [lia|].
  destruct (nth_error (s_levels self) i) as [L1|] eqn:E1.
  - specialize (IH L1 ltac:(lia) eq_refl).
    pose proof (G i L1 L Lt E1 HL). lia.
  - apply nth_error_None in E1.
    assert (S i < List.length (s_levels self))%nat
      by (apply nth_error_Some; congruence).
    lia.
Qed.

(** X21. In every graph the constructor returns there is one literal level more
    than there are action levels, and at least one action level; the literal
    levels grow strictly in size up to the last but one, which has the size
    of the last; and there are at most two literal levels more than there are
    literals in the decoded state and in the effects of the actions. *)
Theorem built_graph_size (fuel : nat) (prob : Problem) (state : string)
    (serial_planning : bool) (self : PlanningGraph) :
  PlanningGraph_init fuel prob state serial_planning = Ok self ->
  exists fs0,
    decode_state state (state_map prob) = inl fs0
    /\ List.length (s_levels self) = S (List.length (a_levels self))
    /\ a_levels self <> []
    /\ (forall i L1 L2, (S i < List.length (a_levels self))%nat ->
          nth_error (s_levels self) i = Some L1 ->
          nth_error (s_levels self) (S i) = Some L2 ->
          (List.length L1 < List.length L2)%nat)
    /\ (forall L1 L2,
          nth_error (s_levels self) (List.length (a_levels self) - 1)
          = Some L1 ->
          nth_error (s_levels self) (List.length (a_levels self)) = Some L2 ->
          List.length L1 = List.length L2)
    /\ (List.length (s_levels self)
        <= List.length (universe fs0 (combined_actions prob)) + 2)%nat.
Proof.
  intros R.
  destruct (PlanningGraph_init_built _ _ _ _ _ R)
    as (fs0 & E & Inv & Bl & G & Lv & _).
  exists fs0. split; [exact E|]. split; [apply Inv|].
  destruct Lv as (s_old & s_new & Na & Hn & Ho & Eq).
  assert (El : List.length s_new = List.length s_old).
  { unfold pyset_eqb in Eq. apply andb_true_iff in Eq as [Eq _].
    apply Nat.eqb_eq. exact Eq. }
  split; [exact Na|]. split; [exact G|]. split.
  - intros L1 L2 H1 H2. rewrite Ho in H1. rewrite Hn in H2.
    inversion H1; inversion H2; subst. symmetry. exact El.
  - rewrite (gi_len _ _ Inv).
    assert (Pos : (0 < List.length (a_levels self))%nat).
    { destruct (a_levels self); [congruence | simpl; lia]. }
    pose proof (growing_upto_size _ _ G (List.length (a_levels self) - 1)
                  s_old ltac:(lia) Ho) as Lo.
    pose proof (level_bounded _ _ s_new Inv Hn) as Bd.
    lia.
Qed.

Lemma built_graph_size_witness :
  PlanningGraph_init 2 Samples.toggle "T" true = Ok BuiltSamples.toggle_graph
  /\ List.length (s_levels BuiltSamples.toggle_graph)
     = S (List.length (a_levels BuiltSamples.toggle_graph)).
Proof.
  assert (R : PlanningGraph_init 2 Samples.toggle "T" true
              = Ok BuiltSamples.toggle_graph) by (vm_compute; reflexivity).
  split; [exact R|].
  destruct (built_graph_size 2 Samples.toggle "T" true
              BuiltSamples.toggle_graph R) as (fs0 & _ & Len & _).
  exact Len.
Defined.

(** X22. Whatever the names of the actions, the graph the constructor leaves,
    returned or under construction, has a symmetric mutex relation on its
    literal nodes: a literal node is in the mutex set of another exactly
    when the other is in its own, and is_mutex is symmetric on the nodes of
    each literal level. *)
Theorem built_literal_mutex_symmetric (fuel : nat) (prob : Problem)
    (state : string) (serial_planning : bool) :
  literal_mutex_symmetric
    (state_of (PlanningGraph_init fuel prob state serial_planning)).
Proof.
  pose proof (PlanningGraph_init_inv fuel prob state serial_planning) as H.
  destruct (decode_state state (state_map prob)) as [fs0|e].
  - destruct H as (self' & [R|R] & Inv & _); rewrite R;
      apply (graph_inv_literal_symmetric _ _ Inv).
  - rewrite H. simpl. split.
    + intros [a|a] [b|b]; simpl; tauto.
    + intros L a b [].
Qed.

(** X23. In every graph the constructor returns, the parents of an action node
    are the literal nodes of the level of its index: all of them, not only
    the preconditions of the action. *)
Theorem built_action_parents (fuel : nat) (prob : Problem) (state : string)
    (serial_planning : bool) (self : PlanningGraph) :
  PlanningGraph_init fuel prob state serial_planning = Ok self ->
  forall i A L a,
    nth_error (a_levels self) i = Some A ->
    nth_error (s_levels self) i = Some L ->
    In (RefA a) A ->
    parents (base (heap self) (RefA a)) = L.
Proof.
  intros R.
  destruct (PlanningGraph_init_built _ _ _ _ _ R) as (fs0 & _ & _ & Bl & _).
  apply Bl.
Qed.

Lemma built_action_parents_witness :
  PlanningGraph_init 2 Samples.toggle "T" true = Ok BuiltSamples.toggle_graph
  /\ parents (base (heap BuiltSamples.toggle_graph) (RefA 0)) = [RefS 0].
Proof.
  assert (R : PlanningGraph_init 2 Samples.toggle "T" true
              = Ok BuiltSamples.toggle_graph) by (vm_compute; reflexivity).
  split; [exact R|].
  apply (built_action_parents 2 Samples.toggle "T" true
           BuiltSamples.toggle_graph R 0%nat [RefA 0; RefA 1]).
  - vm_compute. reflexivity.
  - vm_compute. reflexivity.
  - left. reflexivity.
Defined.

(** X24. In every graph the constructor returns, a literal node of a level
    other than the first has exactly one parent: an action node of the level
    before, the one among whose effect nodes it is.  The other actions of
    that level with the same literal as an effect are not among its
    parents. *)
Theorem built_literal_parents (fuel : nat) (prob : Problem) (state : string)
    (serial_planning : bool) (self : PlanningGraph) :
  PlanningGraph_init fuel prob state serial_planning = Ok self ->
  forall i A L e,
    nth_error (a_levels self) i = Some A ->
    nth_error (s_levels self) (S i) = Some L ->
    In e L ->
    exists a,
      In (RefA a) A
      /\ In e (effnodes (a_store (heap self) a))
      /\ parents (base (heap self) e) = [RefA a].
Proof.
  intros R.
  destruct (PlanningGraph_init_built _ _ _ _ _ R) as (fs0 & _ & _ & Bl & _).
  apply Bl.
Qed.

Lemma built_literal_parents_witness :
  PlanningGraph_init 2 Samples.toggle "T" true = Ok BuiltSamples.toggle_graph
  /\ exists a,
       In (RefA a) [RefA 0; RefA 1]
       /\ In (RefS 4) (effnodes (a_store (heap BuiltSamples.toggle_graph) a))
       /\ parents (base (heap BuiltSamples.toggle_graph) (RefS 4)) = [RefA a].
Proof.
  assert (R : PlanningGraph_init 2 Samples.toggle "T" true
              = Ok BuiltSamples.toggle_graph) by (vm_compute; reflexivity).
  split; [exact R|].
  apply (built_literal_parents 2 Samples.toggle "T" true
           BuiltSamples.toggle_graph R 0%nat [RefA 0; RefA 1]
           [RefS 2; RefS 4]).
  - vm_compute. reflexivity.
  - vm_compute. reflexivity.
  - right. left. reflexivity.
Defined.

(** X25. In every graph the constructor returns, inconsistent_support_mutex on
    two literal nodes of a level other than the first is the mutex test of
    their two parents: each has one parent only. *)
Theorem built_inconsistent_support (fuel : nat) (prob : Problem)
    (state : string) (serial_planning : bool) (self : PlanningGraph) :
  PlanningGraph_init fuel prob state serial_planning = Ok self ->
  forall i L x y,
    nth_error (s_levels self) (S i) = Some L ->
    In (RefS x) L -> In (RefS y) L ->
    exists a b,
      parents (s_base (s_store (heap self) x)) = [RefA a]
      /\ parents (s_base (s_store (heap self) y)) = [RefA b]
      /\ inconsistent_support_mutex self (s_store (heap self) x)
                                    (s_store (heap self) y)
         = is_mutex (heap self) (RefA a) (RefA b).
Proof.
  intros R i L x y HL Hx Hy.
  destruct (PlanningGraph_init_built _ _ _ _ _ R)
    as (fs0 & _ & Inv & Bl & _).
  destruct (nth_error (a_levels self) i) as [A|] eqn:HA.
  - destruct (bl_parents_s _ _ Bl i A L _ HA HL Hx) as (a & _ & _ & Pa).
    destruct (bl_parents_s _ _ Bl i A L _ HA HL Hy) as (b & _ & _ & Pb).
    simpl in Pa, Pb. exists a, b.
    split; [exact Pa|]. split; [exact Pb|].
    unfold inconsistent_support_mutex. rewrite Pa, Pb. simpl.
    destruct (is_mutex (heap self) (RefA a) (RefA b)); reflexivity.
  - apply nth_error_None in HA.
    assert (S i < List.length (s_levels self))%nat
      by (apply nth_error_Some; congruence).
    rewrite (gi_len _ _ Inv) in H. lia.
Qed.

Lemma built_inconsistent_support_witness :
  PlanningGraph_init 2 Samples.toggle "T" true = Ok BuiltSamples.toggle_graph
  /\ exists a b,
       parents (s_base (s_store (heap BuiltSamples.toggle_graph) 2))
       = [RefA a]
       /\ parents (s_base (s_store (heap BuiltSamples.toggle_graph) 4))
          = [RefA b]
       /\ inconsistent_support_mutex BuiltSamples.toggle_graph
            (s_store (heap BuiltSamples.toggle_graph) 2)
            (s_store (heap BuiltSamples.toggle_graph) 4)
          = is_mutex (heap BuiltSamples.toggle_graph) (RefA a) (RefA b).
Proof.
  assert (R : PlanningGraph_init 2 Samples.toggle "T" true
              = Ok BuiltSamples.toggle_graph) by (vm_compute; reflexivity).
  split; [exact R|].
  apply (built_inconsistent_support 2 Samples.toggle "T" true
           BuiltSamples.toggle_graph R 0%nat [RefS 2; RefS 4]).
  - vm_compute. reflexivity.
  - left. reflexivity.
  - right. left. reflexivity.
Defined.
